(** * Arkime viewer: hunts, cron queries, peer authentication, scrub and expiry

    A shallow embedding of the parts of [viewer/viewer.js] that carry the
    viewer's safety properties, with the theorems that settle them.

    Conventions.
    - JavaScript numbers that hold counters, offsets and epoch times are
      integers far below 2^53, where IEEE doubles are exact: they are [Z].
    - A JavaScript string is the sequence of its UTF-16 code units.  A
      [string] is a JavaScript string whose code units are below 256, one
      [ascii] per code unit (not one per UTF-8 byte): this is what a URL, a
      header name and a header value hold, which Node decodes as latin1.
      Where the length of a string with any code units matters, the string
      is the list of its code units, [JS.units].
    - A property that may be [undefined] is an [option].
    - A callback that runs to completion is one transition of a state; an
      asynchronous request is recorded in the state until its answer arrives.
    - Code of collaborating modules ([config.js], [db.js], [pcap.js]) that a
      function calls is a parameter of the model, or a small model of its
      contract, marked as such. *)

From Stdlib Require Import ZArith List String Ascii Bool Lia QArith.
Import ListNotations.

Open Scope string_scope.
Open Scope Z_scope.

(* ------------------------------------------------------------------------ *)
(** ** JavaScript helpers *)

Module JS.

(** A string as the list of its UTF-16 code units; [s.length] is the length
    of the list. *)
Definition units := list N.


(** Truthiness of such a string: defined and not empty. *)
Definition truthy_units (o : option units) : bool :=
  match o with
  | Some (_ :: _) => true
  | _ => false
  end.

(** A value in a template literal or a string concatenation: [undefined]
    reads "undefined". *)
Definition text (o : option string) : string :=
  match o with
  | Some s => s
  | None => "undefined"
  end.

(** [s.substring(n)] *)
Fixpoint drop (n : nat) (s : string) : string :=
  match n, s with
  | O, _ => s
  | S _, EmptyString => EmptyString
  | S n', String _ s' => drop n' s'
  end.

(** [s.replace(pat, rep)] for a string pattern [pat] and a replacement without
    [$] patterns: the first occurrence only. *)
Fixpoint replace (pat rep s : string) : string :=
  if prefix pat s then rep ++ drop (String.length pat) s
  else match s with
       | EmptyString => EmptyString
       | String c s' => String c (replace pat rep s')
       end.

(** The regular expression atom [.]: any character but a line terminator. *)
Definition dot (c : ascii) : bool :=
  negb (Ascii.eqb c "010"%char) && negb (Ascii.eqb c "013"%char).

(** Truthiness of a string property: defined and not empty. *)
Definition truthy_str (o : option string) : bool :=
  match o with
  | Some s => negb (String.eqb s "")
  | None => false
  end.

(** Truthiness of a number property: defined and not zero. *)
Definition truthy_num (o : option Z) : bool :=
  match o with
  | Some n => negb (n =? 0)
  | None => false
  end.

(** [o || d] on an optional number. *)
Definition num_or (o : option Z) (d : Z) : Z :=
  match o with
  | Some n => if n =? 0 then d else n
  | None => d
  end.

(** JSON values as far as the viewer's [{success, text}] envelope needs them:
    an object whose members are booleans and strings. *)
Inductive atom :=
| ABool (b : bool)
| AStr (s : string).

Definition dquote : string := String (ascii_of_nat 34) EmptyString.
Definition backslash : string := String (ascii_of_nat 92) EmptyString.

Definition hex_digit (n : nat) : string :=
  String (nth n (list_ascii_of_string "0123456789abcdef") "0"%char) EmptyString.

(** One character of a JSON string literal (QuoteJSONString). *)
Definition quote_char (c : ascii) : string :=
  let n := nat_of_ascii c in
  if Nat.eqb n 34 then backslash ++ dquote
  else if Nat.eqb n 92 then backslash ++ backslash
  else if Nat.eqb n 8 then backslash ++ "b"
  else if Nat.eqb n 12 then backslash ++ "f"
  else if Nat.eqb n 10 then backslash ++ "n"
  else if Nat.eqb n 13 then backslash ++ "r"
  else if Nat.eqb n 9 then backslash ++ "t"
  else if Nat.ltb n 32
       then backslash ++ "u00" ++ hex_digit (Nat.div n 16) ++ hex_digit (Nat.modulo n 16)
  else String c EmptyString.

Fixpoint quote_body (s : string) : string :=
  match s with
  | EmptyString => EmptyString
  | String c s' => quote_char c ++ quote_body s'
  end.

Definition quote (s : string) : string := dquote ++ quote_body s ++ dquote.

Definition stringify_atom (v : atom) : string :=
  match v with
  | ABool true => "true"
  | ABool false => "false"
  | AStr s => quote s
  end.

Fixpoint members (l : list (string * atom)) : string :=
  match l with
  | [] => ""
  | (k, x) :: rest =>
      quote k ++ ":" ++ stringify_atom x ++
      match rest with [] => "" | _ => "," ++ members rest end
  end.

(** [JSON.stringify] of such an object. *)
Definition stringify (fields : list (string * atom)) : string :=
  "{" ++ members fields ++ "}".

(** [s.trim()]: the white space and line terminators of ECMAScript among the
    code units below 256 are U+0009 to U+000D, U+0020 and U+00A0. *)
Definition is_space (c : ascii) : bool :=
  let n := nat_of_ascii c in
  Nat.eqb n 32 || (Nat.leb 9 n && Nat.leb n 13) || Nat.eqb n 160.

Fixpoint trim_start (s : string) : string :=
  match s with
  | String c s' => if is_space c then trim_start s' else s
  | EmptyString => EmptyString
  end.

Fixpoint trim_end (s : string) : string :=
  match s with
  | EmptyString => EmptyString
  | String c s' =>
      match trim_end s' with
      | EmptyString => if is_space c then EmptyString else String c EmptyString
      | t => String c t
      end
  end.

Definition trim (s : string) : string := trim_end (trim_start s).

(** [s.split(sep)] for a one-character separator. *)
Fixpoint split (sep : ascii) (s : string) : list string :=
  match s with
  | EmptyString => [EmptyString]
  | String c s' =>
      if Ascii.eqb c sep then EmptyString :: split sep s'
      else match split sep s' with
           | [] => [String c EmptyString]
           | w :: ws => String c w :: ws
           end
  end.

End JS.

(* ------------------------------------------------------------------------ *)
(** ** HTTP front: the response object, [molochError], the [passwordSecret]
       authentication middleware and [checkPermissions] *)

Module Http.

(** The response as the client sees it.  A fresh response has status 200. *)
Record Res := { statusCode : Z; body : string }.

Definition res_status (n : Z) (res : Res) : Res :=
  {| statusCode := n; body := body res |}.

(** [res.send(text)] with one argument: the status is left as it is. *)
Definition res_send (text : string) (res : Res) : Res :=
  {| statusCode := statusCode res; body := text |}.

Definition fresh : Res := {| statusCode := 200; body := "" |}.

(** [function molochError (status, text)]:
    [this.status(status || 403); return this.send(JSON.stringify({success: false, text: text}))] *)
Definition molochError (status : option Z) (text : string) (res : Res) : Res :=
  res_send (JS.stringify [("success", JS.ABool false); ("text", JS.AStr text)])
           (res_status (JS.num_or status 403) res).

(** A user document is a bag of properties; [flag u p] is the truthiness of
    [u[p]]. *)
Record User := { userId : string; flag : string -> bool }.

(** The decoded peer token, [{path, date, user}].  A property that the
    decoded object does not have is [None]; [tk_date] is the number that
    [obj.date] converts to in the subtraction, [None] when that is [NaN]. *)
Record Token := { tk_path : option string; tk_date : option Z; tk_user : option string }.

(** What [Db.getUserCache] hands to its callback: [(err, suser)], where a
    defined [suser] carries [found] and [_source]. *)
Record Lookup := { lk_err : option string; lk_suser : option (bool * User) }.

(** What passport's digest strategy does with a request. *)
Inductive Digest :=
| DigestChallenge                (* passport answers by itself *)
| DigestError (err : string)
| DigestOk (u : User).

Record Request := { url : string; headers : string -> option string }.

(** Configuration and collaborators of the middleware ([config.js], [db.js],
    [internals.js], passport), as the middleware sees them. *)
Record Env := {
  basePath : string;                         (* Config.basePath() *)
  hostName : string;                         (* Config.hostName() *)
  auth2obj : string -> option Token;         (* Config.auth2obj(h, false); None: it throws *)
  getUserCache : option string -> Lookup;    (* Db.getUserCache *)
  getUserCacheCreated : string -> string -> Lookup;
                                             (* Db.getUserCache after Db.setUser(name, nuser) *)
  userNameHeader : option string;
  requiredAuthHeader : option string;
  requiredAuthHeaderVal : option string;
  userAutoCreateTmpl : option (Request -> option string);
                                             (* the template, evaluated on req.headers, where
                                                JSON.parse accepts it; None: an exception *)
  digest : Request -> Digest;
  multiESOnly : bool     (* Config.get('multiES') && !Config.get('usersElasticsearch') *)
}.

(** [function userCleanup (suser)], as far as it changes the truthiness of
    properties: [createEnabled] is cleared on a multi-cluster viewer. *)
Definition userCleanup (env : Env) (suser : User) : User :=
  {| userId := userId suser;
     flag := fun p => if multiESOnly env && String.eqb p "createEnabled"
                      then false else flag suser p |}.

(** How a middleware leaves a request. *)
Inductive Outcome :=
| Next (user : option User)       (* next(); [user] is req.user when it was set here *)
| Sent (res : Res)                (* a response was sent *)
| SentLegacy (a b : string)       (* res.send(a, b): Express' old two-argument form *)
| PassportReply                   (* passport sent its own challenge *)
| Throw.                          (* an exception left the middleware *)

(** [/^\/(parliament|eshealth).json/] *)
Definition after (p : string) (u : string) : bool :=
  prefix p u &&
  match JS.drop (String.length p) u with
  | String c rest => JS.dot c && prefix "json" rest
  | EmptyString => false
  end.

Definition noAuthUrl (u : string) : bool :=
  after "/parliament" u || after "/eshealth" u.

(** [/^\/receiveSession/] or [/^\/api\/sessions\/receive/] *)
Definition receiveUrl (u : string) : bool :=
  prefix "/receiveSession" u || prefix "/api/sessions/receive" u.

Definition found (l : Lookup) : option User :=
  match lk_suser l with
  | Some (true, u) => Some u
  | _ => None
  end.

(** The callback of [Db.getUserCache] in the S2S branch; [name] is
    [obj.user]. *)
Definition s2sUser (env : Env) (name : option string) (l : Lookup) : Outcome :=
  match lk_err l with
  | Some err =>
      Sent (res_send ("ERROR - x-moloch getUser - user: " ++ JS.text name ++ " err:" ++ err)
                     fresh)
  | None =>
      match found l with
      | None => Sent (res_send (JS.text name ++ " doesn't exist") fresh)
      | Some u =>
          if negb (flag u "enabled") then Sent (res_send (JS.text name ++ " not enabled") fresh)
          else Next (Some (userCleanup env u))
      end
  end.

(** [function ucb (err, suser, userName)]; [userName] is [None] when the
    function is called with two arguments. *)
Definition ucb (env : Env) (l : Lookup) (userName : option string) : Outcome :=
  match lk_err l with
  | Some err =>
      Sent (res_send ("ERROR - getUser - user: " ++ JS.text userName ++ " err: " ++ err) fresh)
  | None =>
      match found l with
      | None => Sent (res_send (JS.text userName ++ " doesn't exist") fresh)
      | Some u =>
          if negb (flag u "enabled")
          then Sent (res_send (JS.text userName ++ " not enabled") fresh)
          else if negb (flag u "headerAuthEnabled")
               then Sent (res_send (JS.text userName ++ " header auth not enabled") fresh)
          else Next (Some (userCleanup env u))
      end
  end.

(** [err.toString().includes('Not Found')] *)
Fixpoint includes (pat s : string) : bool :=
  prefix pat s ||
  match s with
  | EmptyString => false
  | String _ s' => includes pat s'
  end.

(** The header-authentication branch, entered when the user-name header is
    present.  After a user was created from the template, [Db.getUserCache]
    gets [ucb] itself as its callback, which is then called without
    [userName]; what [Db.setUser] answers is only logged. *)
Definition headerAuth (env : Env) (req : Request) (userName : string) : Outcome :=
  let required :=
    match requiredAuthHeader env, requiredAuthHeaderVal env with
    | Some h, Some v =>
        match headers req h with
        | None => Some (Sent (res_send "Missing authorization header" fresh))
        | Some authHeader =>
            if existsb (fun headerVal => String.eqb (JS.trim headerVal) v)
                       (JS.split ","%char authHeader)
            then None
            else Some (Sent (res_send "Not authorized" fresh))
        end
    | _, _ => None
    end in
  match required with
  | Some out => out
  | None =>
      let l := getUserCache env (Some userName) in
      match userAutoCreateTmpl env with
      | None => ucb env l (Some userName)
      | Some tmpl =>
          if match lk_err l with Some err => includes "Not Found" err | None => false end
             || match found l with None => true | Some _ => false end
          then match tmpl req with
               | None => Throw
               | Some nuser => ucb env (getUserCacheCreated env userName nuser) None
               end
          else ucb env l (Some userName)
      end
  end.

Definition clocksText : string :=
  "Unauthorized based on timestamp - check that all moloch viewer machines have accurate clocks".

(** [Math.abs(Date.now() - obj.date) > 120000]: without a date the
    difference is [NaN] and the comparison is false. *)
Definition skewed (now : Z) (date : option Z) : bool :=
  match date with
  | Some d => 120000 <? Z.abs (now - d)
  | None => false
  end.

(** The middleware installed when [passwordSecret] is configured;
    [now] is [Date.now()]. *)
Definition passwordSecretAuth (env : Env) (now : Z) (req : Request) : Outcome :=
  if String.eqb (url req) "/_ns_/nstest.html" then Sent fresh
  else if noAuthUrl (url req) then Next None
  else if JS.truthy_str (headers req "x-moloch-auth") then
    (* S2S Auth *)
    match headers req "x-moloch-auth" with
    | None => Throw
    | Some h =>
        match auth2obj env h with
        | None => Throw
        | Some obj =>
            match tk_path obj with
            | None => Throw                (* obj.path.replace of undefined *)
            | Some p =>
                let path := JS.replace (basePath env) "/" p in
                if negb (String.eqb path (url req))
                then SentLegacy "Unauthorized based on bad url, check logs on " (hostName env)
                else if skewed now (tk_date obj)
                then Sent (res_send clocksText fresh)
                else if receiveUrl (url req) then Next None
                else s2sUser env (tk_user obj) (getUserCache env (tk_user obj))
            end
        end
    end
  else if receiveUrl (url req) then Sent (res_send "receive session only allowed s2s" fresh)
  else
    let viaHeader :=
      match userNameHeader env with
      | Some h =>
          match headers req h with
          | Some userName => Some (headerAuth env req userName)
          | None => None
          end
      | None => None
      end in
    match viaHeader with
    | Some out => out
    | None =>
        (* Browser auth *)
        match digest env req with
        | DigestChallenge => PassportReply
        | DigestError err => Sent (molochError (Some 200) err fresh)
        | DigestOk u => Next (Some u)
        end
    end.

(** [inversePermissions] of [checkPermissions] *)
Definition inversePermissions (p : string) : bool :=
  String.eqb p "hidePcap" || String.eqb p "hideFiles" ||
  String.eqb p "hideStats" || String.eqb p "disablePcapDownload".

Definition deniedText : string := "You do not have permission to access this resource".

(** [checkPermissions(permissions)] applied to a request of [user] *)
Fixpoint checkPermissions (permissions : list string) (user : User) : Outcome :=
  match permissions with
  | [] => Next None
  | permission :: rest =>
      if (negb (flag user permission) && negb (inversePermissions permission))
         || (flag user permission && inversePermissions permission)
      then Sent (molochError (Some 403) deniedText fresh)
      else checkPermissions rest user
  end.

(** The request on its way to a route guarded by [checkPermissions]: the
    authentication middleware first, then the permission gate on [req.user]. *)
Definition guarded (env : Env) (now : Z) (req : Request) (perms : list string) : Outcome :=
  match passwordSecretAuth env now req with
  | Next (Some u) => checkPermissions perms u
  | o => o
  end.

(** Whether an outcome hands the request on to the next handler. *)
Definition passedOn (o : Outcome) : bool :=
  match o with
  | Next _ => true
  | _ => false
  end.

End Http.

(* ------------------------------------------------------------------------ *)
(** ** Cron queries: [processCronQuery] and [processCronQueries] *)

Module Cron.

(** A compiled expression (an Elasticsearch filter tree built by
    [molochparser]); its shape plays no role here. *)
Definition Compiled := string.

Inductive Filter :=
| FEmpty                                     (* {} *)
| FRange (field : string) (gte lt : Z)       (* { range: { field: { gte, lt } } } *)
| FCompiled (e : Compiled).

(** The search body [{ from, size, query: { bool: { filter } }, _source }]. *)
Record Query := { q_from : Z; q_size : Z; filter : list Filter; _source : list string }.

Record CronQuery := {
  name : string;
  creator : string;
  enabled : bool;
  query : string;
  tags : string;
  action : string;
  notifier : option string;
  lpValue : Z;
  count : option Z;
  lastNotified : option Z;
  lastNotifiedCount : option Z
}.

(** The creator as [getUserCacheIncAnon] hands it to its callback. *)
Record Creator := {
  u_found : bool;
  u_enabled : bool;
  u_emailSearch : bool;
  u_expression : option string
}.

Record Options := { cluster : option string; saveId : string; o_tags : string; qid : string }.

Record Hit := { _id : string; node : string }.

(** One answer of Elasticsearch to [Db.search] or [Db.scroll]. *)
Inductive Result :=
| Failed                           (* err || result.error *)
| Page (hits : list Hit).

(** The update document of [processCronQueries].  The object literal has the
    three properties [lpValue], [lastRun], [count]; [d_lastNotifiedCount] is
    what reading [document.doc.lastNotifiedCount] yields. *)
Record Document := {
  d_lpValue : Z;
  d_lastRun : Z;
  d_count : Z;
  d_lastNotifiedCount : option Z
}.

Inductive Effect :=
| Search (q : Query)                               (* Db.search('sessions2-*', ...) *)
| Scroll
| ClearScroll
| UpdateCount (id : string) (n : Z)                (* Db.update(..., {doc: {count: n}}) *)
| Forward (o : Options) (ids : list Hit)           (* sendSessionsListQL *)
| ListFromIds (ids : list string)      (* sessionAPIs.sessionsListFromIds(null, ids, ...) *)
| AddTags (ts : list string) (list : list Hit)     (* sessionAPIs.addTagsList(tags, list) *)
| Alert (notifierName : string) (cronName : string) (newMatchCount total : Z)
                                                   (* issueAlert: "n new matches, t total matches" *)
| UpdateQuery (id : string) (doc : Document).      (* Db.update('queries', 'query', qid, document) *)

Record Env := {
  cronTimeout : Z;                                   (* internals.cronTimeout, seconds *)
  sessionsListFromIds : list string -> list Hit;
      (* the list that sessionAPIs.sessionsListFromIds hands to its callback for these ids,
         sessions by their id and node; its err is not looked at *)
  getUserCacheIncAnon : string -> option string * option Creator;
  parse : bool -> string -> option Compiled;         (* molochparser.parse under yy.emailSearch *)
  nodeName : string;
  toString36 : Z -> string                           (* Number.prototype.toString(36) *)
}.

(** [a[0] = x] on an array. *)
Definition set0 {A : Type} (x : A) (a : list A) : list A :=
  match a with
  | [] => [x]
  | _ :: rest => x :: rest
  end.

Definition len {A : Type} (l : list A) : Z := Z.of_nat (List.length l).

(** The head of the body of [processCronQuery]: at most 24 hours are
    processed, and [filter[0]] becomes the time range of the slice. *)
Definition singleEndTime (cq : CronQuery) (endTime : Z) : Z :=
  Z.min endTime (lpValue cq + 24 * 60 * 60).

Definition sliceQuery (cq : CronQuery) (q : Query) (endTime : Z) : Query :=
  {| q_from := q_from q;
     q_size := q_size q;
     filter := set0 (FRange "timestamp" (lpValue cq * 1000) (singleEndTime cq endTime * 1000))
                    (filter q);
     _source := _source q |}.

(** What a page of hits triggers before [doNext]: a forwarding query hands
    the hits to [sendSessionsListQL]; a tagging query hands their ids to
    [sessionsListFromIds] and the list that this call answers with to
    [addTagsList]. *)
Definition dispatch (env : Env) (cq : CronQuery) (o : Options) (hits : list Hit)
  : list Effect :=
  if prefix "forward:" (action cq) then [Forward o hits]
  else if prefix "tag" (action cq)
       then [ListFromIds (map _id hits);
             AddTags (JS.split ","%char (o_tags o)) (sessionsListFromIds env (map _id hits))]
  else [].

(** [getMoreUntilDone]: the answers of Elasticsearch are consumed one by one.
    [None]: the answers ran out before the scroll was drained, no callback
    has been made yet.  The search body carries no [count] property, so
    [(query.count || 0) + count] is [0 + count]. *)
Fixpoint getMoreUntilDone (env : Env) (cq : CronQuery) (o : Options) (n : Z)
                          (answers : list Result) : option (Z * list Effect) :=
  match answers with
  | [] => None
  | Failed :: _ => Some (n, [])
  | Page hits :: rest =>
      let n' := n + len hits in
      if len hits =? 0 then Some (n', (dispatch env cq o hits ++ [ClearScroll])%list)
      else match getMoreUntilDone env cq o n' rest with
           | Some (m, effs) =>
               Some (m, (dispatch env cq o hits
                         ++ [UpdateCount (qid o) (JS.num_or None 0 + n'); Scroll] ++ effs)%list)
           | None => None
           end
  end.

(** [processCronQuery (cq, options, query, endTime, cb)]: every way out of
    the loop body hands a truthy first argument to [whilstCb], so the body
    runs once and [cb(count, singleEndTime)] follows. *)
Definition processCronQuery (env : Env) (cq : CronQuery) (o : Options) (q : Query)
                            (endTime : Z) (answers : list Result)
  : option (Z * Z * list Effect) :=
  match getMoreUntilDone env cq o 0 answers with
  | Some (n, effs) =>
      Some (n, singleEndTime cq endTime, Search (sliceQuery cq q endTime) :: effs)
  | None => None
  end.

(** [cq.tags.replace(/[^-a-zA-Z0-9_:,]/g, '')] *)
Definition tagChar (c : ascii) : bool :=
  let n := nat_of_ascii c in
  Nat.eqb n 45 || (Nat.leb 97 n && Nat.leb n 122) || (Nat.leb 65 n && Nat.leb n 90)
  || (Nat.leb 48 n && Nat.leb n 57) || Nat.eqb n 95 || Nat.eqb n 58 || Nat.eqb n 44.

Fixpoint sanitize (s : string) : string :=
  match s with
  | EmptyString => EmptyString
  | String c s' => if tagChar c then String c (sanitize s') else sanitize s'
  end.

(** How the body of [async.eachSeries] in [processCronQueries] leaves one
    query. *)
Inductive Tick :=
| Skipped                       (* forQueriesCb() and nothing written *)
| Waiting                       (* Elasticsearch has not answered yet *)
| Updated (doc : Document) (effects : list Effect) (repeat : bool).

(** The search body built for a query, or [None] when an expression does not
    compile. *)
Definition buildQuery (env : Env) (cq : CronQuery) (user : Creator) : option Query :=
  match parse env (u_emailSearch user) (query cq) with
  | None => None
  | Some e =>
      let base := [FEmpty; FCompiled e] in
      match u_expression user with
      | Some ue =>
          if negb (String.eqb ue "") then
            match parse env true ue with
            | None => None
            | Some f => Some {| q_from := 0; q_size := 1000;
                                filter := (base ++ [FCompiled f])%list;
                                _source := ["_id"; "node"] |}
            end
          else Some {| q_from := 0; q_size := 1000; filter := base; _source := ["_id"; "node"] |}
      | None => Some {| q_from := 0; q_size := 1000; filter := base; _source := ["_id"; "node"] |}
      end
  end.

(** The callback handed to [processCronQuery]: [n] sessions were processed up
    to [lp]; [now] is [Date.now()] when the callback runs. *)
Definition newMatchCount (doc : Document) : Z :=
  if JS.truthy_num (d_lastNotifiedCount doc)
  then d_count doc - JS.num_or (d_lastNotifiedCount doc) 0
  else d_count doc.

Definition countChanged (cq : CronQuery) (doc : Document) : bool :=
  match count cq with
  | Some c => negb (c =? d_count doc)
  | None => true
  end.

Definition notifies (cq : CronQuery) (doc : Document) (n now : Z) : bool :=
  JS.truthy_str (notifier cq) && negb (n =? 0) && countChanged cq doc &&
  (negb (JS.truthy_num (lastNotified cq))
   || (600 <=? now / 1000 - JS.num_or (lastNotified cq) 0)).

Definition finishQuery (cq : CronQuery) (id : string) (endTime now n lp : Z)
                       (effs : list Effect) : Tick :=
  let doc := {| d_lpValue := lp;
                d_lastRun := now / 1000;
                d_count := JS.num_or (count cq) 0 + n;
                d_lastNotifiedCount := None |} in
  let alert :=
    if notifies cq doc n now
    then [Alert (match notifier cq with Some x => x | None => "" end)
                (name cq) (newMatchCount doc) (d_count doc)]
    else [] in
  Updated doc (effs ++ alert ++ [UpdateQuery id doc])%list (negb (lp =? endTime)).

(** The clock readings of one query's turn, in milliseconds. *)
Record Clock := { t_options : Z; t_done : Z }.

(** The body of [async.eachSeries] in [processCronQueries] for the query [id];
    [endTime] was fixed when the pass began. *)
Definition tick (env : Env) (endTime : Z) (id : string) (cq : CronQuery)
                (clk : Clock) (answers : list Result) : Tick :=
  if negb (enabled cq) || (endTime <? lpValue cq) then Skipped
  else
    let cl := if prefix "forward:" (action cq) then Some (JS.drop 8 (action cq)) else None in
    match getUserCacheIncAnon env (creator cq) with
    | (_, None) => Skipped
    | (_, Some user) =>
        if negb (u_found user) then Skipped
        else if negb (u_enabled user) then Skipped
        else
          let o := {| cluster := cl;
                      saveId := nodeName env ++ "-" ++ toString36 env (t_options clk);
                      o_tags := sanitize (tags cq);
                      qid := id |} in
          match buildQuery env cq user with
          | None => Skipped
          | Some q =>
              match processCronQuery env cq o q endTime answers with
              | None => Waiting
              | Some (n, lp, effs) => finishQuery cq id endTime (t_done clk) n lp effs
              end
          end
    end.

(** [endTime] of a pass that begins at [now] (milliseconds). *)
Definition passEndTime (env : Env) (now : Z) : Z := now / 1000 - cronTimeout env.

(** One pass of [processCronQueries] over the loaded queries, in the order of
    [Object.keys(queries)]; the world answers each query through [world].
    The result is each query's outcome and the [repeat] flag. *)
Fixpoint eachSeries (env : Env) (endTime : Z) (queries : list (string * CronQuery))
                    (world : string -> Clock * list Result) : list (string * Tick) * bool :=
  match queries with
  | [] => ([], false)
  | (id, cq) :: rest =>
      let t := tick env endTime id cq (fst (world id)) (snd (world id)) in
      match t with
      | Waiting => ([(id, t)], false)        (* the series goes on at the callback *)
      | _ =>
          let (ts, rep) := eachSeries env endTime rest world in
          ((id, t) :: ts, match t with Updated _ _ true => true | _ => rep end)
      end
  end.

End Cron.

(* ------------------------------------------------------------------------ *)
(** ** Scrubbing packets: [pcapScrub] *)

Module Scrub.

(** A [Buffer]: bytes as integers in [0, 255]. *)
Definition Buffer := list Z.

(** [Buffer.alloc(n)] *)
Definition alloc (n : nat) : Buffer := repeat 0 n.

(** [buf.fill(v)] *)
Definition fill (v : Z) (b : Buffer) : Buffer := map (fun _ => v) b.

Definition bytesOf (s : string) : list Z :=
  map (fun c => Z.of_nat (nat_of_ascii c)) (list_ascii_of_string s).

(** [buf.write(str, i)]: the bytes of [str] go to offset [i] as far as they
    fit; the result is the buffer and the number of bytes written. *)
Definition write (str : string) (i : nat) (b : Buffer) : Buffer * nat :=
  let n := Nat.min (String.length str) (List.length b - i) in
  ((firstn i b ++ firstn n (bytesOf str) ++ skipn (i + n) b)%list, n).

(** [for (let i = 0; i < 5000;) { i += buf.write(str, i); }] *)
Fixpoint writeAll (fuel : nat) (str : string) (i : nat) (b : Buffer) : Buffer :=
  match fuel with
  | O => b
  | S fuel' =>
      if Nat.ltb i 5000
      then let (b', n) := write str i b in writeAll fuel' str (i + n) b'
      else b
  end.

Definition str : string := "Scrubbed! Hoot! ".

(** [pcapScrub.scrubbingBuffers] *)
Definition scrubbingBuffers : list Buffer :=
  [ fill 0 (alloc 5000); fill 1 (alloc 5000); writeAll 5000 str 0 (alloc 5000) ].

Definition buffer (k : nat) : Buffer := nth k scrubbingBuffers [].

(** The methods of a pcap handle that [pcapScrub] calls, over a file state
    [F] and decoded packets [O]. *)
Record Pcap (F O : Type) := {
  readPacket : F -> Z -> option (list Z);        (* the callback's [packet], None when falsy *)
  decode : list Z -> option O;                   (* None: it throws *)
  scrubPacket : O -> Z -> Buffer -> bool -> F -> option F   (* None: it throws *)
}.
Arguments readPacket {F O}.
Arguments decode {F O}.
Arguments scrubPacket {F O}.

(** A completed call [pcap.scrubPacket(obj, pos, buf, entire)]. *)
Record Pass (O : Type) := { p_obj : O; p_pos : Z; p_buf : Buffer; p_entire : bool }.
Arguments p_obj {O}.
Arguments p_pos {O}.
Arguments p_buf {O}.
Arguments p_entire {O}.

Section ProcessFile.
Context {F O : Type} (pcap : Pcap F O).

(** The three statements of the [try] block; an exception leaves the block
    and keeps what the completed calls did. *)
Definition tryScrub (whatToRemove : string) (packet : list Z) (pos : Z) (f : F)
  : F * list (Pass O) :=
  let entire := String.eqb whatToRemove "all" in
  match decode pcap packet with
  | None => (f, [])
  | Some obj =>
      match scrubPacket pcap obj pos (buffer 0) entire f with
      | None => (f, [])
      | Some f0 =>
          let p0 := {| p_obj := obj; p_pos := pos; p_buf := buffer 0; p_entire := entire |} in
          match scrubPacket pcap obj pos (buffer 1) entire f0 with
          | None => (f0, [p0])
          | Some f1 =>
              let p1 := {| p_obj := obj; p_pos := pos; p_buf := buffer 1; p_entire := entire |} in
              match scrubPacket pcap obj pos (buffer 2) entire f1 with
              | None => (f1, [p0; p1])
              | Some f2 =>
                  (f2, [p0; p1;
                        {| p_obj := obj; p_pos := pos; p_buf := buffer 2; p_entire := entire |}])
              end
          end
      end
  end.

(** [processFile (pcap, pos, i, nextCb)]: [None] when [nextCb] is not called
    (no packet was read), otherwise the file and the passes made. *)
Definition processFile (whatToRemove : string) (f : F) (pos : Z) : option (F * list (Pass O)) :=
  match readPacket pcap f pos with
  | None => None
  | Some packet =>
      if 16 <? Z.of_nat (List.length packet)
      then Some (tryScrub whatToRemove packet pos f)
      else Some (f, [])
  end.

End ProcessFile.

(** Modelled from the spec: what a call of [scrubPacket], which "overwrites
    packet payload (and, if alsoHeader, the 16-byte record header) in place",
    has left of the record [raw] at [pos] when it was given the fill buffer
    [buf], for a handle in the state [f']: the record is
    still there, as long as before; every byte of its payload (what follows
    the 16-byte record header) is a byte of the fill buffer; and so is every
    byte of the record header if [alsoHeader], while otherwise the record
    header is as it was. *)
Definition scrubbed {F O : Type} (pcap : Pcap F O) (f' : F) (pos : Z) (raw : list Z)
                    (buf : Buffer) (alsoHeader : bool) : Prop :=
  exists raw',
    readPacket pcap f' pos = Some raw' /\
    List.length raw' = List.length raw /\
    Forall (fun x => In x buf) (skipn 16 raw') /\
    if alsoHeader then Forall (fun x => In x buf) (firstn 16 raw')
    else firstn 16 raw' = firstn 16 raw.

(** Modelled from the spec: what [pcap.js], which is not part of the sources
    at hand, promises of a handle.  The decoder converts the raw bytes of a
    record into a packet, and [scrubPacket(handle, offset, fillBuffer,
    alsoHeader)] overwrites the packet payload (and, if [alsoHeader], the
    16-byte record header) in place: called for a packet decoded from a
    record of this length, with a fill buffer that is not empty, it returns
    and leaves the record at the offset [scrubbed].  Which byte of the fill
    buffer goes where is not said. *)
Definition obeys {F O : Type} (pcap : Pcap F O) : Prop :=
  (forall raw, exists obj, decode pcap raw = Some obj) /\
  (forall obj pos buf alsoHeader f raw raw0,
     buf <> [] ->
     decode pcap raw0 = Some obj ->
     List.length raw0 = List.length raw ->
     readPacket pcap f pos = Some raw ->
     exists f', scrubPacket pcap obj pos buf alsoHeader f = Some f' /\
                scrubbed pcap f' pos raw buf alsoHeader).

(** One handle that keeps this promise, for the examples: a capture file
    holds packet records by byte offset, a decoded packet is [{header,
    payload}], and [scrubPacket] lays the fill buffer over each region from
    its start, again and again (a choice of this example; the promise leaves
    the layout open). *)
Definition SpecFile := list (Z * list Z).

Record SpecPacket := { header : list Z; payload : list Z }.

Fixpoint specRead (f : SpecFile) (pos : Z) : option (list Z) :=
  match f with
  | [] => None
  | (o, raw) :: rest => if o =? pos then Some raw else specRead rest pos
  end.

Definition specDecode (raw : list Z) : option SpecPacket :=
  Some {| header := firstn 16 raw; payload := skipn 16 raw |}.

Fixpoint specStore (f : SpecFile) (pos : Z) (raw : list Z) : SpecFile :=
  match f with
  | [] => []
  | (o, r) :: rest => if o =? pos then (o, raw) :: rest else (o, r) :: specStore rest pos raw
  end.

Definition specFill (n : nat) (fillBuffer : Buffer) : list Z :=
  map (fun i => nth (Nat.modulo i (List.length fillBuffer)) fillBuffer 0) (seq 0 n).

Definition specScrub (obj : SpecPacket) (pos : Z) (fillBuffer : Buffer) (alsoHeader : bool)
                     (f : SpecFile) : option SpecFile :=
  match specRead f pos with
  | None => None
  | Some raw =>
      Some (specStore f pos
              ((if alsoHeader then specFill (Nat.min 16 (List.length raw)) fillBuffer
                else firstn 16 raw)
               ++ specFill (List.length raw - 16) fillBuffer)%list)
  end.

Definition specPcap : Pcap SpecFile SpecPacket :=
  {| readPacket := specRead; decode := specDecode; scrubPacket := specScrub |}.

(** The iteratee that [pcapScrub] hands to [async.eachLimit] over
    [fields.packetPos]: a negative entry selects the file of the entries that
    follow; [files] finds and opens a file for writing ([None]: no such file,
    or it cannot be opened, and [nextCb] gets the error). *)
Inductive Step (F O : Type) :=
| Selected (fileNum : Z)
| Unavailable
| Processed (fileNum : Z) (r : option (F * list (Pass O))).
Arguments Selected {F O}.
Arguments Unavailable {F O}.
Arguments Processed {F O}.

Definition scrubStep {F O : Type} (pcap : Pcap F O) (whatToRemove : string)
                     (files : Z -> option F) (fileNum : option Z) (pos : Z) : Step F O :=
  if pos <? 0 then Selected (pos * -1)
  else match fileNum with
       | None => Unavailable
       | Some k =>
           match files k with
           | None => Unavailable
           | Some f => Processed k (processFile pcap whatToRemove f pos)
           end
       end.

(** What [pcapScrub] does to the session document: with ['spi'] nothing is
    scrubbed and the document is deleted; after scrubbing, ['all'] deletes it
    and anything else records who scrubbed and when. *)
Inductive DocAction :=
| DeleteDocument
| UpdateSession (scrubby : string) (scrubat : Z).

Definition docAction (whatToRemove : string) (userId : option string) (now : Z) : DocAction :=
  if String.eqb whatToRemove "spi" then DeleteDocument
  else if String.eqb whatToRemove "all" then DeleteDocument
  else UpdateSession (if JS.truthy_str userId then match userId with Some u => u | None => "-" end
                      else "-") now.

Definition scrubsPackets (whatToRemove : string) : bool :=
  negb (String.eqb whatToRemove "spi").

End Scrub.

(* ------------------------------------------------------------------------ *)
(** ** Expiring capture files: [expireDevice] *)

Module Expiry.

(** A row of the [files] index. *)
Record File := {
  _id : string;
  num : Z;
  name : string;
  first : Z;
  size : Z;
  node : string;
  locked : Z
}.

(** The search body built by [expireDevice]. *)
Record Query := {
  terms_node : list string;          (* must: { terms: { node: nodes } } *)
  should_wildcard : list string;     (* must: { bool: { should: [{ wildcard: { name } }] } } *)
  must_not_locked : Z;               (* must_not: { term: { locked: 1 } } *)
  q_size : nat;                      (* size: 200 *)
  sort_first_asc : bool              (* sort: { first: { order: 'asc' } } *)
}.

(** [pcapDir[pcapDir.length - 1]] *)
Fixpoint lastChar (s : string) : option ascii :=
  match s with
  | EmptyString => None
  | String c EmptyString => Some c
  | String _ s' => lastChar s'
  end.

Definition pattern (pcapDir : string) : string :=
  match lastChar pcapDir with
  | Some c => if Ascii.eqb c "/"%char then pcapDir ++ "*" else pcapDir ++ "/*"
  | None => pcapDir ++ "/*"
  end.

Definition buildQuery (nodes : list string) (dirs : list string) : Query :=
  {| terms_node := nodes;
     should_wildcard := map pattern dirs;
     must_not_locked := 1;
     q_size := 200;
     sort_first_asc := true |}.

(** Modelled from the spec: the wildcard match of the [files] index behind
    [Db.search] of [db.js] ([db.js] is not part of the sources at hand): [*]
    stands for any characters, [?] for one. *)
Fixpoint wildcard (p s : string) : bool :=
  match p with
  | EmptyString => match s with EmptyString => true | _ => false end
  | String c p' =>
      if Ascii.eqb c "*"%char then
        (fix star (t : string) : bool :=
           wildcard p' t || match t with
                            | EmptyString => false
                            | String _ t' => star t'
                            end) s
      else match s with
           | EmptyString => false
           | String d s' => (Ascii.eqb c "?"%char || Ascii.eqb c d) && wildcard p' s'
           end
  end.

(** Modelled from the spec: which files a search of [Db.search] of [db.js]
    matches: the files of the given nodes whose path matches one of the
    wildcards and that are not locked. *)
Definition matches (q : Query) (f : File) : bool :=
  existsb (String.eqb (node f)) (terms_node q)
  && (match should_wildcard q with
      | [] => true
      | ps => existsb (fun p => wildcard p (name f)) ps
      end)
  && negb (locked f =? must_not_locked q).

(** Modelled from the spec: the order of the hits of [Db.search] of [db.js],
    by [first] ascending. *)
Fixpoint insertByFirst (f : File) (l : list File) : list File :=
  match l with
  | [] => [f]
  | g :: rest => if first f <=? first g then f :: l else g :: insertByFirst f rest
  end.

Definition sortByFirst (l : list File) : list File := fold_right insertByFirst [] l.

(** [data.hits]: the page of hits and the total. *)
Record Hits := { hits : list File; total : Z }.

(** Modelled from the spec: [Db.search] of [db.js] on the [files] index: the
    matching files, oldest first, at most [size] of them, together with the
    total number of matching files. *)
Definition search (index : list File) (q : Query) : Hits :=
  let found := filter (matches q) index in
  {| hits := firstn (q_size q) (if sort_first_asc q then sortByFirst found else found);
     total := Z.of_nat (List.length found) |}.

(** The file system as [expireDevice] meets it, after the files in [deleted]
    are gone: [fse.statVFS(name)] ([None]: it throws), and whether the
    callback of [Db.deleteFile] reports an error. *)
Record Stat := { f_frsize : Z; f_bavail : Z }.

Record World := {
  statVFS : list File -> string -> option Stat;
  deleteFails : list File -> File -> bool
}.

(** [stat.f_frsize / 1024.0 * stat.f_bavail / (1024.0 * 1024.0)], over the
    rationals.  The code computes in doubles, which round the product;
    rounding is monotone, so where the code finds less free space than the
    minimum, so does this exact value (the converse can fail by one
    rounding step): the model deletes whenever the code does. *)
Definition freeOf (st : Stat) : Q :=
  (inject_Z (f_frsize st) / inject_Z 1024 * inject_Z (f_bavail st)
   / (inject_Z 1024 * inject_Z 1024))%Q.

Definition Qltb (a b : Q) : bool := negb (Qle_bool b a).

(** The iteration of [async.forEachSeries] over [data.hits.hits]; [total] is
    [data.hits.total], counted down at each deletion.  The result is the
    files handed to [Db.deleteFile], oldest first, and the final total. *)
Fixpoint forEachSeries (w : World) (minFreeSpaceG : Q) (items : list File)
                       (total : Z) (deleted : list File) : list File * Z :=
  match items with
  | [] => (deleted, total)
  | item :: rest =>
      if total <=? 10 then (deleted, total)
      else
        let freeG := match statVFS w deleted (name item) with
                     | Some st => freeOf st
                     | None => (minFreeSpaceG - inject_Z 1)%Q
                     end in
        if Qltb freeG minFreeSpaceG then
          let deleted' := (deleted ++ [item])%list in
          if deleteFails w deleted item then (deleted', total - 1)
          else forEachSeries w minFreeSpaceG rest (total - 1) deleted'
        else (deleted, total)
  end.

(** [expireDevice (nodes, dirs, minFreeSpaceG, nextCb)]; [data] is [None]
    when the search fails ([err || data.error || !data.hits]). *)
Definition expireWith (w : World) (minFreeSpaceG : Q) (data : option Hits) : list File * Z :=
  match data with
  | None => ([], 0)
  | Some d =>
      if total d <=? 10 then ([], total d)
      else forEachSeries w minFreeSpaceG (hits d) (total d) []
  end.

Definition expireDevice (w : World) (index : list File) (nodes dirs : list string)
                        (minFreeSpaceG : Q) : list File * Z :=
  expireWith w minFreeSpaceG (Some (search index (buildQuery nodes dirs))).

(** Oldest first. *)
Definition olderFirst (a b : File) : Prop := first a <= first b.

Inductive ascending : list File -> Prop :=
| asc_nil : ascending []
| asc_one f : ascending [f]
| asc_cons f g l : olderFirst f g -> ascending (g :: l) -> ascending (f :: g :: l).

End Expiry.

(* ------------------------------------------------------------------------ *)
(** ** Packet hunts: [runHuntJob], [updateHuntStats],
       [continueHuntSkipSession], [huntFailedSessions] *)

Module Hunt.

Inductive Status := queued | running | paused | finished.

Definition isPaused (s : Status) : bool :=
  match s with paused => true | _ => false end.

(** An entry of [hunt.errors]. *)
Record Error := { value : string; e_node : option string; time : Z }.

(** The hunt document, as far as the job runner reads and writes it. *)
Record Hunt := {
  name : string;
  status : Status;
  lastUpdated : Z;
  totalSessions : Z;
  searchedSessions : Z;
  matchedSessions : Z;
  lastPacketTime : option Z;
  failedSessionIds : option (list string);
  errors : option (list Error);
  unrunnable : bool;
  notifier : option string
}.

Definition setStatus (x : Status) (h : Hunt) : Hunt :=
  {| name := name h; status := x; lastUpdated := lastUpdated h;
     totalSessions := totalSessions h; searchedSessions := searchedSessions h;
     matchedSessions := matchedSessions h; lastPacketTime := lastPacketTime h;
     failedSessionIds := failedSessionIds h; errors := errors h;
     unrunnable := unrunnable h; notifier := notifier h |}.

Definition setLastUpdated (x : Z) (h : Hunt) : Hunt :=
  {| name := name h; status := status h; lastUpdated := x;
     totalSessions := totalSessions h; searchedSessions := searchedSessions h;
     matchedSessions := matchedSessions h; lastPacketTime := lastPacketTime h;
     failedSessionIds := failedSessionIds h; errors := errors h;
     unrunnable := unrunnable h; notifier := notifier h |}.

Definition setTotalSessions (x : Z) (h : Hunt) : Hunt :=
  {| name := name h; status := status h; lastUpdated := lastUpdated h;
     totalSessions := x; searchedSessions := searchedSessions h;
     matchedSessions := matchedSessions h; lastPacketTime := lastPacketTime h;
     failedSessionIds := failedSessionIds h; errors := errors h;
     unrunnable := unrunnable h; notifier := notifier h |}.

Definition setSearchedSessions (x : Z) (h : Hunt) : Hunt :=
  {| name := name h; status := status h; lastUpdated := lastUpdated h;
     totalSessions := totalSessions h; searchedSessions := x;
     matchedSessions := matchedSessions h; lastPacketTime := lastPacketTime h;
     failedSessionIds := failedSessionIds h; errors := errors h;
     unrunnable := unrunnable h; notifier := notifier h |}.

Definition setMatchedSessions (x : Z) (h : Hunt) : Hunt :=
  {| name := name h; status := status h; lastUpdated := lastUpdated h;
     totalSessions := totalSessions h; searchedSessions := searchedSessions h;
     matchedSessions := x; lastPacketTime := lastPacketTime h;
     failedSessionIds := failedSessionIds h; errors := errors h;
     unrunnable := unrunnable h; notifier := notifier h |}.

Definition setLastPacketTime (x : option Z) (h : Hunt) : Hunt :=
  {| name := name h; status := status h; lastUpdated := lastUpdated h;
     totalSessions := totalSessions h; searchedSessions := searchedSessions h;
     matchedSessions := matchedSessions h; lastPacketTime := x;
     failedSessionIds := failedSessionIds h; errors := errors h;
     unrunnable := unrunnable h; notifier := notifier h |}.

Definition setFailedSessionIds (x : option (list string)) (h : Hunt) : Hunt :=
  {| name := name h; status := status h; lastUpdated := lastUpdated h;
     totalSessions := totalSessions h; searchedSessions := searchedSessions h;
     matchedSessions := matchedSessions h; lastPacketTime := lastPacketTime h;
     failedSessionIds := x; errors := errors h;
     unrunnable := unrunnable h; notifier := notifier h |}.

Definition setErrors (x : option (list Error)) (h : Hunt) : Hunt :=
  {| name := name h; status := status h; lastUpdated := lastUpdated h;
     totalSessions := totalSessions h; searchedSessions := searchedSessions h;
     matchedSessions := matchedSessions h; lastPacketTime := lastPacketTime h;
     failedSessionIds := failedSessionIds h; errors := x;
     unrunnable := unrunnable h; notifier := notifier h |}.

Definition setUnrunnable (x : bool) (h : Hunt) : Hunt :=
  {| name := name h; status := status h; lastUpdated := lastUpdated h;
     totalSessions := totalSessions h; searchedSessions := searchedSessions h;
     matchedSessions := matchedSessions h; lastPacketTime := lastPacketTime h;
     failedSessionIds := failedSessionIds h; errors := errors h;
     unrunnable := x; notifier := notifier h |}.

(** The mutations of [pauseHuntJobWithError (huntId, hunt, error, node)];
    [now] is [Math.floor(Date.now() / 1000)]. *)
Definition pauseHunt (now : Z) (text : string) (fatal : bool) (node : option string)
                     (h : Hunt) : Hunt :=
  let e := {| value := text; e_node := node; time := now |} in
  let h1 := setStatus paused h in
  let h2 := if fatal then setUnrunnable true h1 else h1 in
  setErrors (Some (match errors h2 with
                   | None => [e]
                   | Some es => (es ++ [e])%list
                   end)) h2.

(** [a.indexOf(x)] *)
Fixpoint indexOf (x : string) (a : list string) : option nat :=
  match a with
  | [] => None
  | y :: rest => if String.eqb y x then Some O
                 else match indexOf x rest with
                      | Some i => Some (S i)
                      | None => None
                      end
  end.

(** [a.splice(a.indexOf(x), 1)]: index -1 counts from the end. *)
Definition spliceAt (i : option nat) (a : list string) : list string :=
  match i with
  | Some k => (firstn k a ++ skipn (S k) a)%list
  | None => removelast a
  end.

Definition tooMany : string :=
  "Error hunting: Too many sessions are unreachable. Please contact your administrator.".

(** What [continueHuntSkipSession] does to the hunt object before it goes on:
    [inl h]: the hunt was paused with an error and the function returned;
    [inr h]: the function goes on to [updateHuntStats] with [h]. *)
Definition skipSession (now : Z) (sessionId : string) (h : Hunt) : Hunt + Hunt :=
  match failedSessionIds h with
  | None => inr (setFailedSessionIds (Some [sessionId]) h)
  | Some ids =>
      if 10000 <? Z.of_nat (List.length ids)
      then inl (pauseHunt now tooMany false None h)
      else match indexOf sessionId ids with
           | None => inr (setFailedSessionIds (Some (ids ++ [sessionId])%list) h)
           | Some _ => inr h
           end
  end.

(** A session document ([hit._source]). *)
Record Session := { lastPacket : option Z; node : string; fileId : option (list Z) }.

Record Hit := { sid : string; _source : Session }.

(** What an iteratee of [async.forEachLimit] is waiting for. *)
Inductive Wait :=
| WSessionHunt                      (* sessionHunt on this node *)
| WRequest                          (* makeRequest to the owning node *)
| WGet (searched : option Z) (lastPacketTime : option Z) (now : Z)
                                    (* Db.get of updateHuntStats with its captured variables *)
| WGetSession                       (* failed pass: Db.getSession *)
| WRequestFailed                    (* failed pass: makeRequest *)
| WNever.                           (* the iteratee returned without calling back *)

Record Job := { j_sid : string; j_session : option Session; j_wait : Wait; j_epoch : nat }.

(** The argument an iteratee hands to its callback. *)
Inductive Cb := CbNull | CbPaused | CbUndefined | CbError.

(** Who called [Db.setHunt]. *)
Inductive Origin :=
| Started          (* processHuntJob *)
| Checkpoint       (* updateHuntStats *)
| EndOfScan        (* runHuntJob, after the empty page *)
| ErrorPause       (* pauseHuntJobWithError *)
| FailedPass.      (* huntFailedSessions, when a pass is over *)

Inductive Item := IHit (h : Hit) | IFailed (sessionId : string).

Inductive Mode :=
| Idle                         (* nothing is scheduled by this run any more *)
| AwaitPage                    (* Db.search or Db.scroll is outstanding *)
| InPage (nonEmpty : bool)     (* forEachLimit over the hits of a page *)
| InFailed.                    (* forEachLimit over the failed session ids *)

(** The state of one run of [runHuntJob]: the hunt object that every callback
    of the run shares, the variables of the closures, the state of the current
    [async.forEachLimit] and what has been written. *)
Record World := {
  hunt : Hunt;
  counter : option Z;              (* [let searchedSessions] of runHuntJob *)
  mode : Mode;
  epoch : nat;                     (* which forEachLimit is the current one *)
  todo : list Item;                (* its items not yet started *)
  done : bool;
  called : bool;                   (* its final callback has been called *)
  busy : list Job;                 (* started iteratees that have not called back *)
  changes : bool;                  (* changesSearchingFailedSessions *)
  writes : list (Origin * Hunt);   (* the documents given to Db.setHunt, oldest first *)
  tagged : list string;            (* sessions given to updateSessionWithHunt *)
  uncaught : bool                  (* a TypeError left a callback *)
}.

Definition setHunt (h : Hunt) (w : World) : World :=
  {| hunt := h; counter := counter w; mode := mode w; epoch := epoch w; todo := todo w;
     done := done w; called := called w; busy := busy w; changes := changes w;
     writes := writes w; tagged := tagged w; uncaught := uncaught w |}.

Definition setCounter (c : option Z) (w : World) : World :=
  {| hunt := hunt w; counter := c; mode := mode w; epoch := epoch w; todo := todo w;
     done := done w; called := called w; busy := busy w; changes := changes w;
     writes := writes w; tagged := tagged w; uncaught := uncaught w |}.

Definition setMode (m : Mode) (w : World) : World :=
  {| hunt := hunt w; counter := counter w; mode := m; epoch := epoch w; todo := todo w;
     done := done w; called := called w; busy := busy w; changes := changes w;
     writes := writes w; tagged := tagged w; uncaught := uncaught w |}.

Definition setEach (e : nat) (items : list Item) (d c : bool) (w : World) : World :=
  {| hunt := hunt w; counter := counter w; mode := mode w; epoch := e; todo := items;
     done := d; called := c; busy := busy w; changes := changes w;
     writes := writes w; tagged := tagged w; uncaught := uncaught w |}.

Definition setBusy (b : list Job) (w : World) : World :=
  {| hunt := hunt w; counter := counter w; mode := mode w; epoch := epoch w; todo := todo w;
     done := done w; called := called w; busy := b; changes := changes w;
     writes := writes w; tagged := tagged w; uncaught := uncaught w |}.

Definition setChanges (c : bool) (w : World) : World :=
  {| hunt := hunt w; counter := counter w; mode := mode w; epoch := epoch w; todo := todo w;
     done := done w; called := called w; busy := busy w; changes := c;
     writes := writes w; tagged := tagged w; uncaught := uncaught w |}.

Definition setTagged (t : list string) (w : World) : World :=
  {| hunt := hunt w; counter := counter w; mode := mode w; epoch := epoch w; todo := todo w;
     done := done w; called := called w; busy := busy w; changes := changes w;
     writes := writes w; tagged := t; uncaught := uncaught w |}.

Definition setUncaught (w : World) : World :=
  {| hunt := hunt w; counter := counter w; mode := mode w; epoch := epoch w; todo := todo w;
     done := done w; called := called w; busy := busy w; changes := changes w;
     writes := writes w; tagged := tagged w; uncaught := true |}.

(** [Db.setHunt(huntId, hunt, ...)]: the document is the hunt object as it is
    at the call. *)
Definition dbSetHunt (o : Origin) (w : World) : World :=
  {| hunt := hunt w; counter := counter w; mode := mode w; epoch := epoch w; todo := todo w;
     done := done w; called := called w; busy := busy w; changes := changes w;
     writes := (writes w ++ [(o, hunt w)])%list; tagged := tagged w; uncaught := uncaught w |}.

(** [pauseHuntJobWithError]: the hunt is marked and, once the alert is out,
    written ([continueProcess]); the round trip of the alert is not modelled,
    the write is recorded at once. *)
Definition pauseHuntJobWithError (now : Z) (text : string) (fatal : bool)
                                 (node : option string) (w : World) : World :=
  dbSetHunt ErrorPause (setHunt (pauseHunt now text fatal node (hunt w)) w).

(** What a handler leaves of the iteratee it ran in. *)
Inductive After :=
| Calls (a : Cb)            (* the iteratee's callback is called *)
| Waits (x : Wait)          (* another request is outstanding *)
| Never                     (* the handler returned without calling back *)
| TypeError.                (* a property of undefined was read *)

Record Env := {
  huntId : string;
  isLocalView : string -> bool      (* sessionAPIs.isLocalView(node, yes, no) *)
}.

(** [updateHuntStats (hunt, huntId, session, searchedSessions, cb)], up to the
    request: a checkpoint is due every 2 seconds; [now] is
    [Math.floor(Date.now() / 1000)]. *)
Definition updateHuntStats (now : Z) (session : option Session) (searched : option Z)
                           (w : World) : After :=
  match session with
  | None => TypeError
  | Some s =>
      if 2 <=? now - lastUpdated (hunt w)
      then Waits (WGet searched (lastPacket s) now)
      else Calls CbNull
  end.

(** The answer of [Db.get('hunts', 'hunt', huntId)]. *)
Inductive GetAnswer :=
| Missing                          (* !huntHit || !huntHit.found *)
| GetFailed (err : string)
| Found (st : Status).             (* huntHit._source.status *)

(** The callback of [Db.get] in [updateHuntStats]; [searched],
    [lastPacketTime] and [now0] are the variables the closure captured when
    [updateHuntStats] was called, [now] is the time of the answer. *)
Definition gotHunt (env : Env) (now : Z) (searched lastPacketTime : option Z) (now0 : Z)
                   (a : GetAnswer) (w : World) : World * After :=
  match a with
  | Missing => (w, Calls CbUndefined)
  | GetFailed err =>
      (pauseHuntJobWithError now
         ("Error finding hunt: " ++ name (hunt w) ++ " (" ++ huntId env ++ "): " ++ err)
         false None w,
       Calls CbError)
  | Found st =>
      let h := hunt w in
      let h1 := setStatus st h in
      let h2 := setLastUpdated now0 h1 in
      let h3 := setSearchedSessions (JS.num_or searched (searchedSessions h2)) h2 in
      let h4 := setLastPacketTime lastPacketTime h3 in
      (dbSetHunt Checkpoint (setHunt h4 w),
       Calls (if isPaused st then CbPaused else CbNull))
  end.

(** [continueHuntSkipSession (hunt, huntId, session, sessionId, searchedSessions, cb)] *)
Definition continueHuntSkipSession (now : Z) (session : option Session) (sessionId : string)
                                   (searched : option Z) (w : World) : World * After :=
  match skipSession now sessionId (hunt w) with
  | inl h => (dbSetHunt ErrorPause (setHunt h w), Never)
  | inr h => let w' := setHunt h w in (w', updateHuntStats now session searched w')
  end.

(** [hunt.matchedSessions++] *)
Definition matchedPlus (w : World) : World :=
  setHunt (setMatchedSessions (matchedSessions (hunt w) + 1) (hunt w)) w.

(** The answer to a per-session search. *)
Inductive Answer :=
| LocalError (err : string)                          (* sessionHunt: cb(err) *)
| LocalResult (matched : bool)                       (* sessionHunt: cb(null, matched) *)
| RequestError                                       (* makeRequest: cb(err) *)
| Response (error : option string) (matched : bool). (* JSON.parse(response) *)

Definition nodeOf (j : Job) : option string :=
  match j_session j with
  | Some s => Some (node s)
  | None => None
  end.

(** The callbacks of [sessionHunt] and [makeRequest] in [runHuntJob], and of
    [makeRequest] in [huntFailedSessions]. *)
Definition sessionHunted (now : Z) (j : Job) (a : Answer) (w : World) : option (World * After) :=
  match j_wait j, a with
  | WSessionHunt, LocalError err =>
      Some (pauseHuntJobWithError now
              ("Hunt error searching session (" ++ j_sid j ++ "): " ++ err)
              false (nodeOf j) w,
            Never)
  | WSessionHunt, LocalResult matched =>
      let w1 := if matched then setTagged (tagged w ++ [j_sid j])%list (matchedPlus w) else w in
      Some (w1, updateHuntStats now (j_session j) (counter w1) w1)
  | WRequest, RequestError =>
      Some (continueHuntSkipSession now (j_session j) (j_sid j) (counter w) w)
  | WRequest, Response error matched =>
      if JS.truthy_str error
      then Some (pauseHuntJobWithError now
                   ("Error hunting on remote viewer: "
                    ++ match error with Some e => e | None => "" end)
                   false (nodeOf j) w,
                 Never)
      else
        let w1 := if matched then matchedPlus w else w in
        Some (w1, updateHuntStats now (j_session j) (counter w1) w1)
  | WRequestFailed, RequestError =>
      Some (continueHuntSkipSession now (j_session j) (j_sid j) None w)
  | WRequestFailed, Response error matched =>
      if JS.truthy_str error
      then Some (continueHuntSkipSession now (j_session j) (j_sid j) None w)
      else
        let ids := match failedSessionIds (hunt w) with Some l => l | None => [] end in
        let h1 := setFailedSessionIds (Some (spliceAt (indexOf (j_sid j) ids) ids)) (hunt w) in
        let w1 := setChanges true (setHunt h1 w) in
        let w2 := if matched then matchedPlus w1 else w1 in
        Some (w2, updateHuntStats now (j_session j) None w2)
  | _, _ => None
  end.

(** The callback of [Db.getSession] in [huntFailedSessions]. *)
Definition sessionFetched (now : Z) (j : Job) (err : bool) (session : option Session)
                          (w : World) : option (World * After * option Session) :=
  match j_wait j with
  | WGetSession =>
      if err
      then Some (continueHuntSkipSession now session (j_sid j) None w, session)
      else match session with
           | None => Some (w, TypeError, None)
           | Some s => Some (w, Waits WRequestFailed, Some s)
           end
  | _ => None
  end.

(** *** [async.forEachLimit (items, 3, iteratee, callback)] *)

Definition inFlight (w : World) : nat :=
  List.length (List.filter (fun j => Nat.eqb (j_epoch j) (epoch w)) (busy w)).

Definition addJob (j : Job) (w : World) : World := setBusy (busy w ++ [j])%list w.

Definition noFiles (s : Session) : bool :=
  match fileId s with
  | None => true
  | Some [] => true
  | Some _ => false
  end.

(** The start of an iteratee, up to its first request. *)
Definition launch (env : Env) (now : Z) (it : Item) (w : World) : World :=
  match it with
  | IHit h =>
      (* searchedSessions++ *)
      let w1 := setCounter (match counter w with Some c => Some (c + 1) | None => None end) w in
      let session := _source h in
      if noFiles session then
        match updateHuntStats now (Some session) (counter w1) w1 with
        | Waits x => addJob {| j_sid := sid h; j_session := Some session;
                               j_wait := x; j_epoch := epoch w1 |} w1
        | _ => w1
        end
      else
        addJob {| j_sid := sid h; j_session := Some session;
                  j_wait := if isLocalView env (node session) then WSessionHunt else WRequest;
                  j_epoch := epoch w1 |} w1
  | IFailed s =>
      addJob {| j_sid := s; j_session := None; j_wait := WGetSession; j_epoch := epoch w |} w
  end.

Definition unreachable : string :=
  "Error hunting previously unreachable sessions. There is likely a node down. Please contact your administrator.".

(** The final callback of a page in [runHuntJob]. *)
Definition pageDone (nonEmpty : bool) (err : Cb) (w : World) : World :=
  match err with
  | CbPaused | CbUndefined => setMode Idle w
  | _ =>
      if nonEmpty then setMode AwaitPage w            (* Db.scroll *)
      else
        let w1 := setHunt (setSearchedSessions (totalSessions (hunt w)) (hunt w)) w in
        let w2 := match failedSessionIds (hunt w1) with
                  | Some (_ :: _) => w1
                  | _ => setHunt (setStatus finished (hunt w1)) w1
                  end in
        setMode Idle (dbSetHunt EndOfScan w2)
  end.

(** The final callback of [huntFailedSessions]. *)
Definition failedDone (now : Z) (w : World) : World :=
  setMode Idle
    match failedSessionIds (hunt w) with
    | Some [] => dbSetHunt FailedPass (setHunt (setStatus finished (hunt w)) w)
    | Some (_ :: _) =>
        if changes w then dbSetHunt FailedPass w
        else pauseHuntJobWithError now unreachable false None w
    | None =>
        if changes w then w else pauseHuntJobWithError now unreachable false None w
    end.

Definition finalCallback (now : Z) (err : Cb) (w : World) : World :=
  if called w then w
  else
    let w1 := setEach (epoch w) (todo w) (done w) true w in
    match mode w with
    | InPage nonEmpty => pageDone nonEmpty err w1
    | InFailed => failedDone now w1
    | _ => w1
    end.

Fixpoint replenishFrom (env : Env) (now : Z) (items : list Item) (w : World) : World :=
  if Nat.leb 3 (inFlight w) then setEach (epoch w) items (done w) (called w) w
  else match items with
       | [] =>
           let w1 := setEach (epoch w) [] true (called w) w in
           if Nat.eqb (inFlight w1) 0 then finalCallback now CbNull w1 else w1
       | it :: rest => replenishFrom env now rest (launch env now it w)
       end.

Definition replenish (env : Env) (now : Z) (w : World) : World :=
  if done w then w else replenishFrom env now (todo w) w.

(** The callback of an iteratee started in epoch [ep], once the iteratee is
    off the list of those in flight. *)
Definition iterateeCallback (env : Env) (now : Z) (ep : nat) (err : Cb) (w : World) : World :=
  if negb (Nat.eqb ep (epoch w)) then w
  else match err with
       | CbNull =>
           if done w && Nat.eqb (inFlight w) 0 then finalCallback now CbNull w
           else replenish env now w
       | _ => finalCallback now err (setEach (epoch w) (todo w) true (called w) w)
       end.

(** *** [runHuntJob] *)

(** What [Db.search] or [Db.scroll] hands to [getMoreUntilDone]:
    [result.hits.total] and [result.hits.hits], or, when [err || result.error]
    holds, [err] as a template literal reads it. *)
Inductive SearchAnswer :=
| Hits (total : Z) (hits : list Hit)
| SearchError (err : string).

(** [getMoreUntilDone] *)
Definition getMoreUntilDone (env : Env) (now : Z) (r : SearchAnswer) (w : World)
  : World :=
  match r with
  | SearchError err =>
      setMode Idle (pauseHuntJobWithError now ("Hunt error searching sessions: " ++ err)
                                          false None w)
  | Hits total hits =>
      let w1 :=
        match counter w with
        | Some _ => w
        | None =>
            let s := JS.num_or (Some (searchedSessions (hunt w))) 0 in
            let w0 := setCounter (Some s) w in
            if negb (totalSessions (hunt w0) =? total + s)
            then setHunt (setTotalSessions (total + s) (hunt w0)) w0
            else w0
        end in
      replenish env now
        (setMode (InPage (negb (Nat.eqb (List.length hits) 0)))
                 (setEach (S (epoch w1)) (map IHit hits) false false w1))
  end.

Definition start (h : Hunt) : World :=
  {| hunt := h; counter := None; mode := Idle; epoch := 0; todo := []; done := false;
     called := false; busy := []; changes := false; writes := []; tagged := [];
     uncaught := false |}.

(** [runHuntJob (huntId, hunt, query, user)], entered in the state [w];
    [regexError] is the exception of [new RE2(hunt.search)] in
    [buildHuntOptions], if any. *)
Definition runHuntJobIn (env : Env) (now : Z) (regexError : option string) (w : World)
  : World :=
  let w0 := match regexError with
            | Some e =>
                pauseHuntJobWithError now
                  ("Fatal Error: Regex parse error. Fix this issue with your regex and create a new hunt: " ++ e)
                  true None w
            | None => w
            end in
  match failedSessionIds (hunt w0) with
  | Some (x :: l) =>
      if searchedSessions (hunt w0) =? totalSessions (hunt w0)
      then replenish env now
             (setMode InFailed (setEach 1 (map IFailed (x :: l)) false false w0))
      else setMode AwaitPage w0
  | _ => setMode AwaitPage w0
  end.

Definition runHuntJob (env : Env) (now : Z) (regexError : option string) (h : Hunt) : World :=
  runHuntJobIn env now regexError (start h).

(** [processHuntJob (huntId, hunt)], for a user that exists and a query that
    compiles: the time of the start is noted and written before the run
    begins. *)
Definition processHuntJob (env : Env) (now : Z) (regexError : option string) (h : Hunt) : World :=
  runHuntJobIn env now regexError (dbSetHunt Started (start (setLastUpdated now h))).

(** *** The run as a transition system *)

Inductive Event :=
| Searched (r : SearchAnswer)
| Hunted (sessionId : string) (a : Answer)
| Got (sessionId : string) (a : GetAnswer)
| Fetched (sessionId : string) (err : bool) (session : option Session).

Fixpoint pick (p : Job -> bool) (l : list Job) : option (list Job * Job * list Job) :=
  match l with
  | [] => None
  | j :: rest =>
      if p j then Some ([], j, rest)
      else match pick p rest with
           | Some (b, x, a) => Some (j :: b, x, a)
           | None => None
           end
  end.

Definition withWait (x : Wait) (s : option Session) (j : Job) : Job :=
  {| j_sid := j_sid j; j_session := s; j_wait := x; j_epoch := j_epoch j |}.

Definition settle (env : Env) (now : Z) (b : list Job) (j : Job) (s : option Session)
                  (a : list Job) (r : World * After) : World :=
  let (w, aft) := r in
  match aft with
  | Calls c => iterateeCallback env now (j_epoch j) c (setBusy (b ++ a)%list w)
  | Waits x => setBusy (b ++ withWait x s j :: a)%list w
  | Never => setBusy (b ++ withWait WNever s j :: a)%list w
  | TypeError => setUncaught (setBusy (b ++ a)%list w)
  end.

Definition awaitsAnswer (x : Wait) : bool :=
  match x with
  | WSessionHunt | WRequest | WRequestFailed => true
  | _ => false
  end.

Definition awaitsGet (x : Wait) : bool :=
  match x with WGet _ _ _ => true | _ => false end.

Definition awaitsSession (x : Wait) : bool :=
  match x with WGetSession => true | _ => false end.

(** One callback runs to completion.  [None]: the event cannot happen in this
    state. *)
Definition step (env : Env) (now : Z) (e : Event) (w : World) : option World :=
  if uncaught w then None
  else match e with
  | Searched r =>
      match mode w with
      | AwaitPage => Some (getMoreUntilDone env now r w)
      | _ => None
      end
  | Hunted s a =>
      match pick (fun j => String.eqb (j_sid j) s && awaitsAnswer (j_wait j)) (busy w) with
      | Some (b, j, af) =>
          match sessionHunted now j a w with
          | Some r => Some (settle env now b j (j_session j) af r)
          | None => None
          end
      | None => None
      end
  | Got s a =>
      match pick (fun j => String.eqb (j_sid j) s && awaitsGet (j_wait j)) (busy w) with
      | Some (b, j, af) =>
          match j_wait j with
          | WGet searched lpt now0 =>
              Some (settle env now b j (j_session j) af (gotHunt env now searched lpt now0 a w))
          | _ => None
          end
      | None => None
      end
  | Fetched s err session =>
      match pick (fun j => String.eqb (j_sid j) s && awaitsSession (j_wait j)) (busy w) with
      | Some (b, j, af) =>
          match sessionFetched now j err session w with
          | Some (r, s') => Some (settle env now b j s' af r)
          | None => None
          end
      | None => None
      end
  end.

(** A run: callbacks at non-decreasing times. *)
Fixpoint run (env : Env) (clock : Z) (trace : list (Z * Event)) (w : World) : option World :=
  match trace with
  | [] => Some w
  | (now, e) :: rest =>
      if now <? clock then None
      else match step env now e w with
           | Some w' => run env now rest w'
           | None => None
           end
  end.

(** *** Notions for the statements about [failedSessionIds] *)

(** The list of failed sessions holds no session twice. *)
Definition distinct (h : Hunt) : Prop :=
  match failedSessionIds h with
  | Some ids => NoDup ids
  | None => True
  end.

(** The list of failed sessions holds the session. *)
Definition recorded (sessionId : string) (h : Hunt) : Prop :=
  match failedSessionIds h with
  | Some ids => In sessionId ids
  | None => False
  end.

(** [hunt.failedSessionIds.length > 10000] *)
Definition overCap (h : Hunt) : bool :=
  match failedSessionIds h with
  | Some ids => 10000 <? Z.of_nat (List.length ids)
  | None => false
  end.

(** The last entry of [hunt.errors]. *)
Definition lastError (h : Hunt) : option string :=
  match errors h with
  | Some es => match rev es with e :: _ => Some (value e) | [] => None end
  | None => None
  end.

(** A call [continueHuntSkipSession(hunt, huntId, session, sessionId,
    searchedSessions, cb)] at the time [sk_now]. *)
Record Skip := {
  sk_now : Z;
  sk_session : option Session;
  sk_sessionId : string;
  sk_searched : option Z
}.

(** A sequence of such calls on the hunt object of a run. *)
Definition skips (calls : list Skip) (w : World) : World :=
  fold_left (fun v c => fst (continueHuntSkipSession (sk_now c) (sk_session c)
                                                     (sk_sessionId c) (sk_searched c) v))
            calls w.

(** The documents written by the checkpoints of [updateHuntStats] and by the
    end of the scan, oldest first. *)
Definition progress (w : World) : list Hunt :=
  map snd (List.filter (fun x => match fst x with
                                 | Checkpoint | EndOfScan => true
                                 | _ => false
                                 end) (writes w)).

(** The counters of a hunt document: searched, total, matched. *)
Definition counters (h : Hunt) : Z * Z * Z :=
  (searchedSessions h, totalSessions h, matchedSessions h).

(** The counters that the checkpoints and the end of the scan write during a
    run of [processHuntJob] that begins at [now]; [None] when the trace is not
    a run. *)
Definition written (env : Env) (now : Z) (h : Hunt) (trace : list (Z * Event))
  : option (list (Z * Z * Z)) :=
  match run env now trace (processHuntJob env now None h) with
  | Some w => Some (map counters (progress w))
  | None => None
  end.

(** *** Notions for the statements about the counters *)

(** The document counts no more searched sessions than there are. *)
Definition within (d : Hunt) : Prop := searchedSessions d <= totalSessions d.

(** The number of hits that the pages of a trace deliver. *)
Fixpoint delivered (trace : list (Z * Event)) : Z :=
  match trace with
  | [] => 0
  | (_, Searched (Hits _ hits)) :: rest => Z.of_nat (List.length hits) + delivered rest
  | _ :: rest => delivered rest
  end.

(** The scroll of a trace keeps its word: every page announces a total that
    covers the hits that it and the later pages deliver. *)
Fixpoint faithful (trace : list (Z * Event)) : Prop :=
  match trace with
  | [] => True
  | (_, Searched (Hits total hits)) :: rest =>
      Z.of_nat (List.length hits) + delivered rest <= total /\ faithful rest
  | _ :: rest => faithful rest
  end.

(** The request of a checkpoint that is in flight carries no count, or a
    count within the total, which is known once sessions are counted. *)
Definition fits (w : World) (j : Job) : Prop :=
  match j_wait j with
  | WGet (Some p) _ _ =>
      match counter w with
      | Some _ => p <= totalSessions (hunt w)
      | None => False
      end
  | _ => True
  end.

(** Once sessions are counted: the sessions counted, [n] sessions of the page
    not yet started and [B] sessions still to come fit in the total. *)
Definition room (n : nat) (B : Z) (w : World) : Prop :=
  match counter w with
  | Some c => 0 <= B /\ c + Z.of_nat n + B <= totalSessions (hunt w)
  | None => True
  end.

Definition soundN (n : nat) (B : Z) (w : World) : Prop :=
  Forall within (progress w) /\ within (hunt w) /\ Forall (fits w) (busy w) /\ room n B w.

Definition sound (B : Z) (w : World) : Prop := soundN (List.length (todo w)) B w.

(** What a handler must leave behind for [settle]: the invariant, the list of
    iteratees in flight as it was, and a request that fits if it waits. *)
Definition handled (B : Z) (w : World) (s : option Session) (j : Job) (r : World * After)
  : Prop :=
  sound B (fst r) /\ busy (fst r) = busy w /\
  forall x, snd r = Waits x -> fits (fst r) (withWait x s j).

(** The invariant of a run whose remaining callbacks are [trace]. *)
Definition tracked (trace : list (Z * Event)) (w : World) : Prop :=
  sound (delivered trace) w /\ faithful trace.

End Hunt.

(* ------------------------------------------------------------------------ *)
(** ** Cron queries: what a turn has processed *)

Module CronRun.
Import Cron.

(** The hits that [getMoreUntilDone] of [processCronQuery] takes from the
    answers of Elasticsearch: those of the pages up to the first failure or
    the first empty page. *)
Fixpoint consumed (answers : list Result) : list Hit :=
  match answers with
  | [] => []
  | Failed :: _ => []
  | Page hits :: rest => if len hits =? 0 then [] else (hits ++ consumed rest)%list
  end.

(** The pages that [getMoreUntilDone] handles: those up to the first
    failure, the first empty page included. *)
Fixpoint taken (answers : list Result) : list (list Hit) :=
  match answers with
  | [] => []
  | Failed :: _ => []
  | Page hits :: rest => if len hits =? 0 then [hits] else hits :: taken rest
  end.

(** The ids handed to [sessionsListFromIds], the lists handed to
    [addTagsList] and the sessions handed to [sendSessionsListQL], in the
    order of the calls. *)
Fixpoint listedIds (effs : list Effect) : list string :=
  match effs with
  | [] => []
  | ListFromIds ids :: rest => (ids ++ listedIds rest)%list
  | _ :: rest => listedIds rest
  end.

Fixpoint taggedLists (effs : list Effect) : list (list Hit) :=
  match effs with
  | [] => []
  | AddTags _ l :: rest => l :: taggedLists rest
  | _ :: rest => taggedLists rest
  end.

Fixpoint forwarded (effs : list Effect) : list Hit :=
  match effs with
  | [] => []
  | Forward _ ids :: rest => (ids ++ forwarded rest)%list
  | _ :: rest => forwarded rest
  end.

(** What the hits hand to [sessionsListFromIds] and to
    [sendSessionsListQL]. *)
Definition tagsOf (cq : CronQuery) (hits : list Hit) : list string :=
  if prefix "forward:" (action cq) then []
  else if prefix "tag" (action cq) then map _id hits else [].

(** The lists that [addTagsList] gets for the pages. *)
Definition listsOf (env : Env) (cq : CronQuery) (pages : list (list Hit)) : list (list Hit) :=
  if prefix "forward:" (action cq) then []
  else if prefix "tag" (action cq)
       then map (fun hits => sessionsListFromIds env (map _id hits)) pages
  else [].

Definition forwardsOf (cq : CronQuery) (hits : list Hit) : list Hit :=
  if prefix "forward:" (action cq) then hits else [].

(** A tag made of the characters [-a-zA-Z0-9_:] only. *)
Definition safeTag (t : string) : Prop :=
  Forall (fun c => tagChar c = true /\ c <> ","%char) (list_ascii_of_string t).

(** The searches that a turn sends. *)
Fixpoint searches (effs : list Effect) : list Query :=
  match effs with
  | [] => []
  | Search q :: rest => q :: searches rest
  | _ :: rest => searches rest
  end.

(** A query that is more than 24 hours behind the end of the pass. *)
Definition behind (endTime : Z) (cq : CronQuery) : Prop :=
  lpValue cq + 24 * 60 * 60 < endTime.

End CronRun.

(* ------------------------------------------------------------------------ *)
(** ** Packet hunts: what a run writes *)

Module HuntRun.
Import Hunt.

(** No session is waiting to be searched again. *)
Definition noneFailed (h : Hunt) : Prop :=
  match failedSessionIds h with
  | Some (_ :: _) => False
  | _ => True
  end.

(** The matched sessions of the documents given to [Db.setHunt], oldest
    first. *)
Definition matchedWritten (w : World) : list Z :=
  map (fun x => matchedSessions (snd x)) (writes w).

Fixpoint nondecreasing (l : list Z) : Prop :=
  match l with
  | a :: (b :: _) as rest => a <= b /\ nondecreasing rest
  | _ => True
  end.

(** The matched sessions written so far, followed by those of the hunt object
    of the run. *)
Definition matchedSoFar (w : World) : list Z :=
  (matchedWritten w ++ [matchedSessions (hunt w)])%list.

(** A callback after which the hunt is finished only if it was finished
    before or no failed session is left: the final callbacks are where a hunt
    gets finished. *)
Definition finishes (w w' : World) : Prop :=
  status (hunt w') = finished -> status (hunt w) = finished \/ noneFailed (hunt w').

(** A callback that does not finish a hunt: the handlers of the answers. *)
Definition keeps (w w' : World) : Prop :=
  status (hunt w') = finished -> status (hunt w) = finished.

(** The written matches and the matches of the hunt object do not go down
    from [w] to [w']. *)
Definition rising (w w' : World) : Prop :=
  nondecreasing (matchedSoFar w) -> nondecreasing (matchedSoFar w').

End HuntRun.

(* ------------------------------------------------------------------------ *)
(** ** Numbers in messages *)

Module Text.

(** The decimal digits of a number that is not negative, lowest first into
    [acc]; [fuel] bounds their number. *)
Fixpoint digits (fuel : nat) (n : Z) (acc : string) : string :=
  match fuel with
  | O => acc
  | S fuel' =>
      let acc' := String (ascii_of_nat (48 + Z.to_nat (n mod 10))) acc in
      if n / 10 =? 0 then acc' else digits fuel' (n / 10) acc'
  end.

(** [String(n)], as a template literal prints an integer below 10^21. *)
Definition decimal (n : Z) : string :=
  if n <? 0 then "-" ++ digits (S (Z.to_nat (Z.log2 (- n)))) (- n) ""
  else digits (S (Z.to_nat (Z.log2 n))) n "".

End Text.

(* ------------------------------------------------------------------------ *)
(** ** Access middleware: [setCookie], [checkCookieToken], [checkHuntAccess],
       [checkCronAccess], [getSettingUserDb], [sanitizeViewName], and routes
       behind them *)

Module Access.
Import Http.

(** The cookie token, [{date, pid, userId}]; a property that the decoded
    object does not have is [None]. *)
Record CookieToken := { ck_date : option Z; ck_pid : option Z; ck_userId : option string }.

(** [function setCookie (req, res, next)]: the value of [MOLOCH-COOKIE];
    [obj2auth] is [Config.obj2auth(obj, true)], [now] is [Date.now()]. *)
Definition setCookie (obj2auth : CookieToken -> string) (now pid : Z) (user : User) : string :=
  obj2auth {| ck_date := Some now; ck_pid := Some pid; ck_userId := Some (userId user) |}.

Definition missingText : string := "Missing token".

Definition timeoutText : string :=
  "Timeout - Please try reloading page and repeating the action".

(** [Math.abs(Date.now() - req.token.date) > 2400000]: without a date the
    difference is [NaN] and the comparison is false. *)
Definition expired (now : Z) (token : CookieToken) : bool :=
  match ck_date token with
  | Some d => 2400000 <? Z.abs (now - d)
  | None => false
  end.

(** [req.token.userId !== req.user.userId] *)
Definition foreign (token : CookieToken) (user : User) : bool :=
  match ck_userId token with
  | Some u => negb (String.eqb u (userId user))
  | None => true
  end.

(** [function checkCookieToken (req, res, next)]; [auth2obj] is
    [Config.auth2obj(h, true)], [None] when it throws. *)
Definition checkCookieToken (auth2obj : string -> option CookieToken) (now : Z)
                            (headers : string -> option string) (user : User) : Outcome :=
  if negb (JS.truthy_str (headers "x-moloch-cookie"))
  then Sent (molochError (Some 500) missingText fresh)
  else match headers "x-moloch-cookie" with
       | None => Throw
       | Some h =>
           match auth2obj h with
           | None => Throw
           | Some token =>
               if expired now token || foreign token user
               then Sent (molochError (Some 500) timeoutText fresh)
               else Next None
           end
       end.

(** Express runs the middleware of a route in order; the next one runs when
    the one before called [next()]. *)
Definition andThen (o : Outcome) (k : Outcome) : Outcome :=
  match o with
  | Next _ => k
  | _ => o
  end.

(** What [Db.getHunt] and [Db.get('queries', 'query', key)] hand to their
    callbacks: [(err, hit)], where a defined [hit] carries [found] and, in
    [_source], the id of the user the document belongs to ([userId] of a hunt,
    [creator] of a cron query). *)
Record Fetch := { f_err : option string; f_hit : option (bool * option string) }.

Definition othersHunt : string :=
  "You cannot change another user's hunt unless you have admin privileges".

(** [function checkHuntAccess (req, res, next)]; [Thrown]: [new Error('Hunt
    not found')] leaves the callback. *)
Definition checkHuntAccess (getHunt : string -> Fetch) (id : string) (user : User) : Outcome :=
  if flag user "createEnabled" then Next None
  else
    match f_err (getHunt id) with
    | Some err => Sent (molochError (Some 500) err fresh)
    | None =>
        match f_hit (getHunt id) with
        | Some (true, owner) =>
            match owner with
            | Some o =>
                if String.eqb o (userId user) then Next None
                else Sent (molochError (Some 403) othersHunt fresh)
            | None => Sent (molochError (Some 403) othersHunt fresh)
            end
        | _ => Throw
        end
    end.

Definition othersCron : string :=
  "You cannot change another user's cron query unless you have admin privileges".

(** [function checkCronAccess (req, res, next)]; [key] is [req.body.key]. *)
Definition checkCronAccess (get : option string -> Fetch) (key : option string) (user : User)
  : Outcome :=
  if flag user "createEnabled" then Next None
  else
    match f_err (get key) with
    | Some _ => Sent (molochError (Some 403) "Unknown cron query" fresh)
    | None =>
        match f_hit (get key) with
        | None => Throw
        | Some (false, _) => Sent (molochError (Some 403) "Unknown cron query" fresh)
        | Some (true, owner) =>
            match owner with
            | Some o =>
                if String.eqb o (userId user) then Next None
                else Sent (molochError (Some 403) othersCron fresh)
            | None => Sent (molochError (Some 403) othersCron fresh)
            end
        end
    end.

(** *** The hunt routes

    [DELETE /hunt/:id], [PUT /hunt/:id/pause], [PUT /hunt/:id/play],
    [DELETE /hunt/:id/users/:user] and [POST /hunt/:id/users] are behind
    [checkCookieToken, checkPermissions(['packetSearch']), checkHuntAccess]
    ([noCacheJson] and [logAction] always call [next()]). *)

Record Viewer := {
  auth2obj : string -> option CookieToken;      (* Config.auth2obj(h, true) *)
  getHunt : string -> Fetch;                    (* Db.getHunt *)
  multiES : bool;                               (* Config.get('multiES', false), as a condition *)
  deleteHuntItem : string -> bool               (* Db.deleteHuntItem: err || result.error *)
}.

Record Call := { headers : string -> option string; user : User; id : string }.

Definition huntGate (v : Viewer) (now : Z) (c : Call) : Outcome :=
  andThen (checkCookieToken (auth2obj v) now (headers c) (user c))
          (andThen (checkPermissions ["packetSearch"] (user c))
                   (checkHuntAccess (getHunt v) (id c) (user c))).

(** The answer of a route and the ids it handed to [Db.deleteHuntItem]. *)
Record Reply := { out : Outcome; removed : list string }.

(** [app.delete('/hunt/:id', ...)] *)
Definition deleteHunt (v : Viewer) (now : Z) (c : Call) : Reply :=
  match huntGate v now c with
  | Next _ =>
      if multiES v
      then {| out := Sent (molochError (Some 401) "Not supported in multies" fresh);
              removed := [] |}
      else
        {| out := if deleteHuntItem v (id c)
                  then Sent (molochError (Some 500) "Error deleting hunt item" fresh)
                  else Sent (res_send (JS.stringify
                                         [("success", JS.ABool true);
                                          ("text", JS.AStr "Deleted hunt item successfully")])
                                      fresh);
           removed := [id c] |}
  | o => {| out := o; removed := [] |}
  end.

(** *** Whose settings a request works on *)

(** A user document with its stored password. *)
Record Account := { account : User; passStore : option string }.

(** What [Db.getUser] hands to its callback: [(err, user)], where a defined
    [user] carries [found] and [_source]. *)
Record Got := { g_err : option string; g_user : option (bool * Account) }.

Record Settings := {
  regressionTests : bool;            (* Config.get('regressionTests', false), as a condition *)
  noPasswordSecret : bool;           (* app.locals.noPasswordSecret, as a condition *)
  getUser : string -> Got            (* Db.getUser *)
}.

(** How [getSettingUserDb] leaves a request: [next()] with
    [req.settingUser] set, or an answer. *)
Inductive Setting :=
| SettingUser (u : option Account)
| Refused (res : Res).

Definition known (g : Got) : option Account :=
  match g_err g, g_user g with
  | None, Some (true, doc) => Some doc
  | _, _ => None
  end.

(** [req.query.userId === undefined || req.query.userId === req.user.userId] *)
Definition self (queryUserId : option string) (u : Account) : bool :=
  match queryUserId with
  | None => true
  | Some q => String.eqb q (userId (account u))
  end.

(** The callback of [Db.getUser] in [getSettingUserDb]; the copy
    [JSON.parse(JSON.stringify(req.user))] holds what [req.user] holds. *)
Definition fetched (s : Settings) (userId : string) (u : Account) : Setting :=
  match known (getUser s userId) with
  | Some doc => SettingUser (Some doc)
  | None =>
      if noPasswordSecret s then SettingUser (Some u)
      else Refused (molochError (Some 403) "Unknown user" fresh)
  end.

(** [function getSettingUserDb (req, res, next)] *)
Definition getSettingUserDb (s : Settings) (queryUserId : option string) (u : Account)
  : Setting :=
  if self queryUserId u then
    if regressionTests s then SettingUser (Some u)
    else fetched s (userId (account u)) u
  else if negb (flag (account u) "createEnabled")
  then Refused (molochError (Some 403) "Need admin privileges" fresh)
  else match queryUserId with
       | None => SettingUser (Some u)
       | Some q => fetched s q u
       end.

(** *** [POST /user/password/change]

    The route is behind [checkCookieToken] and [getSettingUserDb]. *)








(** *** [POST /user/cron/delete]

    The route is behind [checkCookieToken], [getSettingUserDb] and
    [checkCronAccess]. *)

Record CronCall := {
  c_headers : string -> option string;
  c_user : Account;                   (* req.user *)
  c_queryUserId : option string;      (* req.query.userId *)
  c_key : option string               (* req.body.key *)
}.

(** The answer and the keys handed to [Db.deleteDocument('queries', 'query',
    key)]. *)
Record CronReply := { c_out : Outcome; dropped : list string }.

Definition deleteCron (decode : string -> option CookieToken) (s : Settings)
                      (get : option string -> Fetch) (deleteFails : string -> bool)
                      (now : Z) (c : CronCall) : CronReply :=
  match checkCookieToken decode now (c_headers c) (account (c_user c)) with
  | Next _ =>
      match getSettingUserDb s (c_queryUserId c) (c_user c) with
      | Refused res => {| c_out := Sent res; dropped := [] |}
      | SettingUser _ =>
          match checkCronAccess get (c_key c) (account (c_user c)) with
          | Next _ =>
              match c_key c with
              | Some key =>
                  if String.eqb key ""
                  then {| c_out := Sent (molochError (Some 403) "Missing cron query key" fresh);
                          dropped := [] |}
                  else
                    {| c_out := if deleteFails key
                                then Sent (molochError (Some 500) "Delete cron query failed"
                                                       fresh)
                                else Sent (res_send
                                             (JS.stringify
                                                [("success", JS.ABool true);
                                                 ("text",
                                                  JS.AStr "Deleted cron query successfully")])
                                             fresh);
                       dropped := [key] |}
              | None => {| c_out := Sent (molochError (Some 403) "Missing cron query key" fresh);
                           dropped := [] |}
              end
          | o => {| c_out := o; dropped := [] |}
          end
      end
  | o => {| c_out := o; dropped := [] |}
  end.

(** *** [sanitizeViewName] *)

(** [[-a-zA-Z0-9_: ]] *)
Definition viewChar (c : ascii) : bool :=
  let n := nat_of_ascii c in
  Nat.eqb n 45 || (Nat.leb 97 n && Nat.leb n 122) || (Nat.leb 65 n && Nat.leb n 90)
  || (Nat.leb 48 n && Nat.leb n 57) || Nat.eqb n 95 || Nat.eqb n 58 || Nat.eqb n 32.

(** [^(shared:)+]: the repetitions of [shared:] that open the string; [n]
    bounds their number. *)
Fixpoint dropShared (n : nat) (s : string) : string :=
  match n with
  | O => s
  | S n' => if prefix "shared:" s then dropShared n' (JS.drop 7 s) else s
  end.

Fixpoint keep (p : ascii -> bool) (s : string) : string :=
  match s with
  | EmptyString => EmptyString
  | String c s' => if p c then String c (keep p s') else keep p s'
  end.

(** [name.replace(/(^(shared:)+)|[^-a-zA-Z0-9_: ]/g, '')] *)
Definition cleanName (name : string) : string :=
  keep viewChar (dropShared (String.length name) name).

(** [function sanitizeViewName (req, res, next)]: what it leaves in
    [req.body.name]. *)
Definition sanitizeViewName (name : option string) : option string :=
  if JS.truthy_str name
  then match name with
       | Some n => Some (cleanName n)
       | None => None
       end
  else name.

(** A name made of the characters [-a-zA-Z0-9_: ] only. *)
Definition plain (s : string) : Prop :=
  Forall (fun c => viewChar c = true) (list_ascii_of_string s).

End Access.

(* ------------------------------------------------------------------------ *)
(** ** Searching packets: [packetSearch] and [sessionHunt] *)

Module Search.

(** [buf.toString('hex')]: two lower-case digits for each byte. *)
Definition hexByte (b : Z) : string :=
  JS.hex_digit (Z.to_nat (b / 16)) ++ JS.hex_digit (Z.to_nat (b mod 16)).

Fixpoint hex (packet : list Z) : string :=
  match packet with
  | [] => ""
  | b :: rest => hexByte b ++ hex rest
  end.

(** A digit of [buf.toString('hex')]. *)
Definition hexDigit (c : ascii) : bool :=
  let n := nat_of_ascii c in
  (Nat.leb 48 n && Nat.leb n 57) || (Nat.leb 97 n && Nat.leb n 102).

(** Truthiness of [options.src] and [options.dst], which are booleans when
    they are defined. *)
Definition truthy (b : option bool) : bool :=
  match b with
  | Some true => true
  | _ => false
  end.

(** [options.src === options.dst] *)
Definition same (a b : option bool) : bool :=
  match a, b with
  | Some x, Some y => Bool.eqb x y
  | None, None => true
  | _, _ => false
  end.

Section PacketSearch.

(** A compiled [RE2] expression, and the library functions that
    [packetSearch] applies to the packet and to the search text. *)
Variable Regex : Type.
Variable utf8 : list Z -> string.              (* buf.toString() *)
Variable toLowerCase : string -> string.       (* str.toLowerCase() *)
Variable found : Regex -> string -> bool.      (* str.match(regex) is not null *)

(** The options that [buildHuntOptions] makes of a hunt. *)
Record Options := {
  src : option bool;
  dst : option bool;
  size : option Z;
  type : string;
  search : string;
  searchType : string;
  regex : option Regex
}.

(** [function packetSearch (packet, options)] *)
Definition packetSearch (packet : list Z) (o : Options) : bool :=
  if String.eqb (searchType o) "asciicase" then Http.includes (search o) (utf8 packet)
  else if String.eqb (searchType o) "ascii"
  then Http.includes (toLowerCase (search o)) (toLowerCase (utf8 packet))
  else if String.eqb (searchType o) "regex"
  then match regex o with
       | Some r => found r (utf8 packet)
       | None => false
       end
  else if String.eqb (searchType o) "hex" then Http.includes (search o) (hex packet)
  else if String.eqb (searchType o) "hexregex"
  then match regex o with
       | Some r => found r (hex packet)
       | None => false
       end
  else false.

(** [for (i; i < len; i += increment) { if (packetSearch(packets[i].data,
    options)) { return cb(null, true); } }] and the [cb(null, false)] that
    follows; [fuel] bounds the number of rounds. *)
Fixpoint scan (fuel i increment : nat) (packets : list (list Z)) (o : Options) : bool :=
  match fuel with
  | O => false
  | S fuel' =>
      match nth_error packets i with
      | None => false
      | Some data =>
          if packetSearch data o then true
          else scan fuel' (i + increment) increment packets o
      end
  end.

(** Where the loop over reassembled packets starts, and its step. *)
Definition stride (o : Options) : nat * nat :=
  if truthy (src o) && negb (truthy (dst o)) then (0, 2)%nat
  else if truthy (dst o) && negb (truthy (src o)) then (1, 2)%nat
  else (0, 1)%nat.

(** [function sessionHunt (sessionId, options, cb)]: the second argument of
    [cb(null, matched)], [None] when [cb] is not called.  [packets] is what
    the session's packets are read as: for ['reassembled'] the [data] of the
    reassembled packets, for ['raw'] the packet records with their 16-byte
    header; [None] when reading them fails.  [fromSource] tells whether the
    key of a decoded record is the key of the session. *)
Definition sessionHunt (fromSource : list Z -> bool) (o : Options)
                       (packets : option (list (list Z))) : option bool :=
  if String.eqb (type o) "reassembled" then
    match packets with
    | None => Some false
    | Some ps => Some (scan (S (List.length ps)) (fst (stride o)) (snd (stride o)) ps o)
    end
  else if String.eqb (type o) "raw" then
    match packets with
    | None => Some false
    | Some buffers =>
        if same (src o) (dst o)
        then Some (existsb (fun buffer => packetSearch buffer o) buffers)
        else Some (existsb (fun buffer =>
                              (if fromSource buffer then truthy (src o) else truthy (dst o))
                              && packetSearch (skipn 16 buffer) o)
                           buffers)
    end
  else None.

End PacketSearch.

Arguments src {Regex}.
Arguments dst {Regex}.
Arguments size {Regex}.
Arguments type {Regex}.
Arguments search {Regex}.
Arguments searchType {Regex}.
Arguments regex {Regex}.

End Search.

(* ------------------------------------------------------------------------ *)
(** ** [sessionHunt] as [runHuntJob] calls it *)

Module LocalHunt.

(** What [sessionHunt] hands to the callback that [runHuntJob] gives it:
    always [cb(null, matched)], with [matched] false also when the packets of
    the session cannot be read; [None] when the callback is not called. *)
Definition answer {Regex : Type} (utf8 : list Z -> string) (toLowerCase : string -> string)
                  (found : Regex -> string -> bool) (fromSource : list Z -> bool)
                  (o : Search.Options Regex) (packets : option (list (list Z)))
  : option Hunt.Answer :=
  match Search.sessionHunt Regex utf8 toLowerCase found fromSource o packets with
  | Some matched => Some (Hunt.LocalResult matched)
  | None => None
  end.

End LocalHunt.

(* ------------------------------------------------------------------------ *)
(** ** Hunt jobs: [processHuntJobs], [updateHuntStatus], [validateUserIds],
       and the routes that create, list and share hunts *)

Module Jobs.
Import Http.

(** [internals.runningHuntJob], as a condition, and
    [internals.proccessHuntJobsInitialized]. *)
Record Internals := { runningHuntJob : bool; proccessHuntJobsInitialized : bool }.

(** A call [processHuntJob(id, hunt)]: for a hunt found running (the job is
    taken up again), or for a queued hunt, whose status becomes running. *)
Inductive Launch :=
| Resume (id : string)
| Begin (id : string).

(** The loop over [hunts.hits.hits]: the first hunt that is running or
    queued. *)
Fixpoint firstJob (hits : list (string * Hunt.Status)) : option (string * Hunt.Status) :=
  match hits with
  | [] => None
  | (id, Hunt.running) :: _ => Some (id, Hunt.running)
  | (id, Hunt.queued) :: _ => Some (id, Hunt.queued)
  | _ :: rest => firstJob rest
  end.

(** [function processHuntJobs (cb)]; [answer] is what [Db.searchHunt] finds,
    oldest first, [None] when the search fails or reports an error. *)
Definition processHuntJobs (i : Internals) (answer : option (list (string * Hunt.Status)))
  : Internals * option Launch :=
  if runningHuntJob i then (i, None)
  else
    match answer with
    | None =>
        ({| runningHuntJob := true;
            proccessHuntJobsInitialized := proccessHuntJobsInitialized i |}, None)
    | Some hits =>
        match firstJob hits with
        | Some (id, Hunt.queued) =>
            ({| runningHuntJob := true;
                proccessHuntJobsInitialized := proccessHuntJobsInitialized i |},
             Some (Begin id))
        | Some (id, _) =>
            ({| runningHuntJob := true; proccessHuntJobsInitialized := true |},
             if proccessHuntJobsInitialized i then None else Some (Resume id))
        | None =>
            ({| runningHuntJob := false; proccessHuntJobsInitialized := true |}, None)
        end
    end.

(** A hunt that [processHuntJobs] passes over: it is neither running nor
    queued. *)
Definition passedOver (h : string * Hunt.Status) : Prop :=
  snd h <> Hunt.running /\ snd h <> Hunt.queued.

(** *** [updateHuntStatus] *)

(** What [Db.getHunt] hands to the callback: an error, or the status of the
    hunt document. *)
Inductive GotHunt :=
| GetFailed
| Stored (status : Hunt.Status).

(** How the update ends: an answer, the status given to [Db.setHunt] if it
    was called, and whether [processHuntJobs()] follows. *)
Record Update := {
  answer : Res;
  written : option Hunt.Status;
  next : bool
}.

Definition cannotStart : string :=
  "You cannot start a new hunt until the running job completes or is paused.".

Definition cannotPause : string := "You cannot pause a completed hunt.".

Definition isStatus (a b : Hunt.Status) : bool :=
  match a, b with
  | Hunt.queued, Hunt.queued | Hunt.running, Hunt.running
  | Hunt.paused, Hunt.paused | Hunt.finished, Hunt.finished => true
  | _, _ => false
  end.

(** [function updateHuntStatus (req, res, status, successText, errorText)];
    [setFails] tells whether [Db.setHunt] reports an error. *)
Definition updateHuntStatus (i : Internals) (got : GotHunt) (status : Hunt.Status)
                            (successText errorText : string) (setFails : bool)
  : Internals * Update :=
  match got with
  | GetFailed =>
      (i, {| answer := molochError (Some 500) errorText fresh; written := None;
             next := false |})
  | Stored current =>
      if isStatus status Hunt.running && runningHuntJob i
      then (i, {| answer := molochError (Some 403) cannotStart fresh; written := None;
                  next := false |})
      else if isStatus current Hunt.finished && isStatus status Hunt.paused
      then (i, {| answer := molochError (Some 403) cannotPause fresh; written := None;
                  next := false |})
      else
        let i' := if isStatus current Hunt.running
                  then {| runningHuntJob := false;
                          proccessHuntJobsInitialized := proccessHuntJobsInitialized i |}
                  else i in
        (i', if setFails
             then {| answer := molochError (Some 500) errorText fresh;
                     written := Some status; next := false |}
             else {| answer := res_send (JS.stringify [("success", JS.ABool true);
                                                        ("text", JS.AStr successText)])
                                        fresh;
                     written := Some status; next := true |})
  end.

(** [PUT /hunt/:id/pause], after its middleware, followed by the
    [processHuntJobs()] of its callback; [hunts] is what [Db.searchHunt] finds
    then. *)
Definition pause (multiES : bool) (i : Internals) (got : GotHunt) (setFails : bool)
                 (hunts : option (list (string * Hunt.Status)))
  : Internals * Res * option Hunt.Status * option Launch :=
  if multiES then (i, molochError (Some 401) "Not supported in multies" fresh, None, None)
  else
    let (i1, u) := updateHuntStatus i got Hunt.paused "Paused hunt item successfully"
                                    "Error pausing hunt job" setFails in
    if next u
    then let (i2, l) := processHuntJobs i1 hunts in (i2, answer u, written u, l)
    else (i1, answer u, written u, None).

(** *** [validateUserIds] and the users of a hunt *)

(** [usersList.indexOf(user) > -1 ? validUsers.push(user) :
    invalidUsers.push(user)] *)
Definition sortUser (usersList : list string) (acc : list string * list string)
                    (user : string) : list string * list string :=
  if existsb (String.eqb user) usersList
  then ((fst acc ++ [user])%list, snd acc)
  else (fst acc, (snd acc ++ [user])%list).

(** [function validateUserIds (userIdList)]: what the promise resolves to,
    [(validUsers, invalidUsers)], or [None] when it is rejected.  [anonymous]
    is [!!app.locals.noPasswordSecret && !Config.get('regressionTests',
    false)]; [users] is the ids that [Db.searchUsers] finds, [None] when it
    fails. *)
Definition validateUserIds (anonymous : bool) (users : option (list string))
                           (userIdList : list string) : option (list string * list string) :=
  if anonymous then Some ([], [])
  else match users with
       | None => None
       | Some usersList => Some (fold_left (sortUser usersList) userIdList ([], []))
       end.

(** [[...new Set(a)]]: the first occurrence of each element, in order. *)
Fixpoint dedupe (seen a : list string) : list string :=
  match a with
  | [] => []
  | x :: rest =>
      if existsb (String.eqb x) seen then dedupe seen rest
      else x :: dedupe (x :: seen) rest
  end.

(** How [POST /hunt/:id/users] ends: an answer, or the users given to
    [Db.setHunt] with the hunt and the ids that are not users. *)
Inductive Shared :=
| Answered (res : Res)
| Written (users : list string) (invalidUsers : list string).

(** [POST /hunt/:id/users], after its middleware, for a hunt document that
    was found; [users] is [hunt.users], [reqUsers] is what
    [ViewerUtils.commaStringToArray] makes of [req.body.users]. *)
Definition addUsers (anonymous : bool) (known : option (list string))
                    (users : option (list string)) (reqUsers : list string) : Shared :=
  match validateUserIds anonymous known reqUsers with
  | None => Answered (molochError (Some 500) "Unable to validate userIds" fresh)
  | Some (validUsers, invalidUsers) =>
      match validUsers with
      | [] => Answered (molochError (Some 404) "Unable to validate user IDs provided" fresh)
      | _ =>
          Written (dedupe [] (match users with
                              | Some us => (us ++ validUsers)%list
                              | None => validUsers
                              end))
                  invalidUsers
      end
  end.

(** [DELETE /hunt/:id/users/:user], after its middleware, for a hunt
    document that was found: an answer, or the users given to [Db.setHunt]
    with the hunt. *)
Definition removeUser (users : option (list string)) (user : string) : Res + list string :=
  match users with
  | None | Some [] =>
      inl (molochError (Some 404) "There are no users that have access to view this hunt"
                       fresh)
  | Some us =>
      match Hunt.indexOf user us with
      | None => inl (molochError (Some 404) "That user does not have access to this hunt"
                                 fresh)
      | Some userIdx => inr (firstn userIdx us ++ skipn (S userIdx) us)%list
      end
  end.

(** *** [GET /hunt/list] *)

(** A hunt as the list shows it. *)
Record Listed := {
  l_id : string;
  l_status : Hunt.Status;
  l_userId : option string;
  l_users : option (list string);
  l_search : string;
  l_searchType : string;
  l_query : option string
}.

(** A hit of the search: [hit._id] and [hit._source]. *)
Record HuntHit := {
  h_id : string;
  h_status : Hunt.Status;
  h_userId : option string;
  h_users : option (list string);
  h_search : string;
  h_searchType : string;
  h_query : option string
}.

(** The hit as it is when it becomes [runningJob]: [hunt.users] has not been
    touched. *)
Definition asFound (h : HuntHit) : Listed :=
  {| l_id := h_id h; l_status := h_status h; l_userId := h_userId h;
     l_users := h_users h;
     l_search := h_search h; l_searchType := h_searchType h; l_query := h_query h |}.

(** [hunt.users = hunt.users || []] *)
Definition usersOf (h : HuntHit) : list string :=
  match h_users h with
  | Some us => us
  | None => []
  end.

Definition shown (h : HuntHit) : Listed :=
  {| l_id := h_id h; l_status := h_status h; l_userId := h_userId h;
     l_users := Some (usersOf h);
     l_search := h_search h; l_searchType := h_searchType h; l_query := h_query h |}.

(** [!req.user.createEnabled && req.user.userId !== hunt.userId &&
    hunt.users.indexOf(req.user.userId) < 0] *)
Definition stranger (user : User) (h : HuntHit) : bool :=
  negb (flag user "createEnabled")
  && negb (match h_userId h with
           | Some o => String.eqb (userId user) o
           | None => false
           end)
  && negb (existsb (String.eqb (userId user)) (usersOf h)).

Definition cleared (h : HuntHit) : Listed :=
  {| l_id := ""; l_status := h_status h; l_userId := Some "";
     l_users := Some (usersOf h);
     l_search := ""; l_searchType := ""; l_query := None |}.

(** The loop of [GET /hunt/list] over the hits: [data] and [runningJob]. *)
Fixpoint listHunts (runningHuntJob : bool) (user : User) (hits : list HuntHit)
                   (runningJob : option Listed) : list Listed * option Listed :=
  match hits with
  | [] => ([], runningJob)
  | h :: rest =>
      if runningHuntJob && isStatus (h_status h) Hunt.running
      then listHunts runningHuntJob user rest (Some (asFound h))
      else
        let (data, r) := listHunts runningHuntJob user rest runningJob in
        ((if stranger user h then cleared h else shown h) :: data, r)
  end.

(** *** [POST /hunt] *)

(** [req.body.hunt], as far as the route reads it, and the list of failed
    sessions if the body holds one: the route goes on with the object of the
    body, so that properties it does not set reach [Db.createHunt] as they
    came. *)
Record NewHunt := {
  n_failedSessionIds : option (list string);
  n_totalSessions : option Z;
  n_name : option string;
  n_size : option Z;
  n_search : option string;
  n_src : option bool;
  n_dst : option bool;
  n_query : option (option Z * option Z);     (* startTime and stopTime of the query *)
  n_searchType : option string;
  n_type : option string
}.

Definition searchTypes : list string :=
  ["ascii"; "asciicase"; "hex"; "wildcard"; "regex"; "hexregex"].

(** [name.replace(/[^-a-zA-Z0-9_: ]/g, '')] *)
Definition huntName (name : string) : string := Access.keep Access.viewChar name.

(** The hunt that the route goes on with, to [Db.createHunt], as far as the
    route checks or sets its properties. *)
Record Created := {
  c_name : string;
  c_status : Hunt.Status;
  c_userId : string;
  c_created : Z;
  c_matchedSessions : Z;
  c_searchedSessions : Z;
  c_totalSessions : Z;
  c_search : string;
  c_searchType : string;
  c_type : string;
  c_src : option bool;
  c_dst : option bool;
  c_failedSessionIds : option (list string)
}.

Definition refuse (status : Z) (text : string) : Res + Created :=
  inl (molochError (Some status) text fresh).

Definition quoted (s : string) : string := JS.dquote ++ s ++ JS.dquote.

Definition improperSearchType : string :=
  "Improper packet search text type. Must be " ++ quoted "ascii" ++ ", "
  ++ quoted "asciicase" ++ ", " ++ quoted "hex" ++ ", " ++ quoted "wildcard" ++ ", "
  ++ quoted "hexregex" ++ ", or " ++ quoted "regex".

Definition improperType : string :=
  "Improper packet search type. Must be " ++ quoted "raw" ++ " or " ++ quoted "reassembled".

Definition tooManySessions (limit : Z) : string :=
  "This hunt applies to too many sessions. Narrow down your session search to less than "
  ++ Text.decimal limit ++ " first.".

(** The checks of [app.post('/hunt', ...)] and the hunt it makes; [now] is
    [Math.floor(Date.now() / 1000)], [adminLimit] and [limit] are
    [Config.get('huntAdminLimit', 10000000)] and [Config.get('huntLimit',
    1000000)]. *)
Definition newHunt (multiES : bool) (adminLimit limit now : Z) (user : User)
                   (body : option NewHunt) : Res + Created :=
  if multiES then refuse 401 "Not supported in multies"
  else match body with
  | None => refuse 403 "You must provide a hunt object"
  | Some h =>
      if negb (JS.truthy_num (n_totalSessions h))
      then refuse 403 "This hunt does not apply to any sessions"
      else if negb (JS.truthy_str (n_name h)) then refuse 403 "Missing hunt name"
      else if negb (JS.truthy_num (n_size h))
      then refuse 403 "Missing max mumber of packets to examine per session"
      else if negb (JS.truthy_str (n_search h)) then refuse 403 "Missing packet search text"
      else if negb (Search.truthy (n_src h)) && negb (Search.truthy (n_dst h))
      then refuse 403 "The hunt must search source or destination packets (or both)"
      else match n_query h with
      | None => refuse 403 "Missing query"
      | Some (Some _, Some _) =>
          match n_searchType h with
          | None => refuse 403 "Missing packet search text type"
          | Some st =>
              if String.eqb st "" then refuse 403 "Missing packet search text type"
              else if negb (existsb (String.eqb st) searchTypes)
              then refuse 403 improperSearchType
              else match n_type h with
              | None => refuse 403 "Missing packet search type (raw or reassembled packets)"
              | Some ty =>
                  if String.eqb ty ""
                  then refuse 403 "Missing packet search type (raw or reassembled packets)"
                  else if negb (String.eqb ty "raw") && negb (String.eqb ty "reassembled")
                  then refuse 403 improperType
                  else
                    let total := JS.num_or (n_totalSessions h) 0 in
                    let most := if flag user "createEnabled" then adminLimit else limit in
                    if most <? total then refuse 403 (tooManySessions most)
                    else inr {| c_name := huntName (match n_name h with
                                                    | Some n => n
                                                    | None => ""
                                                    end);
                                c_status := Hunt.queued;
                                c_userId := userId user;
                                c_created := now;
                                c_matchedSessions := 0;
                                c_searchedSessions := 0;
                                c_totalSessions := total;
                                c_search := match n_search h with
                                            | Some s => s
                                            | None => ""
                                            end;
                                c_searchType := st;
                                c_type := ty;
                                c_src := n_src h;
                                c_dst := n_dst h;
                                c_failedSessionIds := n_failedSessionIds h |}
              end
          end
      | Some _ =>
          refuse 403 "Missing fully formed query (must include start time and stop time)"
      end
  end.

(** The document of such a hunt as the job runner reads it, for a body that
    holds none of the other properties which the runner reads and the route
    does not set ([lastUpdated] is set by [processHuntJob] before it is
    read). *)
Definition document (c : Created) : Hunt.Hunt :=
  {| Hunt.name := c_name c;
     Hunt.status := c_status c;
     Hunt.lastUpdated := 0;
     Hunt.totalSessions := c_totalSessions c;
     Hunt.searchedSessions := c_searchedSessions c;
     Hunt.matchedSessions := c_matchedSessions c;
     Hunt.lastPacketTime := None;
     Hunt.failedSessionIds := c_failedSessionIds c;
     Hunt.errors := None;
     Hunt.unrunnable := false;
     Hunt.notifier := None |}.

End Jobs.

(* ------------------------------------------------------------------------ *)
(** ** [class Mutex] *)

Module Mutex.

(** The two fields of a mutex; a caller that waits is known by the [resolve]
    of its promise, here by a number. *)
Record Mutex := { queue : list nat; locked : bool }.

(** [new Mutex()] *)
Definition create : Mutex := {| queue := []; locked := false |}.

(** [lock ()], called by [who]: the mutex afterwards, and whether the promise
    is resolved at once. *)
Definition lock (who : nat) (m : Mutex) : Mutex * bool :=
  if locked m
  then ({| queue := (queue m ++ [who])%list; locked := locked m |}, false)
  else ({| queue := queue m; locked := true |}, true).

(** [unlock ()]: the mutex afterwards, and the caller whose promise is
    resolved, if one was waiting. *)
Definition unlock (m : Mutex) : Mutex * option nat :=
  match queue m with
  | resolve :: rest => ({| queue := rest; locked := locked m |}, Some resolve)
  | [] => ({| queue := []; locked := false |}, None)
  end.

(** What the users of a mutex do. *)
Inductive Op :=
| Lock (who : nat)
| Unlock.

(** The mutex in use: the callers whose promise has been resolved, in the
    order of the resolutions, and how many of them have not called
    [unlock()] yet. *)
Record Use := { mutex : Mutex; granted : list nat; holding : nat }.

Definition start : Use := {| mutex := create; granted := []; holding := O |}.

(** One operation; [None] when [unlock()] is called although nobody holds the
    mutex, which its users do not do. *)
Definition step (op : Op) (u : Use) : option Use :=
  match op with
  | Lock who =>
      let (m, now) := lock who (mutex u) in
      Some {| mutex := m;
              granted := if now then (granted u ++ [who])%list else granted u;
              holding := if now then S (holding u) else holding u |}
  | Unlock =>
      match holding u with
      | O => None
      | S h =>
          let (m, next) := unlock (mutex u) in
          Some match next with
               | Some who => {| mutex := m; granted := (granted u ++ [who])%list;
                                holding := S h |}
               | None => {| mutex := m; granted := granted u; holding := h |}
               end
      end
  end.

Fixpoint run (ops : list Op) (u : Use) : option Use :=
  match ops with
  | [] => Some u
  | op :: rest =>
      match step op u with
      | Some u' => run rest u'
      | None => None
      end
  end.

(** The callers of [lock()], in the order of their calls. *)
Fixpoint callers (ops : list Op) : list nat :=
  match ops with
  | [] => []
  | Lock who :: rest => who :: callers rest
  | Unlock :: rest => callers rest
  end.

(** At most one caller holds the mutex, the mutex is locked exactly while one
    does, and nobody waits while it is free. *)
Definition exclusive (u : Use) : Prop :=
  (holding u <= 1)%nat /\
  (locked (mutex u) = true <-> holding u = 1%nat) /\
  (locked (mutex u) = false -> queue (mutex u) = []).

End Mutex.

(* ------------------------------------------------------------------------ *)
(** ** [POST /upload]: the tags of the upload command *)

Module Upload.

(** [t.forEach(function (tag) { if (tag.length > 0) { tags += ' --tag ' + tag; } })] *)
Definition addTag (tags tag : string) : string :=
  if Nat.ltb 0 (String.length tag) then tags ++ " --tag " ++ tag else tags.

(** The value of [tags] that replaces [{TAGS}] in the upload command;
    [body] is [req.body.tags]. *)
Definition uploadTags (body : option string) : string :=
  if JS.truthy_str body
  then match body with
       | Some b => fold_left addTag (JS.split ","%char (Cron.sanitize b)) ""
       | None => ""
       end
  else "".

(** [Config.get('uploadCommand').replace('{TAGS}', tags).replace('{NODE}',
    Config.nodeName()).replace('{TMPFILE}', req.file.path).replace('{CONFIG}',
    Config.getConfigFile())], for a node name, a path and a configuration
    file without [$] patterns. *)
Definition command (uploadCommand nodeName path configFile : string) (body : option string)
  : string :=
  JS.replace "{CONFIG}" configFile
    (JS.replace "{TMPFILE}" path
       (JS.replace "{NODE}" nodeName
          (JS.replace "{TAGS}" (uploadTags body) uploadCommand))).

(** The arguments [ --tag t] for the tags [ts], one after the other. *)
Fixpoint tagArgs (ts : list string) : string :=
  match ts with
  | [] => ""
  | t :: rest => " --tag " ++ t ++ tagArgs rest
  end.

End Upload.

(* ------------------------------------------------------------------------ *)
(** ** [logAction]: the request body that goes to the history *)

Module Log.

Section Body.

(** The values of the properties of [req.body]. *)
Variable Value : Type.

(** [avoidProps[key]] for a key that [avoidProps] does not hold itself:
    whether [Object.prototype] has a property of that name with a truthy
    value. *)
Variable inherited : string -> bool.

(** [avoidProps[key]], with [avoidProps = { password: true, newPassword: true,
    currentPassword: true }] *)
Definition avoidProps (key : string) : bool :=
  String.eqb key "password" || String.eqb key "newPassword"
  || String.eqb key "currentPassword" || inherited key.

(** Whether [req.body] has a property [hasOwnProperty] of its own: a parsed
    body holds no function, so [req.body.hasOwnProperty(key)] throws. *)
Definition shadowed (body : list (string * Value)) : bool :=
  existsb (fun kv => String.eqb (fst kv) "hasOwnProperty") body.

(** [bodyClone] after the loop over the properties of [req.body], which are
    given in the order of [for ... in]; [None]: a [TypeError]. *)
Definition bodyClone (body : list (string * Value)) : option (list (string * Value)) :=
  if shadowed body then None
  else Some (filter (fun kv => negb (avoidProps (fst kv))) body).

(** [log.body]: set if [Object.keys(bodyClone).length > 0]. *)
Definition logBody (body : list (string * Value)) : option (option (list (string * Value))) :=
  match bodyClone body with
  | None => None
  | Some [] => Some None
  | Some clone => Some (Some clone)
  end.

End Body.

End Log.

(* ------------------------------------------------------------------------ *)
(** ** [issueAlert] *)

Module Alert.

(** A field of a notifier definition, and a field of a configured notifier
    ([value]: [None] when [undefined]). *)
Record Field := { f_name : string; required : bool }.
Record Configured := { c_name : string; c_value : option string }.

(** A notifier definition of [internals.notifiers], and a notifier of the
    shared user ([fields]: [None] when the notifier has none). *)
Record Provider := { p_type : string; p_fields : list Field }.
Record Notifier := { n_type : string; n_fields : option (list Configured) }.

(** The [config] object: its properties in the order they were created
    (field names are not names of properties of [Object.prototype]). *)
Definition Config := list (string * string).

Fixpoint lookup (k : string) (config : Config) : option string :=
  match config with
  | [] => None
  | (k', v) :: rest => if String.eqb k' k then Some v else lookup k rest
  end.

(** [config[k] = v] *)
Fixpoint assign (k v : string) (config : Config) : Config :=
  match config with
  | [] => [(k, v)]
  | (k', v') :: rest =>
      if String.eqb k' k then (k', v) :: rest else (k', v') :: assign k v rest
  end.

Inductive Effect :=
| Continue (err : option string)                   (* continueProcess(err) *)
| SendAlert (config : Config) (message : string). (* notifierDefinition.sendAlert *)

Definition noName : string := "No name supplied for notifier".
Definition cannotFind : string := "Cannot find notifier, no alert can be issued".

Definition missingField (field : Field) : string :=
  "Cannot find notifier field value: " ++ f_name field ++ ", no alert can be issued".

(** The call of [continueProcess] for a required field without a value. *)
Definition complaint (field : Field) : Effect := Continue (Some (missingField field)).

(** The loop over [internals.notifiers]: the last definition of the type. *)
Definition definitionOf (notifiers : list Provider) (notifier : Notifier) : option Provider :=
  fold_left (fun found p => if String.eqb (p_type p) (n_type notifier) then Some p else found)
            notifiers None.

(** The inner loop, over [notifier.fields]. *)
Definition fill (field : Field) (configured : list Configured) (config : Config) : Config :=
  fold_left (fun cfg cf =>
               if String.eqb (c_name cf) (f_name field)
               then match c_value cf with
                    | Some v => assign (f_name field) v cfg
                    | None => cfg
                    end
               else cfg)
            configured config.

(** The outer loop, over [notifierDefinition.fields]: [config] and the calls
    of [continueProcess] so far. *)
Definition configure (fields : list Field) (configured : list Configured)
  : Config * list Effect :=
  fold_left (fun st field =>
               let config := fill field configured (fst st) in
               (config,
                if required field
                then match lookup (f_name field) config with
                     | None => (snd st ++ [complaint field])%list
                     | Some _ => snd st
                     end
                else snd st))
            fields ([], []).

(** [err] in the callback of [sendAlert]: the last of [response.errors]. *)
Definition lastError (errors : option (list string)) : option string :=
  match errors with
  | Some l => fold_left (fun _ e => Some e) l None
  | None => None
  end.

(** [function issueAlert (notifierName, alertMessage, continueProcess)]:
    the calls it makes, in order. [shared] is what [Db.getUser] found for
    [_moloch_shared], with [found] and the notifier stored under a name;
    [respond] is the response that [sendAlert] hands to its callback.
    [None]: a [TypeError], from the loop over the fields of a notifier that
    has none. *)
Definition issueAlert (notifiers : list Provider)
                      (shared : option (bool * (string -> option Notifier)))
                      (respond : Config -> string -> option (list string))
                      (notifierName : option string) (alertMessage : string)
  : option (list Effect) :=
  match notifierName with
  | None => Some [Continue (Some noName)]
  | Some name =>
      if String.eqb name "" then Some [Continue (Some noName)]
      else
        match shared with
        | Some (true, stored) =>
            match stored name with
            | None => Some [Continue (Some cannotFind)]
            | Some notifier =>
                match definitionOf notifiers notifier with
                | None => Some [Continue (Some cannotFind)]
                | Some p =>
                    match p_fields p, n_fields notifier with
                    | _ :: _, None => None
                    | fields, configured =>
                        let (config, complaints) :=
                          configure fields (match configured with Some l => l | None => [] end) in
                        Some (complaints ++
                              [SendAlert config alertMessage;
                               Continue (lastError (respond config alertMessage))])%list
                    end
                end
            end
        | _ => Some [Continue (Some cannotFind)]
        end
  end.

(** The value that the fields [configured] give to the name [k]: the last
    one that is defined. *)
Definition valueOf (k : string) (configured : list Configured) : option string :=
  fold_left (fun acc cf =>
               if String.eqb (c_name cf) k
               then match c_value cf with Some v => Some v | None => acc end
               else acc)
            configured None.

(** The required fields that [configured] gives no value. *)
Definition unset (fields : list Field) (configured : list Configured) : list Field :=
  filter (fun f => required f && match valueOf (f_name f) configured with
                                 | None => true
                                 | Some _ => false
                                 end)
         fields.

End Alert.

(* ------------------------------------------------------------------------ *)
(** ** Concrete requests, documents and runs

    The inputs at which the theorems below are instantiated. *)

Module Inputs.

(** *** A viewer behind the base path [/moloch/] and one peer token *)

Definition token : Http.Token :=
  {| Http.tk_path := Some "/moloch/node1/hunt/h1/remote/s1";
     Http.tk_date := Some 1600000000000;
     Http.tk_user := Some "admin" |}.

Definition admin : Http.User :=
  {| Http.userId := "admin"; Http.flag := fun p => String.eqb p "enabled" |}.

Definition viewer : Http.Env :=
  {| Http.basePath := "/moloch/";
     Http.hostName := "viewer1";
     Http.auth2obj := fun h => if String.eqb h "token" then Some token else None;
     Http.getUserCache := fun n =>
       {| Http.lk_err := None;
          Http.lk_suser := match n with
                           | Some x => if String.eqb x "admin" then Some (true, admin) else None
                           | None => None
                           end |};
     Http.getUserCacheCreated := fun _ _ => {| Http.lk_err := None; Http.lk_suser := None |};
     Http.userNameHeader := None;
     Http.requiredAuthHeader := None;
     Http.requiredAuthHeaderVal := None;
     Http.userAutoCreateTmpl := None;
     Http.digest := fun _ => Http.DigestChallenge;
     Http.multiESOnly := false |}.

Definition withToken (n : string) : option string :=
  if String.eqb n "x-moloch-auth" then Some "token" else None.

(** The request the token was signed for, a health probe that carries the
    same header, and the token replayed on another path. *)
Definition peerRequest : Http.Request :=
  {| Http.url := "/node1/hunt/h1/remote/s1"; Http.headers := withToken |}.

Definition healthRequest : Http.Request :=
  {| Http.url := "/eshealth.json"; Http.headers := withToken |}.

(** A browser whose digest is right and whose request carries an empty
    [x-moloch-auth] header. *)
Definition browserViewer : Http.Env :=
  {| Http.basePath := "/moloch/";
     Http.hostName := "viewer1";
     Http.auth2obj := fun h => if String.eqb h "token" then Some token else None;
     Http.getUserCache := fun _ => {| Http.lk_err := None; Http.lk_suser := None |};
     Http.getUserCacheCreated := fun _ _ => {| Http.lk_err := None; Http.lk_suser := None |};
     Http.userNameHeader := None;
     Http.requiredAuthHeader := None;
     Http.requiredAuthHeaderVal := None;
     Http.userAutoCreateTmpl := None;
     Http.digest := fun _ => Http.DigestOk admin;
     Http.multiESOnly := false |}.

Definition emptyTokenRequest : Http.Request :=
  {| Http.url := "/node1/hunt/h1/remote/s1";
     Http.headers := fun n => if String.eqb n "x-moloch-auth" then Some "" else None |}.

(** A peer route under a name that begins like the health page, and a token
    without a date. *)
Definition nestedRequest : Http.Request :=
  {| Http.url := "/eshealth.json/hunt/h1/remote/s1"; Http.headers := withToken |}.

Definition dateless : Http.Token :=
  {| Http.tk_path := Some "/moloch/node1/hunt/h1/remote/s1";
     Http.tk_date := None;
     Http.tk_user := Some "admin" |}.

Definition datelessViewer : Http.Env :=
  {| Http.basePath := "/moloch/";
     Http.hostName := "viewer1";
     Http.auth2obj := fun h => if String.eqb h "token" then Some dateless else None;
     Http.getUserCache := Http.getUserCache viewer;
     Http.getUserCacheCreated := fun _ _ => {| Http.lk_err := None; Http.lk_suser := None |};
     Http.userNameHeader := None;
     Http.requiredAuthHeader := None;
     Http.requiredAuthHeaderVal := None;
     Http.userAutoCreateTmpl := None;
     Http.digest := fun _ => Http.DigestChallenge;
     Http.multiESOnly := false |}.

(** *** A cron query that tags sessions and notifies

    The query has matched 5 sessions so far, all of them notified 691 seconds
    before its next turn is over. *)

Definition cronEnv : Cron.Env :=
  {| Cron.cronTimeout := 90;
     Cron.sessionsListFromIds := map (fun i => {| Cron._id := i; Cron.node := "node1" |});
     Cron.getUserCacheIncAnon := fun _ =>
       (None, Some {| Cron.u_found := true; Cron.u_enabled := true;
                      Cron.u_emailSearch := false; Cron.u_expression := None |});
     Cron.parse := fun _ s => Some s;
     Cron.nodeName := "node1";
     Cron.toString36 := fun _ => "kf12oi" |}.

Definition cq : Cron.CronQuery :=
  {| Cron.name := "cq";
     Cron.creator := "admin";
     Cron.enabled := true;
     Cron.query := "port == 80";
     Cron.tags := "cron1, cron2";
     Cron.action := "tag";
     Cron.notifier := Some "slack";
     Cron.lpValue := 1000;
     Cron.count := Some 5;
     Cron.lastNotified := Some 400;
     Cron.lastNotifiedCount := Some 5 |}.

Definition cronOptions : Cron.Options :=
  {| Cron.cluster := None; Cron.saveId := "node1-kf12oi"; Cron.o_tags := "cron1,cron2";
     Cron.qid := "q1" |}.

Definition cronBody : Cron.Query :=
  {| Cron.q_from := 0; Cron.q_size := 1000;
     Cron.filter := [Cron.FEmpty; Cron.FCompiled "port == 80"];
     Cron._source := ["_id"; "node"] |}.

Definition cronClock : Cron.Clock := {| Cron.t_options := 1090500; Cron.t_done := 1091000 |}.

Definition cronHit (s : string) : Cron.Hit := {| Cron._id := s; Cron.node := "node1" |}.

(** Three new matches, then the empty page that ends the scroll. *)
Definition threeMatches : list Cron.Result :=
  [Cron.Page [cronHit "a"; cronHit "b"; cronHit "c"]; Cron.Page []].

(** *** A capture file with one packet record at offset 24: a 16-byte record
    header and 8 bytes of payload *)

Definition record24 : list Z :=
  [10; 11; 12; 13; 14; 15; 16; 17; 8; 0; 0; 0; 8; 0; 0; 0;
   71; 69; 84; 32; 47; 32; 13; 10].

Definition capture : Scrub.SpecFile := [(24, record24)].

(** *** A capture disk that is full: eleven files of [node1] under
    [/data/pcap], and a locked one that is older than all of them *)

Definition pcapFile (x : string * Z) : Expiry.File :=
  {| Expiry._id := "node1-" ++ fst x;
     Expiry.num := snd x;
     Expiry.name := "/data/pcap/" ++ fst x ++ ".pcap";
     Expiry.first := 1000 + snd x;
     Expiry.size := 1000000;
     Expiry.node := "node1";
     Expiry.locked := 0 |}.

Definition lockedFile : Expiry.File :=
  {| Expiry._id := "node1-keep";
     Expiry.num := 0;
     Expiry.name := "/data/pcap/keep.pcap";
     Expiry.first := 1;
     Expiry.size := 1000000;
     Expiry.node := "node1";
     Expiry.locked := 1 |}.

Definition filesIndex : list Expiry.File :=
  lockedFile ::
  map pcapFile [("k", 11); ("b", 2); ("c", 3); ("d", 4); ("e", 5); ("f", 6);
                ("g", 7); ("h", 8); ("i", 9); ("j", 10); ("a", 1)].

(** No block is free, whatever has been deleted. *)
Definition fullDisk : Expiry.World :=
  {| Expiry.statVFS := fun _ _ => Some {| Expiry.f_frsize := 4096; Expiry.f_bavail := 0 |};
     Expiry.deleteFails := fun _ _ => false |}.

(** *** A hunt over four sessions that all match

    The hunt has just been queued; the four sessions of its only page are
    held by this node.  [remoteViewer] is a viewer that holds none of them. *)

Definition localViewer : Hunt.Env := {| Hunt.huntId := "h1"; Hunt.isLocalView := fun _ => true |}.

Definition remoteViewer : Hunt.Env :=
  {| Hunt.huntId := "h1"; Hunt.isLocalView := fun _ => false |}.

Definition newHunt : Hunt.Hunt :=
  {| Hunt.name := "h";
     Hunt.status := Hunt.running;
     Hunt.lastUpdated := 0;
     Hunt.totalSessions := 4;
     Hunt.searchedSessions := 0;
     Hunt.matchedSessions := 0;
     Hunt.lastPacketTime := None;
     Hunt.failedSessionIds := None;
     Hunt.errors := None;
     Hunt.unrunnable := false;
     Hunt.notifier := None |}.

Definition session (s : string) (t : Z) : Hunt.Hit :=
  {| Hunt.sid := s;
     Hunt._source := {| Hunt.lastPacket := Some t; Hunt.node := "node2";
                        Hunt.fileId := Some [1] |} |}.

Definition page : list Hunt.Hit :=
  [session "s1" 1001; session "s2" 1002; session "s3" 1003; session "s4" 1004].

(** The run begins at second 100.  Three seconds later the searches of [s1]
    and [s2] end, each with a match, and each asks for the hunt document with
    the counter at 3.  The first answer comes; [s4] starts, [s4] and [s3] end
    with a match; then the second answer comes.  The empty page ends the
    scan. *)
Definition overlap : list (Z * Hunt.Event) :=
  [ (100, Hunt.Searched (Hunt.Hits 4 page));
    (103, Hunt.Hunted "s1" (Hunt.LocalResult true));
    (103, Hunt.Hunted "s2" (Hunt.LocalResult true));
    (103, Hunt.Got "s1" (Hunt.Found Hunt.running));
    (103, Hunt.Hunted "s4" (Hunt.LocalResult true));
    (103, Hunt.Hunted "s3" (Hunt.LocalResult true));
    (103, Hunt.Got "s2" (Hunt.Found Hunt.running));
    (104, Hunt.Searched (Hunt.Hits 4 [])) ].

(** The same beginning without matches; the answer to the request of [s2] is
    late: [s4] ends two seconds after the first checkpoint, its own checkpoint
    is written, and only then the request of [s2] is answered. *)
Definition lateAnswer : list (Z * Hunt.Event) :=
  [ (100, Hunt.Searched (Hunt.Hits 4 page));
    (103, Hunt.Hunted "s1" (Hunt.LocalResult false));
    (103, Hunt.Hunted "s2" (Hunt.LocalResult false));
    (103, Hunt.Got "s1" (Hunt.Found Hunt.running));
    (105, Hunt.Hunted "s4" (Hunt.LocalResult false));
    (105, Hunt.Got "s4" (Hunt.Found Hunt.running));
    (106, Hunt.Got "s2" (Hunt.Found Hunt.running)) ].

(** A hunt whose list of failed sessions is over the cap. *)
Definition swamped : Hunt.Hunt :=
  Hunt.setFailedSessionIds (Some (repeat "gone" (Z.to_nat 10001))) newHunt.

(** The state in which the page has arrived and [s1], [s2], [s3] are being
    asked of their node. *)
Definition asking (h : Hunt.Hunt) : Hunt.World :=
  Hunt.getMoreUntilDone remoteViewer 100 (Hunt.Hits 4 page)
    (Hunt.processHuntJob remoteViewer 100 None h).

(** A hunt whose scan is over and that has two sessions left to try again,
    and the state in which the pass over them has begun. *)
Definition leftover : Hunt.Hunt :=
  Hunt.setFailedSessionIds (Some ["s1"; "s2"]) (Hunt.setSearchedSessions 4 newHunt).

Definition retrying : Hunt.World := Hunt.processHuntJob remoteViewer 200 None leftover.

(** The same session fails, another one fails, the first one fails again. *)
Definition skip (s : string) : Hunt.Skip :=
  {| Hunt.sk_now := 101;
     Hunt.sk_session := Some (Hunt._source (session s 1001));
     Hunt.sk_sessionId := s;
     Hunt.sk_searched := Some 3 |}.

Definition retries : list Hunt.Skip := [skip "s1"; skip "s2"; skip "s1"].

End Inputs.

(* ------------------------------------------------------------------------ *)
(** ** Further requests, documents and runs *)

Module Cases.

(** *** A peer that forwards a session, and the same request without a token *)

Definition receiveToken : Http.Token :=
  {| Http.tk_path := Some "/moloch/receiveSession?saveId=node1-kf12oi";
     Http.tk_date := Some 1600000000000;
     Http.tk_user := Some "admin" |}.

Definition receiver : Http.Env :=
  {| Http.basePath := "/moloch/";
     Http.hostName := "viewer2";
     Http.auth2obj := fun h => if String.eqb h "rtoken" then Some receiveToken else None;
     Http.getUserCache := fun _ => {| Http.lk_err := None; Http.lk_suser := None |};
     Http.getUserCacheCreated := fun _ _ => {| Http.lk_err := None; Http.lk_suser := None |};
     Http.userNameHeader := None;
     Http.requiredAuthHeader := None;
     Http.requiredAuthHeaderVal := None;
     Http.userAutoCreateTmpl := None;
     Http.digest := fun _ => Http.DigestChallenge;
     Http.multiESOnly := false |}.

Definition receiveRequest : Http.Request :=
  {| Http.url := "/receiveSession?saveId=node1-kf12oi";
     Http.headers := fun n => if String.eqb n "x-moloch-auth" then Some "rtoken" else None |}.

Definition anonymousReceive : Http.Request :=
  {| Http.url := "/receiveSession?saveId=node1-kf12oi"; Http.headers := fun _ => None |}.

(** *** A viewer behind a proxy that names the user and her groups; the
    header of the groups ends in a no-break space *)

Definition alice : Http.User :=
  {| Http.userId := "alice";
     Http.flag := fun p => String.eqb p "enabled" || String.eqb p "headerAuthEnabled" |}.

Definition proxied : Http.Env :=
  {| Http.basePath := "/";
     Http.hostName := "viewer3";
     Http.auth2obj := fun _ => None;
     Http.getUserCache := fun n =>
       {| Http.lk_err := None;
          Http.lk_suser := match n with
                           | Some x => if String.eqb x "alice" then Some (true, alice) else None
                           | None => None
                           end |};
     Http.getUserCacheCreated := fun _ _ => {| Http.lk_err := None; Http.lk_suser := None |};
     Http.userNameHeader := Some "x-user";
     Http.requiredAuthHeader := Some "x-groups";
     Http.requiredAuthHeaderVal := Some "analysts";
     Http.userAutoCreateTmpl := None;
     Http.digest := fun _ => Http.DigestChallenge;
     Http.multiESOnly := true |}.

Definition fromProxy : Http.Request :=
  {| Http.url := "/sessions";
     Http.headers := fun n =>
       if String.eqb n "x-user" then Some "alice"
       else if String.eqb n "x-groups"
       then Some ("staff, analysts" ++ String (ascii_of_nat 160) "")
       else None |}.

(** *** A cron query whose creator is held to an expression by the admin *)

Definition restrictedUser : Cron.Creator :=
  {| Cron.u_found := true; Cron.u_enabled := true; Cron.u_emailSearch := false;
     Cron.u_expression := Some "ip.src == 10.0.0.0/8" |}.

Definition restricted : Cron.Env :=
  {| Cron.cronTimeout := 90;
     Cron.sessionsListFromIds := fun _ => [];
     Cron.getUserCacheIncAnon := fun _ => (None, Some restrictedUser);
     Cron.parse := fun _ s => Some s;
     Cron.nodeName := "node1";
     Cron.toString36 := fun _ => "kf12oi" |}.

(** *** The scan of [Inputs.overlap] up to its last page *)

Definition quietScan : list (Z * Hunt.Event) := firstn 7 Inputs.overlap.

(** *** Cookies, hunts and passwords of two users

    The cookie of [alice] was issued at 1600000000000 by process 4711; the
    hunt [h1] is hers. *)

Definition sealed (t : Access.CookieToken) : string := "c-alice".

Definition cookieOf (h : string) : option Access.CookieToken :=
  if String.eqb h "c-alice"
  then Some {| Access.ck_date := Some 1600000000000; Access.ck_pid := Some 4711;
               Access.ck_userId := Some "alice" |}
  else if String.eqb h "c-bob"
  then Some {| Access.ck_date := Some 1600000000000; Access.ck_pid := Some 4711;
               Access.ck_userId := Some "bob" |}
  else None.

Definition withCookie (n : string) : option string :=
  if String.eqb n "x-moloch-cookie" then Some "c-alice" else None.

Definition hunter (n : string) : Http.User :=
  {| Http.userId := n;
     Http.flag := fun p => String.eqb p "enabled" || String.eqb p "packetSearch" |}.

Definition huntViewer : Access.Viewer :=
  {| Access.auth2obj := cookieOf;
     Access.getHunt := fun i =>
       {| Access.f_err := None;
          Access.f_hit := if String.eqb i "h1" then Some (true, Some "alice") else None |};
     Access.multiES := false;
     Access.deleteHuntItem := fun _ => false |}.

Definition aliceDeletes : Access.Call :=
  {| Access.headers := withCookie; Access.user := hunter "alice"; Access.id := "h1" |}.

Definition bobDeletes : Access.Call :=
  {| Access.headers := fun n => if String.eqb n "x-moloch-cookie" then Some "c-bob" else None;
     Access.user := hunter "bob"; Access.id := "h1" |}.


(** A stand-in for the hashes of [config.js]: the store of a password is the
    user id and the password (its code units below 256), and its ha1 is the
    store. *)
Definition shown (p : option JS.units) : string :=
  match p with
  | Some x => string_of_list_ascii (map ascii_of_N x)
  | None => ""
  end.





(** *** Hunts over small packets

    Stand-ins for the library: a pattern is a text that must occur, packets
    are read as Latin-1, and lower case is taken on [A] to [Z]. *)

Definition Pattern : Type := string.

Definition latin1 (packet : list Z) : string :=
  string_of_list_ascii (map (fun b => ascii_of_nat (Z.to_nat b)) packet).

Definition lowerChar (c : ascii) : ascii :=
  let n := nat_of_ascii c in
  if Nat.leb 65 n && Nat.leb n 90 then ascii_of_nat (n + 32) else c.

Fixpoint lower (s : string) : string :=
  match s with
  | EmptyString => EmptyString
  | String c s' => String (lowerChar c) (lower s')
  end.

Definition finds (p : Pattern) (s : string) : bool := Http.includes p s.

Definition hexHunt (text : string) : Search.Options Pattern :=
  {| Search.src := Some true; Search.dst := Some true; Search.size := Some 50;
     Search.type := "raw"; Search.search := text; Search.searchType := "hex";
     Search.regex := None |}.

(** The text [OK!] in what the source sent. *)
Definition sourceHunt : Search.Options Pattern :=
  {| Search.src := Some true; Search.dst := Some false; Search.size := Some 50;
     Search.type := "reassembled"; Search.search := "OK!"; Search.searchType := "asciicase";
     Search.regex := None |}.

(** *** Hunts that wait, and a hunt that is not everybody's *)

Definition waiting : list (string * Hunt.Status) :=
  [("h1", Hunt.paused); ("h2", Hunt.queued); ("h3", Hunt.queued)].

Definition secretHunt : Jobs.HuntHit :=
  {| Jobs.h_id := "h1"; Jobs.h_status := Hunt.paused; Jobs.h_userId := Some "alice";
     Jobs.h_users := Some ["carol"]; Jobs.h_search := "password=";
     Jobs.h_searchType := "ascii"; Jobs.h_query := Some "ip.src == 10.1.2.3" |}.

Definition wildcardHunt : Jobs.NewHunt :=
  {| Jobs.n_failedSessionIds := None;
     Jobs.n_totalSessions := Some 12;
     Jobs.n_name := Some "get";
     Jobs.n_size := Some 50;
     Jobs.n_search := Some "G*T";
     Jobs.n_src := Some true;
     Jobs.n_dst := Some true;
     Jobs.n_query := Some (Some 1599990000, Some 1600000000);
     Jobs.n_searchType := Some "wildcard";
     Jobs.n_type := Some "raw" |}.

(** A hunt posted with a list of failed sessions that names [s1] twice. *)
Definition twiceFailed : Jobs.NewHunt :=
  {| Jobs.n_failedSessionIds := Some ["s1"; "s1"];
     Jobs.n_totalSessions := Some 4;
     Jobs.n_name := Some "h";
     Jobs.n_size := Some 50;
     Jobs.n_search := Some "OK!";
     Jobs.n_src := Some true;
     Jobs.n_dst := Some true;
     Jobs.n_query := Some (Some 1599990000, Some 1600000000);
     Jobs.n_searchType := Some "ascii";
     Jobs.n_type := Some "raw" |}.

Definition huntFor (searchType text : string) : Search.Options Pattern :=
  {| Search.src := Some true; Search.dst := Some true; Search.size := Some 50;
     Search.type := "raw"; Search.search := text; Search.searchType := searchType;
     Search.regex := None |}.

(** *** A cron query of [alice], and [bob] asking to delete it *)

Definition cronQueries (key : option string) : Access.Fetch :=
  {| Access.f_err := None;
     Access.f_hit := match key with
                     | Some k => if String.eqb k "q1" then Some (true, Some "alice")
                                 else Some (false, None)
                     | None => Some (false, None)
                     end |}.

Definition aliceDrops : Access.CronCall :=
  {| Access.c_headers := withCookie;
     Access.c_user := {| Access.account := alice; Access.passStore := Some "alice:old" |};
     Access.c_queryUserId := None;
     Access.c_key := Some "q1" |}.

Definition bobDrops : Access.CronCall :=
  {| Access.c_headers := fun n => if String.eqb n "x-moloch-cookie" then Some "c-bob" else None;
     Access.c_user := {| Access.account := hunter "bob"; Access.passStore := None |};
     Access.c_queryUserId := None;
     Access.c_key := Some "q1" |}.

Definition everyone : Access.Settings :=
  {| Access.regressionTests := false;
     Access.noPasswordSecret := false;
     Access.getUser := fun n =>
       {| Access.g_err := None;
          Access.g_user := Some (true, {| Access.account := hunter n;
                                          Access.passStore := None |}) |} |}.

(** *** A request body with passwords *)

Definition passwordBody : list (string * string) :=
  [("userId", "alice"); ("newPassword", "s3cret"); ("currentPassword", "old");
   ("note", "rotate")].

(** [Object.prototype] has these properties among others. *)
Definition prototypeNames (key : string) : bool :=
  existsb (String.eqb key) ["constructor"; "toString"; "valueOf"; "hasOwnProperty"; "__proto__"].

(** *** A notifier with a required field left out *)

Definition slack : Alert.Provider :=
  {| Alert.p_type := "slack";
     Alert.p_fields := [ {| Alert.f_name := "slackWebhookUrl"; Alert.required := true |};
                         {| Alert.f_name := "channel"; Alert.required := false |} ] |}.

Definition incomplete : Alert.Notifier :=
  {| Alert.n_type := "slack";
     Alert.n_fields := Some [ {| Alert.c_name := "channel"; Alert.c_value := Some "ops" |};
                              {| Alert.c_name := "slackWebhookUrl"; Alert.c_value := None |} ] |}.

Definition sharedNotifiers : option (bool * (string -> option Alert.Notifier)) :=
  Some (true, fun name => if String.eqb name "ops" then Some incomplete else None).

End Cases.

(* ------------------------------------------------------------------------ *)
(** * Theorems *)

(** Membership in a list that is written out. *)
Ltac in_list := simpl; repeat first [left; reflexivity | right].

(** Projections through the setters of the state of a hunt and of the hunt
    document. *)
Ltac through :=
  cbn [Hunt.hunt Hunt.writes Hunt.counter Hunt.busy Hunt.mode Hunt.todo
       Hunt.changes Hunt.called Hunt.done Hunt.epoch Hunt.tagged Hunt.uncaught
       Hunt.setHunt Hunt.setCounter Hunt.setMode Hunt.setEach Hunt.setBusy
       Hunt.setChanges Hunt.setTagged Hunt.setUncaught Hunt.dbSetHunt
       Hunt.pauseHuntJobWithError Hunt.matchedPlus Hunt.addJob
       Hunt.failedSessionIds Hunt.status Hunt.errors Hunt.searchedSessions
       Hunt.totalSessions Hunt.setStatus Hunt.setLastUpdated
       Hunt.setTotalSessions Hunt.setSearchedSessions Hunt.setMatchedSessions
       Hunt.setLastPacketTime Hunt.setFailedSessionIds Hunt.setErrors
       Hunt.setUnrunnable fst snd].

(* ------------------------------------------------------------------------ *)
(** ** Peer tokens and rejections *)

Module HttpFacts.
Import Http.

Lemma eqb_false_neq (a b : string) : String.eqb a b = false -> a <> b.
Proof. intros H E. subst. rewrite String.eqb_refl in H. discriminate. Qed.

Lemma s2sUser_sent_200 env n l res : s2sUser env n l = Sent res -> statusCode res = 200.
Proof.
  unfold s2sUser. destruct (lk_err l).
  - intros H; inversion H; reflexivity.
  - destruct (found l) as [u|].
    + destruct (negb (flag u "enabled")); intros H; inversion H; reflexivity.
    + intros H; inversion H; reflexivity.
Qed.

Lemma ucb_sent_200 env l n res : ucb env l n = Sent res -> statusCode res = 200.
Proof.
  unfold ucb. destruct (lk_err l).
  - intros H; inversion H; reflexivity.
  - destruct (found l) as [u|].
    + destruct (negb (flag u "enabled")); [intros H; inversion H; reflexivity|].
      destruct (negb (flag u "headerAuthEnabled")); intros H; inversion H; reflexivity.
    + intros H; inversion H; reflexivity.
Qed.

Lemma headerAuth_sent_200 env req n res :
  headerAuth env req n = Sent res -> statusCode res = 200.
Proof.
  unfold headerAuth.
  destruct (requiredAuthHeader env) as [h|], (requiredAuthHeaderVal env) as [v|];
    try destruct (headers req h) as [a|];
    try destruct (existsb _ _);
    try (intros H; inversion H; reflexivity);
    destruct (userAutoCreateTmpl env) as [tmpl|];
    try match goal with |- context [if ?c then _ else _] => destruct c end;
    try destruct (tmpl req);
    try discriminate;
    apply ucb_sent_200.
Qed.

Lemma middleware_sent_200 env now req res :
  passwordSecretAuth env now req = Sent res -> statusCode res = 200.
Proof.
  unfold passwordSecretAuth.
  destruct (String.eqb (url req) "/_ns_/nstest.html"); [intros H; inversion H; reflexivity|].
  destruct (noAuthUrl (url req)); [discriminate|].
  destruct (JS.truthy_str (headers req "x-moloch-auth")).
  - destruct (headers req "x-moloch-auth") as [h|]; [|discriminate].
    destruct (auth2obj env h) as [obj|]; [|discriminate].
    destruct (tk_path obj) as [p|]; [|discriminate].
    destruct (negb _); [discriminate|].
    destruct (skewed now _); [intros H; inversion H; reflexivity|].
    destruct (receiveUrl (url req)); [discriminate|].
    apply s2sUser_sent_200.
  - destruct (receiveUrl (url req)); [intros H; inversion H; reflexivity|].
    destruct (userNameHeader env) as [h|].
    + destruct (headers req h) as [n|]; [apply headerAuth_sent_200|].
      destruct (digest env req); try discriminate.
      intros H; inversion H; reflexivity.
    + destruct (digest env req); try discriminate.
      intros H; inversion H; reflexivity.
Qed.

Lemma checkPermissions_denies perms user :
  checkPermissions perms user = Next None \/
  checkPermissions perms user =
    Sent (molochError (Some 403) deniedText fresh).
Proof.
  induction perms as [|p rest IH]; simpl.
  - left; reflexivity.
  - destruct (_ || _); [right; reflexivity | exact IH].
Qed.

(** C2, as stated, fails.  A request for the health page is handed on
    although the token it carries was made for another path, 120001 ms ago;
    and a request whose [x-moloch-auth] header is empty, which no token
    check can pass, is handed on with the user of its digest. *)
Lemma health_probe_skips_token_check :
  (JS.truthy_str (headers Inputs.healthRequest "x-moloch-auth") = true /\
   auth2obj Inputs.viewer "token" = Some Inputs.token /\
   passedOn (passwordSecretAuth Inputs.viewer 1600000120001 Inputs.healthRequest) = true /\
   (forall p, tk_path Inputs.token = Some p ->
              JS.replace (basePath Inputs.viewer) "/" p <> url Inputs.healthRequest) /\
   (forall d, tk_date Inputs.token = Some d -> ~ Z.abs (1600000120001 - d) <= 120000))
  /\
  (headers Inputs.emptyTokenRequest "x-moloch-auth" = Some "" /\
   auth2obj Inputs.browserViewer "" = None /\
   passwordSecretAuth Inputs.browserViewer 1600000120001 Inputs.emptyTokenRequest
   = Next (Some Inputs.admin)).
Proof.
  split; [|repeat split].
  repeat split.
  - intros p H. inversion H. apply eqb_false_neq. reflexivity.
  - intros d H. inversion H. vm_compute. intros L. apply L. reflexivity.
Qed.

(** Two more ways past the token check, left out of the amended claim.  The
    pattern for the health pages is not anchored at its end, so the URL of a
    peer route under a node named [eshealth.json] skips the check too; and a
    token that carries no date is never found too old. *)
Example checks_missed :
  noAuthUrl (url Inputs.nestedRequest) = true /\
  passwordSecretAuth Inputs.viewer 1600000120001 Inputs.nestedRequest = Next None /\
  passwordSecretAuth Inputs.datelessViewer 1900000000000 Inputs.peerRequest
  = Next (Some (userCleanup Inputs.datelessViewer Inputs.admin)).
Proof. repeat split. Qed.

Lemma truthy_str_true o h : o = Some h -> h <> "" -> JS.truthy_str o = true.
Proof.
  intros -> N. simpl. destruct (String.eqb h "") eqn:E; [|reflexivity].
  apply String.eqb_eq in E. contradiction.
Qed.

(** C2, amended.  Outside the URLs that the pattern for the two health pages
    lets through, a request that carries a non-empty [x-moloch-auth] header is
    handed on only if the token decodes, its path (after base-path
    normalization) is the request URL and its date, when it carries one, is
    within 120000 ms of the clock of the server; a token whose path differs,
    or whose date is further away, is not handed on.  An empty header counts
    as none: the request is handed on only with a user that header or digest
    authentication accepted. *)
Theorem peer_token_checked (env : Env) (now : Z) (req : Request) (h : string) :
  headers req "x-moloch-auth" = Some h ->
  noAuthUrl (url req) = false ->
  (passedOn (passwordSecretAuth env now req) = true ->
   (h <> "" /\
    exists obj path,
      auth2obj env h = Some obj /\ tk_path obj = Some path /\
      JS.replace (basePath env) "/" path = url req /\
      forall d, tk_date obj = Some d -> Z.abs (now - d) <= 120000)
   \/
   (h = "" /\
    exists u,
      passwordSecretAuth env now req = Next (Some u) /\
      ((exists n, headerAuth env req n = Next (Some u)) \/ digest env req = DigestOk u)))
  /\
  (h <> "" ->
   forall obj, auth2obj env h = Some obj ->
     (forall path, tk_path obj = Some path ->
                   JS.replace (basePath env) "/" path <> url req) \/
     (exists d, tk_date obj = Some d /\ 120000 < Z.abs (now - d)) ->
     passedOn (passwordSecretAuth env now req) = false).
Proof.
  intros Hh Hurl. unfold passwordSecretAuth. rewrite Hurl, Hh.
  destruct (String.eqb (url req) "/_ns_/nstest.html").
  { split; [discriminate | reflexivity]. }
  destruct (String.eqb h "") eqn:E.
  - apply String.eqb_eq in E. subst h. simpl. split; [|intros N; contradiction N; reflexivity].
    destruct (receiveUrl (url req)); [discriminate|].
    intros P. right. split; [reflexivity|].
    destruct (userNameHeader env) as [hn|].
    + destruct (headers req hn) as [userName|].
      * destruct (headerAuth env req userName) as [[u|]| | | |] eqn:A; try discriminate.
        -- exists u. split; [reflexivity|]. left. exists userName. exact A.
        -- exfalso. revert A. unfold headerAuth.
           destruct (requiredAuthHeader env) as [rh|], (requiredAuthHeaderVal env) as [rv|];
             try destruct (headers req rh) as [a|];
             try destruct (existsb _ _);
             try discriminate;
             destruct (userAutoCreateTmpl env) as [tmpl|];
             try match goal with |- context [if ?c then _ else _] => destruct c end;
             try destruct (tmpl req);
             try discriminate;
             unfold ucb; destruct (lk_err _); try discriminate;
             destruct (found _); try discriminate;
             destruct (negb _); try discriminate;
             destruct (negb _); discriminate.
      * destruct (digest env req) as [| |u]; try discriminate.
        exists u. split; [reflexivity | right; reflexivity].
    + destruct (digest env req) as [| |u]; try discriminate.
      exists u. split; [reflexivity | right; reflexivity].
  - assert (N : h <> "") by (apply eqb_false_neq; exact E).
    rewrite (truthy_str_true _ h eq_refl N).
    destruct (auth2obj env h) as [obj|].
    2:{ split; [discriminate | reflexivity]. }
    destruct (tk_path obj) as [p|] eqn:Tp.
    2:{ split; [discriminate | reflexivity]. }
    destruct (String.eqb (JS.replace (basePath env) "/" p) (url req)) eqn:Ep; simpl.
    2:{ split; [discriminate | reflexivity]. }
    apply String.eqb_eq in Ep.
    unfold skewed. destruct (tk_date obj) as [d|] eqn:Td.
    + destruct (120000 <? Z.abs (now - d)) eqn:Et.
      * split; [discriminate | reflexivity].
      * apply Z.ltb_ge in Et. split.
        -- intros _. left. split; [exact N|]. exists obj, p.
           split; [reflexivity|]. split; [exact Tp|]. split; [exact Ep|].
           intros d' Hd. rewrite Td in Hd. inversion Hd; subst d'. exact Et.
        -- intros _ o Ho [Hp | (d' & Hd & Hl)]; inversion Ho; subst o.
           ++ exfalso. apply (Hp p); [exact Tp | exact Ep].
           ++ rewrite Td in Hd. inversion Hd; subst d'. lia.
    + split.
      * intros _. left. split; [exact N|]. exists obj, p.
        split; [reflexivity|]. split; [exact Tp|]. split; [exact Ep|].
        intros d' Hd. rewrite Td in Hd. discriminate Hd.
      * intros _ o Ho [Hp | (d' & Hd & Hl)]; inversion Ho; subst o.
        -- exfalso. apply (Hp p); [exact Tp | exact Ep].
        -- rewrite Td in Hd. discriminate Hd.
Qed.

Lemma peer_token_checked_witness :
  headers Inputs.peerRequest "x-moloch-auth" = Some "token" /\
  noAuthUrl (url Inputs.peerRequest) = false /\
  passedOn (passwordSecretAuth Inputs.viewer 1600000120000 Inputs.peerRequest) = true /\
  passedOn (passwordSecretAuth Inputs.viewer 1600000120001 Inputs.peerRequest) = false /\
  headers Inputs.emptyTokenRequest "x-moloch-auth" = Some "" /\
  exists u, passwordSecretAuth Inputs.browserViewer 1600000120000 Inputs.emptyTokenRequest
            = Next (Some u).
Proof.
  assert (H1 : headers Inputs.peerRequest "x-moloch-auth" = Some "token") by reflexivity.
  assert (H3 : noAuthUrl (url Inputs.peerRequest) = false) by reflexivity.
  assert (H4 : headers Inputs.emptyTokenRequest "x-moloch-auth" = Some "") by reflexivity.
  assert (H5 : noAuthUrl (url Inputs.emptyTokenRequest) = false) by reflexivity.
  split; [exact H1|]. split; [exact H3|].
  split; [reflexivity|].
  split; [|split; [exact H4|]].
  - apply (proj2 (peer_token_checked Inputs.viewer 1600000120001 Inputs.peerRequest "token"
                    H1 H3)) with (obj := Inputs.token).
    + discriminate.
    + reflexivity.
    + right. exists 1600000000000. split; [reflexivity | vm_compute; reflexivity].
  - destruct (proj1 (peer_token_checked Inputs.browserViewer 1600000120000
                       Inputs.emptyTokenRequest "" H4 H5) eq_refl)
      as [[N _] | [_ (u & Hu & _)]].
    + contradiction N. reflexivity.
    + exists u. exact Hu.
Defined.

(** C9, as stated, fails: a peer request whose token is 120001 ms old is
    rejected with status 200 and a plain sentence as its body. *)
Lemma skewed_token_rejected_with_200 :
  passwordSecretAuth Inputs.viewer 1600000120001 Inputs.peerRequest
    = Sent {| statusCode := 200; body := clocksText |}
  /\ statusCode {| statusCode := 200; body := clocksText |} <> 403
  /\ body {| statusCode := 200; body := clocksText |}
     <> JS.stringify [("success", JS.ABool false); ("text", JS.AStr clocksText)].
Proof. split; [reflexivity | split; discriminate]. Qed.

(** C9, amended: a request that is answered on its way through the
    authentication middleware and a permission gate gets status 403 and the
    body [{success: false, text}] exactly when the permission gate denied it;
    every answer of the authentication middleware itself (timestamp skew,
    unknown or disabled user, missing header, digest error) leaves the status
    at 200. *)
Theorem rejection_status (env : Env) (now : Z) (req : Request) (perms : list string)
                         (res : Res) :
  guarded env now req perms = Sent res ->
  (passwordSecretAuth env now req = Sent res /\ statusCode res = 200)
  \/
  (passedOn (passwordSecretAuth env now req) = true /\
   statusCode res = 403 /\
   body res = JS.stringify [("success", JS.ABool false);
                            ("text", JS.AStr deniedText)]).
Proof.
  unfold guarded.
  destruct (passwordSecretAuth env now req) as [[u|]| r | a b | |] eqn:E; try discriminate.
  - intros H. right.
    destruct (checkPermissions_denies perms u) as [D | D]; rewrite D in H; [discriminate|].
    inversion H; subst res. repeat split.
  - intros H. inversion H; subst r. left. split; [reflexivity|].
    apply (middleware_sent_200 env now req). exact E.
Qed.

Lemma rejection_status_witness :
  guarded Inputs.viewer 1600000060000 Inputs.peerRequest ["packetSearch"]
    = Sent (molochError (Some 403) deniedText fresh)
  /\ statusCode (molochError (Some 403) deniedText fresh)
     = 403.
Proof.
  assert (G : guarded Inputs.viewer 1600000060000 Inputs.peerRequest ["packetSearch"]
              = Sent (molochError (Some 403)
                        deniedText fresh))
    by reflexivity.
  split; [exact G|].
  destruct (rejection_status _ _ _ _ _ G) as [[_ H] | [_ [H _]]].
  - discriminate H.
  - exact H.
Defined.

End HttpFacts.

(* ------------------------------------------------------------------------ *)
(** ** Hunts *)

Module HuntFacts.
Import Hunt.

(** *** What leaves the list of failed sessions alone *)

Lemma pauseHunt_ids now text fatal node h :
  failedSessionIds (pauseHunt now text fatal node h) = failedSessionIds h.
Proof. unfold pauseHunt. destruct fatal; reflexivity. Qed.

Lemma pauseHuntJobWithError_ids now text fatal node w :
  failedSessionIds (hunt (pauseHuntJobWithError now text fatal node w)) = failedSessionIds (hunt w).
Proof. through. apply pauseHunt_ids. Qed.

Lemma pageDone_ids nonEmpty err w :
  failedSessionIds (hunt (pageDone nonEmpty err w)) = failedSessionIds (hunt w).
Proof.
  unfold pageDone.
  destruct err, nonEmpty; try reflexivity;
    through; destruct (failedSessionIds (hunt w)) as [[|x l]|] eqn:E;
    through; rewrite ?E; reflexivity.
Qed.

Lemma failedDone_ids now w :
  failedSessionIds (hunt (failedDone now w)) = failedSessionIds (hunt w).
Proof.
  unfold failedDone.
  destruct (failedSessionIds (hunt w)) as [[|x l]|] eqn:E; through;
    try destruct (changes w); through; rewrite ?pauseHunt_ids, ?E; auto.
Qed.

Lemma finalCallback_ids now err w :
  failedSessionIds (hunt (finalCallback now err w)) = failedSessionIds (hunt w).
Proof.
  unfold finalCallback. destruct (called w); [reflexivity|].
  destruct (mode w); try reflexivity.
  - rewrite pageDone_ids. reflexivity.
  - rewrite failedDone_ids. reflexivity.
Qed.

Lemma launch_hunt env now it w : hunt (launch env now it w) = hunt w.
Proof.
  unfold launch. destruct it as [h|s]; [|reflexivity].
  destruct (noFiles (_source h)); [|reflexivity].
  destruct (updateHuntStats _ _ _ _); reflexivity.
Qed.

Lemma replenishFrom_ids env now items :
  forall w, failedSessionIds (hunt (replenishFrom env now items w)) = failedSessionIds (hunt w).
Proof.
  induction items as [|it rest IH]; intros w; cbn [replenishFrom];
    destruct (Nat.leb 3 (inFlight w)); try reflexivity.
  - destruct (Nat.eqb _ 0); [rewrite finalCallback_ids|]; reflexivity.
  - rewrite IH, launch_hunt. reflexivity.
Qed.

Lemma replenish_ids env now w :
  failedSessionIds (hunt (replenish env now w)) = failedSessionIds (hunt w).
Proof. unfold replenish. destruct (done w); [reflexivity | apply replenishFrom_ids]. Qed.

Lemma iterateeCallback_ids env now ep err w :
  failedSessionIds (hunt (iterateeCallback env now ep err w)) = failedSessionIds (hunt w).
Proof.
  unfold iterateeCallback. destruct (negb _); [reflexivity|].
  destruct err; try (rewrite finalCallback_ids; reflexivity).
  destruct (done w && _); [apply finalCallback_ids | apply replenish_ids].
Qed.

Lemma settle_ids env now b j s a w aft :
  failedSessionIds (hunt (settle env now b j s a (w, aft))) = failedSessionIds (hunt w).
Proof.
  unfold settle. destruct aft; try reflexivity.
  rewrite iterateeCallback_ids. reflexivity.
Qed.

Lemma settle_never env now b j s a w :
  hunt (settle env now b j s a (w, Never)) = hunt w
  /\ writes (settle env now b j s a (w, Never)) = writes w.
Proof. split; reflexivity. Qed.

(** *** The list of failed sessions holds no session twice *)

Lemma indexOf_None x a : indexOf x a = None -> ~ In x a.
Proof.
  induction a as [|y rest IH]; simpl; [tauto|].
  destruct (String.eqb y x) eqn:E; [discriminate|].
  destruct (indexOf x rest); [discriminate|].
  intros _ [H|H].
  - subst. rewrite String.eqb_refl in E. discriminate.
  - apply IH; auto.
Qed.

Lemma indexOf_Some x a i : indexOf x a = Some i -> In x a.
Proof.
  revert i. induction a as [|y rest IH]; simpl; [discriminate|].
  destruct (String.eqb y x) eqn:E.
  - intros _ _. left. apply String.eqb_eq. exact E.
  - destruct (indexOf x rest); [|discriminate]. intros _ _. right. eapply IH. reflexivity.
Qed.

Lemma NoDup_snoc (x : string) (a : list string) :
  NoDup a -> ~ In x a -> NoDup (a ++ [x]).
Proof.
  induction 1 as [|y l Hy Hl IH]; simpl; intros N.
  - constructor; [tauto | constructor].
  - constructor.
    + intros H. apply in_app_or in H. destruct H as [H|[H|[]]]; [tauto|].
      subst. apply N. left. reflexivity.
    + apply IH. intros H. apply N. right. exact H.
Qed.

Lemma NoDup_cut (a c b : list string) : NoDup (a ++ c ++ b) -> NoDup (a ++ b).
Proof.
  induction c as [|x c IH]; simpl; [tauto|].
  intros H. apply IH. eapply NoDup_remove_1. exact H.
Qed.

Lemma spliceAt_NoDup (i : option nat) (a : list string) : NoDup a -> NoDup (spliceAt i a).
Proof.
  intros H. destruct i as [k|]; unfold spliceAt.
  - apply (NoDup_cut _ (firstn 1 (skipn k a))).
    replace (skipn (S k) a) with (skipn 1 (skipn k a))
      by (rewrite skipn_skipn; reflexivity).
    rewrite (firstn_skipn 1 (skipn k a)), (firstn_skipn k). exact H.
  - destruct a as [|x l] using rev_ind; [exact H|].
    rewrite removelast_last.
    rewrite <- (app_nil_r l). apply (NoDup_cut l [x] []). exact H.
Qed.

Lemma skipSession_distinct now sessionId h :
  distinct h ->
  match skipSession now sessionId h with
  | inl h' => distinct h'
  | inr h' => distinct h'
  end.
Proof.
  unfold skipSession, distinct.
  destruct (failedSessionIds h) as [l|] eqn:E.
  - destruct (10000 <? _).
    + rewrite pauseHunt_ids, E. tauto.
    + destruct (indexOf sessionId l) eqn:I; through.
      * rewrite E. tauto.
      * intros H. apply NoDup_snoc; [exact H | apply indexOf_None; exact I].
  - through. intros _. constructor; [simpl; tauto | constructor].
Qed.

Lemma continueHuntSkipSession_distinct now session sessionId searched w :
  distinct (hunt w) ->
  distinct (hunt (fst (continueHuntSkipSession now session sessionId searched w))).
Proof.
  intros H. unfold continueHuntSkipSession.
  pose proof (skipSession_distinct now sessionId (hunt w) H) as D.
  destruct (skipSession now sessionId (hunt w)); exact D.
Qed.

Lemma distinct_ids h h' : failedSessionIds h' = failedSessionIds h -> distinct h -> distinct h'.
Proof. unfold distinct. intros ->. tauto. Qed.

Lemma continueHuntSkipSession_keeps now session sessionId searched w w' aft :
  continueHuntSkipSession now session sessionId searched w = (w', aft) ->
  distinct (hunt w) -> distinct (hunt w').
Proof.
  intros C D. change w' with (fst (w', aft)). rewrite <- C.
  apply continueHuntSkipSession_distinct. exact D.
Qed.

Lemma sessionHunted_distinct now j a w w' aft :
  sessionHunted now j a w = Some (w', aft) -> distinct (hunt w) -> distinct (hunt w').
Proof.
  unfold sessionHunted. intros H D.
  destruct (j_wait j), a; try discriminate;
    repeat match type of H with
           | context [if ?c then _ else _] => destruct c
           end;
    inversion H; subst; clear H;
    try (eapply continueHuntSkipSession_keeps; eassumption);
    try (eapply distinct_ids; [|exact D]; through; rewrite ?pauseHunt_ids; reflexivity);
    unfold distinct in *; through;
    destruct (failedSessionIds (hunt w)); apply spliceAt_NoDup;
    first [exact D | constructor].
Qed.

Lemma getMoreUntilDone_ids env now r w :
  failedSessionIds (hunt (getMoreUntilDone env now r w)) = failedSessionIds (hunt w).
Proof.
  unfold getMoreUntilDone. destruct r as [total hits|err].
  - rewrite replenish_ids. through.
    destruct (counter w); [reflexivity|].
    destruct (negb _); reflexivity.
  - through. apply pauseHunt_ids.
Qed.

Lemma step_distinct env now e w w' :
  step env now e w = Some w' -> distinct (hunt w) -> distinct (hunt w').
Proof.
  unfold step. destruct (uncaught w); [discriminate|].
  destruct e as [r | s a | s a | s err session].
  - destruct (mode w); try discriminate. intros H D. inversion H; subst.
    eapply distinct_ids; [apply getMoreUntilDone_ids | exact D].
  - destruct (pick _ _) as [[[b j] af]|]; [|discriminate].
    destruct (sessionHunted now j a w) as [[w1 aft]|] eqn:S; [|discriminate].
    intros H D. inversion H; subst.
    eapply distinct_ids; [apply settle_ids|].
    eapply sessionHunted_distinct; eassumption.
  - destruct (pick _ _) as [[[b j] af]|]; [|discriminate].
    destruct (j_wait j); try discriminate.
    intros H D. inversion H; subst.
    destruct (gotHunt env now searched lastPacketTime0 now0 a w) as [w1 aft] eqn:G.
    eapply distinct_ids; [apply settle_ids|].
    unfold gotHunt in G. destruct a; inversion G; subst; exact D.
  - destruct (pick _ _) as [[[b j] af]|]; [|discriminate].
    unfold sessionFetched. destruct (j_wait j); try discriminate.
    destruct err.
    + intros H D. inversion H; subst.
      destruct (continueHuntSkipSession now session (j_sid j) None w) as [w1 aft] eqn:C.
      eapply distinct_ids; [apply settle_ids|].
      eapply continueHuntSkipSession_keeps; eassumption.
    + destruct session; intros H D; inversion H; subst; exact D.
Qed.

Lemma run_distinct env trace :
  forall clock w w', run env clock trace w = Some w' -> distinct (hunt w) -> distinct (hunt w').
Proof.
  induction trace as [|[now e] rest IH]; simpl; intros clock w w'.
  - intros H D. inversion H; subst. exact D.
  - destruct (now <? clock); [discriminate|].
    destruct (step env now e w) as [w1|] eqn:S; [|discriminate].
    intros H D. eapply IH; [exact H|]. eapply step_distinct; eassumption.
Qed.

Lemma skips_distinct calls :
  forall w, distinct (hunt w) -> distinct (hunt (skips calls w)).
Proof.
  unfold skips. induction calls as [|c rest IH]; simpl; intros w D; [exact D|].
  apply IH. apply continueHuntSkipSession_distinct. exact D.
Qed.

(** C10, as stated, fails: [POST /hunt] goes on with the object of the
    request body, so a hunt can be created with a list of failed sessions
    that names a session twice; the job runner gets that list, and it still
    names the session twice after calls of [continueHuntSkipSession]. *)
Lemma posted_duplicates_stay :
  exists c,
    Jobs.newHunt false 10000000 1000000 100 (Cases.hunter "alice") (Some Cases.twiceFailed)
    = inr c /\
    failedSessionIds (Jobs.document c) = Some ["s1"; "s1"] /\
    ~ distinct (hunt (processHuntJob Inputs.remoteViewer 100 None (Jobs.document c))) /\
    failedSessionIds (hunt (skips Inputs.retries (start (Jobs.document c))))
    = Some ["s1"; "s1"; "s2"] /\
    ~ distinct (hunt (skips Inputs.retries (start (Jobs.document c)))).
Proof.
  eexists. split; [reflexivity|]. split; [reflexivity|].
  assert (N : forall l, ~ NoDup ("s1" :: "s1" :: l)).
  { intros l H. inversion H as [|x r Hx _]; subst. apply Hx. left. reflexivity. }
  split; [|split; [reflexivity|]]; apply N.
Qed.

Lemma runHuntJobIn_ids env now regexError w :
  failedSessionIds (hunt (runHuntJobIn env now regexError w)) = failedSessionIds (hunt w).
Proof.
  unfold runHuntJobIn.
  set (w0 := match regexError with Some e => _ | None => w end).
  assert (E : failedSessionIds (hunt w0) = failedSessionIds (hunt w)).
  { subst w0. destruct regexError; [apply pauseHuntJobWithError_ids | reflexivity]. }
  rewrite <- E.
  destruct (failedSessionIds (hunt w0)) as [[|x l]|] eqn:F; try (through; exact F).
  destruct (searchedSessions (hunt w0) =? totalSessions (hunt w0)); [|through; exact F].
  rewrite replenish_ids. through. exact F.
Qed.

Lemma newHunt_failedSessionIds multiES adminLimit limit now user h c :
  Jobs.newHunt multiES adminLimit limit now user (Some h) = inr c ->
  failedSessionIds (Jobs.document c) = Jobs.n_failedSessionIds h.
Proof.
  unfold Jobs.newHunt, Jobs.refuse. destruct multiES; [discriminate|].
  repeat (match goal with
          | |- (if ?b then inl _ else _) = inr _ -> _ => destruct b eqn:?; [discriminate|]
          end).
  destruct (Jobs.n_query h) as [[[s|] [e|]]|]; try discriminate.
  destruct (Jobs.n_searchType h) as [st|]; [|discriminate].
  destruct (String.eqb st ""); [discriminate|].
  destruct (existsb (String.eqb st) Jobs.searchTypes); [|discriminate]. cbn [negb].
  destruct (Jobs.n_type h) as [ty|]; [|discriminate].
  destruct (String.eqb ty ""); [discriminate|].
  destruct (negb (String.eqb ty "raw") && negb (String.eqb ty "reassembled")); [discriminate|].
  destruct (_ <? _); [discriminate|].
  intros H. inversion H; subst c. reflexivity.
Qed.

(** A hunt that [POST /hunt] made from a body without a list of failed
    sessions never gets a list that names a session twice. *)
Lemma created_hunt_stays_distinct multiES adminLimit limit now user h c env start0
                                  regexError trace w' :
  Jobs.n_failedSessionIds h = None ->
  Jobs.newHunt multiES adminLimit limit now user (Some h) = inr c ->
  run env start0 trace (processHuntJob env start0 regexError (Jobs.document c)) = Some w' ->
  distinct (hunt w').
Proof.
  intros N C R. eapply run_distinct; [exact R|].
  unfold distinct, processHuntJob. rewrite runHuntJobIn_ids. unfold start. through.
  rewrite (newHunt_failedSessionIds _ _ _ _ _ _ _ C), N. exact I.
Qed.

(** C10, amended: a list of failed sessions that holds no session twice (or
    does not exist yet, as for a hunt created without one) still holds none
    twice after any sequence of calls of [continueHuntSkipSession], and after
    any callbacks of a run, retries and removals included. *)
Theorem failed_sessions_stay_distinct (env : Env) (calls : list Skip) (clock : Z)
                                      (trace : list (Z * Event)) (w : World) :
  distinct (hunt w) ->
  distinct (hunt (skips calls w))
  /\ forall w', run env clock trace w = Some w' -> distinct (hunt w').
Proof.
  intros D. split.
  - apply skips_distinct. exact D.
  - intros w' R. eapply run_distinct; eassumption.
Qed.

Lemma failed_sessions_stay_distinct_witness :
  distinct (hunt (start Inputs.newHunt)) /\
  failedSessionIds (hunt (skips Inputs.retries (start Inputs.newHunt))) = Some ["s1"; "s2"] /\
  distinct (hunt (skips Inputs.retries (start Inputs.newHunt))).
Proof.
  assert (D : distinct (hunt (start Inputs.newHunt))) by exact I.
  split; [exact D|]. split; [reflexivity|].
  exact (proj1 (failed_sessions_stay_distinct Inputs.localViewer Inputs.retries 0 []
                  (start Inputs.newHunt) D)).
Defined.

(** *** Unreachable sessions are recorded, up to the cap *)

Lemma lastError_pauseHunt now text fatal node h :
  lastError (pauseHunt now text fatal node h) = Some text.
Proof.
  unfold pauseHunt, lastError. through.
  destruct fatal; through; destruct (errors h) as [es|];
    try rewrite rev_unit; reflexivity.
Qed.

Lemma indexOf_In x a : In x a -> exists i, indexOf x a = Some i.
Proof.
  induction a as [|y rest IH]; simpl; [tauto|].
  destruct (String.eqb y x) eqn:E; [eauto|].
  intros [H|H].
  - subst. rewrite String.eqb_refl in E. discriminate.
  - destruct (IH H) as [i ->]. eauto.
Qed.

Lemma skipSession_spec now sessionId h :
  if overCap h
  then exists h', skipSession now sessionId h = inl h' /\
                  status h' = paused /\ lastError h' = Some tooMany /\
                  failedSessionIds h' = failedSessionIds h
  else exists h', skipSession now sessionId h = inr h' /\ recorded sessionId h'.
Proof.
  unfold overCap, skipSession, recorded.
  destruct (failedSessionIds h) as [l|] eqn:E.
  - destruct (10000 <? Z.of_nat (List.length l)).
    + eexists. split; [reflexivity|]. split; [destruct h; reflexivity|].
      split; [apply lastError_pauseHunt|]. rewrite pauseHunt_ids. exact E.
    + destruct (indexOf sessionId l) eqn:I.
      * exists h. split; [reflexivity|]. rewrite E. eapply indexOf_Some. exact I.
      * eexists. split; [reflexivity|]. through. apply in_or_app. right. left. reflexivity.
  - eexists. split; [reflexivity|]. through. left. reflexivity.
Qed.

Lemma continueHuntSkipSession_spec now session sessionId searched w :
  if overCap (hunt w)
  then exists w', continueHuntSkipSession now session sessionId searched w = (w', Never) /\
                  status (hunt w') = paused /\ lastError (hunt w') = Some tooMany /\
                  failedSessionIds (hunt w') = failedSessionIds (hunt w) /\
                  writes w' = (writes w ++ [(ErrorPause, hunt w')])%list
  else recorded sessionId (hunt (fst (continueHuntSkipSession now session sessionId searched w))).
Proof.
  unfold continueHuntSkipSession.
  pose proof (skipSession_spec now sessionId (hunt w)) as S.
  destruct (overCap (hunt w)).
  - destruct S as (h' & -> & P & L & F). eexists. split; [reflexivity|]. through. auto.
  - destruct S as (h' & -> & R). exact R.
Qed.

Lemma recorded_ids sessionId h h' :
  failedSessionIds h' = failedSessionIds h -> recorded sessionId h -> recorded sessionId h'.
Proof. unfold recorded. intros ->. tauto. Qed.

Lemma settle_skip env now b j s a session sessionId searched w :
  let w' := settle env now b j s a (continueHuntSkipSession now session sessionId searched w) in
  if overCap (hunt w)
  then status (hunt w') = paused /\ lastError (hunt w') = Some tooMany /\
       failedSessionIds (hunt w') = failedSessionIds (hunt w) /\
       exists before, writes w' = (before ++ [(ErrorPause, hunt w')])%list
  else recorded sessionId (hunt w').
Proof.
  intros w'. subst w'.
  pose proof (continueHuntSkipSession_spec now session sessionId searched w) as C.
  destruct (overCap (hunt w)).
  - destruct C as (w1 & -> & P & L & F & W).
    destruct (settle_never env now b j s a w1) as [-> ->]. eauto.
  - destruct (continueHuntSkipSession now session sessionId searched w) as [w1 aft].
    eapply recorded_ids; [apply settle_ids | exact C].
Qed.

Lemma pick_holds p l b j a : pick p l = Some (b, j, a) -> p j = true.
Proof.
  revert b. induction l as [|x rest IH]; simpl; intros b; [discriminate|].
  destruct (p x) eqn:E.
  - intros H. inversion H; subst. exact E.
  - destruct (pick p rest) as [[[b' j'] a']|]; [|discriminate].
    intros H. inversion H; subst. eapply IH. reflexivity.
Qed.

Lemma pick_first p (b : list Job) j a :
  Forall (fun x => p x = false) b -> p j = true -> pick p (b ++ j :: a) = Some (b, j, a).
Proof.
  intros F P. induction F as [|x b Hx _ IH]; simpl.
  - rewrite P. reflexivity.
  - rewrite Hx, IH. reflexivity.
Qed.

Lemma pick_session (q : Wait -> bool) sessionId (b : list Job) j a :
  Forall (fun x => j_sid x <> sessionId) b -> j_sid j = sessionId -> q (j_wait j) = true ->
  pick (fun x => String.eqb (j_sid x) sessionId && q (j_wait x)) (b ++ j :: a)
  = Some (b, j, a).
Proof.
  intros F S Q. apply pick_first.
  - eapply Forall_impl; [|exact F]. intros x N. cbv beta.
    destruct (String.eqb (j_sid x) sessionId) eqn:E; [|reflexivity].
    apply String.eqb_eq in E. contradiction.
  - cbv beta. rewrite S, String.eqb_refl, Q. reflexivity.
Qed.

(** C6, as stated, fails: a session of this node whose packets cannot be
    read in the scan is not added to the list of failed sessions.
    [sessionHunt] answers [cb(null, false)] for it, and [runHuntJob] goes on
    as after a search without a match: the session is counted, the next one
    starts, the hunt keeps running. *)
Lemma unreadable_local_session_not_recorded :
  exists a w,
    LocalHunt.answer Cases.latin1 Cases.lower Cases.finds (fun _ => true) Cases.sourceHunt None
    = Some a /\
    run Inputs.localViewer 100
        [(100, Searched (Hits 4 Inputs.page)); (101, Hunted "s1" a)]
        (processHuntJob Inputs.localViewer 100 None Inputs.newHunt) = Some w /\
    failedSessionIds (hunt w) = None /\
    ~ recorded "s1" (hunt w) /\
    status (hunt w) = running /\
    counter w = Some 4 /\
    map j_sid (busy w) = ["s2"; "s3"; "s4"].
Proof.
  eexists. eexists. split; [reflexivity|]. split; [vm_compute; reflexivity|].
  split; [reflexivity|]. split; [intros H; exact H|]. repeat split.
Qed.

(** C6, amended: when the request to the node that owns a session fails, in
    the scan or in the pass over the failed sessions, or the document of the
    session cannot be fetched in the pass over the failed sessions, the
    callback runs and, unless the list of failed sessions already holds more
    than 10000 entries, the session is in the list afterwards; if it holds
    more than 10000, the hunt is paused with the error about too many
    unreachable sessions, the paused hunt is written, and the list is left as
    it was.  The session is the first in flight of its id. *)
Theorem unreachable_session_recorded (env : Env) (now : Z) (sessionId : string) (e : Event)
                                     (w : World) (b a : list Job) (j : Job) :
  uncaught w = false ->
  busy w = (b ++ j :: a)%list ->
  Forall (fun x => j_sid x <> sessionId) b ->
  j_sid j = sessionId ->
  ((j_wait j = WRequest \/ j_wait j = WRequestFailed) /\ e = Hunted sessionId RequestError)
  \/ (j_wait j = WGetSession /\ exists s, e = Fetched sessionId true s) ->
  exists w',
    step env now e w = Some w' /\
    if overCap (hunt w)
    then status (hunt w') = paused /\ lastError (hunt w') = Some tooMany /\
         failedSessionIds (hunt w') = failedSessionIds (hunt w) /\
         exists before, writes w' = (before ++ [(ErrorPause, hunt w')])%list
    else recorded sessionId (hunt w').
Proof.
  intros U B F S E. unfold step. rewrite U, B.
  destruct E as [[J ->] | [J [s ->]]].
  - rewrite (pick_session awaitsAnswer sessionId b j a F S)
      by (destruct J as [-> | ->]; reflexivity).
    unfold sessionHunted. rewrite <- S.
    destruct J as [-> | ->]; eexists; (split; [reflexivity|]); apply settle_skip.
  - rewrite (pick_session awaitsSession sessionId b j a F S) by (rewrite J; reflexivity).
    unfold sessionFetched. rewrite J, <- S.
    eexists. split; [reflexivity|]. apply settle_skip.
Qed.

Lemma unreachable_session_recorded_witness :
  (exists w', step Inputs.remoteViewer 101 (Hunted "s1" RequestError)
                   (Inputs.asking Inputs.newHunt) = Some w'
              /\ recorded "s1" (hunt w'))
  /\
  (exists w', step Inputs.remoteViewer 101 (Hunted "s1" RequestError)
                   (Inputs.asking Inputs.swamped) = Some w'
              /\ status (hunt w') = paused
              /\ lastError (hunt w') = Some tooMany
              /\ failedSessionIds (hunt w') = failedSessionIds Inputs.swamped)
  /\
  (exists w', step Inputs.remoteViewer 201 (Fetched "s2" true None) Inputs.retrying = Some w'
              /\ recorded "s2" (hunt w')).
Proof.
  assert (A : forall h, h = Inputs.newHunt \/ h = Inputs.swamped ->
              exists j a,
                busy (Inputs.asking h) = ([] ++ j :: a)%list /\ j_sid j = "s1" /\
                j_wait j = WRequest).
  { intros h H. remember (busy (Inputs.asking h)) as l eqn:B.
    destruct H as [-> | ->]; vm_compute in B;
      match type of B with
      | _ = ?j :: ?a => exists j, a; split; [exact B | split; reflexivity]
      end. }
  assert (R : exists j1 j2,
              busy Inputs.retrying = ([j1] ++ j2 :: [])%list /\ j_sid j1 <> "s2" /\
              j_sid j2 = "s2" /\ j_wait j2 = WGetSession).
  { remember (busy Inputs.retrying) as l eqn:B. vm_compute in B.
    match type of B with
    | _ = [?j1; ?j2] =>
        exists j1, j2; split; [exact B | split; [discriminate | split; reflexivity]]
    end. }
  split; [|split].
  - destruct (A Inputs.newHunt (or_introl eq_refl)) as (j & a & B & S & J).
    destruct (unreachable_session_recorded Inputs.remoteViewer 101 "s1"
                (Hunted "s1" RequestError) (Inputs.asking Inputs.newHunt) [] a j
                eq_refl B (Forall_nil _) S (or_introl (conj (or_introl J) eq_refl)))
      as (w' & St & P).
    exists w'. split; [exact St | exact P].
  - destruct (A Inputs.swamped (or_intror eq_refl)) as (j & a & B & S & J).
    destruct (unreachable_session_recorded Inputs.remoteViewer 101 "s1"
                (Hunted "s1" RequestError) (Inputs.asking Inputs.swamped) [] a j
                eq_refl B (Forall_nil _) S (or_introl (conj (or_introl J) eq_refl)))
      as (w' & St & P).
    exists w'. split; [exact St|].
    change (overCap (hunt (Inputs.asking Inputs.swamped))) with true in P.
    destruct P as (P1 & P2 & P3 & _). split; [exact P1|]. split; [exact P2 | exact P3].
  - destruct R as (j1 & j2 & B & N & S & J).
    destruct (unreachable_session_recorded Inputs.remoteViewer 201 "s2"
                (Fetched "s2" true None) Inputs.retrying [j1] [] j2
                eq_refl B (Forall_cons (P := fun x => j_sid x <> "s2") j1 N (Forall_nil _)) S
                (or_intror (conj J (ex_intro _ None eq_refl))))
      as (w' & St & P).
    exists w'. split; [exact St | exact P].
Defined.

(** *** Progress counters under overlapping checkpoints *)

(** C1 does not hold of the code.  In the first run the second checkpoint
    writes 4 matched sessions with 3 searched: its request for the hunt
    document was made when the counter stood at 3, and two more sessions were
    searched and matched before the answer came.  In the second run the
    checkpoints write 3, then 4, then 3 searched sessions: the answer to an
    earlier request arrives after a later checkpoint. *)
Theorem overlapping_checkpoints_lose_progress :
  written Inputs.localViewer 100 Inputs.newHunt Inputs.overlap
    = Some [(3, 4, 2); (3, 4, 4); (4, 4, 4)]
  /\
  written Inputs.localViewer 100 Inputs.newHunt Inputs.lateAnswer
    = Some [(3, 4, 0); (4, 4, 0); (3, 4, 0)].
Proof. split; vm_compute; reflexivity. Qed.

End HuntFacts.

(* ------------------------------------------------------------------------ *)
(** ** Hunts: the searched sessions stay within the total *)

Module ProgressFacts.
Import Hunt.

Lemma progress_dbSetHunt o w :
  progress (dbSetHunt o w) =
    match o with
    | Checkpoint | EndOfScan => (progress w ++ [hunt w])%list
    | _ => progress w
    end.
Proof.
  unfold progress, dbSetHunt. cbn [writes hunt].
  rewrite filter_app, map_app. destruct o; cbn; rewrite ?app_nil_r; reflexivity.
Qed.

Lemma pauseHunt_counters now text fatal node h :
  searchedSessions (pauseHunt now text fatal node h) = searchedSessions h /\
  totalSessions (pauseHunt now text fatal node h) = totalSessions h.
Proof. unfold pauseHunt. destruct fatal; split; reflexivity. Qed.

Lemma fits_same w w' j :
  counter w' = counter w -> totalSessions (hunt w') = totalSessions (hunt w) ->
  fits w j -> fits w' j.
Proof. unfold fits. intros -> ->. tauto. Qed.

(** The invariant reads the counter, the requests in flight, the two counters
    of the hunt and the documents written, and nothing else. *)
Lemma soundN_same n B w w' :
  counter w' = counter w -> busy w' = busy w ->
  totalSessions (hunt w') = totalSessions (hunt w) ->
  searchedSessions (hunt w') = searchedSessions (hunt w) ->
  progress w' = progress w ->
  soundN n B w -> soundN n B w'.
Proof.
  intros C Bu T S P (H1 & H2 & H3 & H4). unfold soundN, within, room in *.
  rewrite P, S, T, C, Bu. repeat split; auto.
  eapply Forall_impl; [|exact H3]. intros j. apply fits_same; auto.
Qed.

Lemma soundN_less n m B w : (m <= n)%nat -> soundN n B w -> soundN m B w.
Proof.
  intros L (H1 & H2 & H3 & H4). repeat split; auto.
  unfold room in *. destruct (counter w); [|exact I]. lia.
Qed.

Lemma pause_sound n B now text fatal node w :
  soundN n B w -> soundN n B (pauseHuntJobWithError now text fatal node w).
Proof.
  apply soundN_same; try reflexivity.
  - apply (pauseHunt_counters now text fatal node (hunt w)).
  - apply (pauseHunt_counters now text fatal node (hunt w)).
  - unfold pauseHuntJobWithError. rewrite progress_dbSetHunt. reflexivity.
Qed.

Lemma endOfScan_sound n B w h2 :
  soundN n B w ->
  searchedSessions h2 = totalSessions (hunt w) ->
  totalSessions h2 = totalSessions (hunt w) ->
  soundN n B (setMode Idle (dbSetHunt EndOfScan (setHunt h2 w))).
Proof.
  intros (H1 & H2 & H3 & H4) S T. unfold soundN. split; [|split; [|split]].
  - change (progress (setMode Idle ?x)) with (progress x).
    rewrite progress_dbSetHunt. apply Forall_app. split; [exact H1|].
    constructor; [|constructor]. unfold within. through. lia.
  - unfold within. through. lia.
  - through. eapply Forall_impl; [|exact H3]. intros j.
    apply fits_same; [reflexivity | exact T].
  - unfold room in *. through. rewrite T. exact H4.
Qed.

Lemma pageDone_sound n B nonEmpty err w :
  soundN n B w -> soundN n B (pageDone nonEmpty err w).
Proof.
  intros H. unfold pageDone.
  destruct err, nonEmpty; try (revert H; apply soundN_same; reflexivity);
    through; destruct (failedSessionIds (hunt w)) as [[|x l]|];
    first [ exact (endOfScan_sound n B w
                     (setSearchedSessions (totalSessions (hunt w)) (hunt w))
                     H eq_refl eq_refl)
          | exact (endOfScan_sound n B w
                     (setStatus finished
                        (setSearchedSessions (totalSessions (hunt w)) (hunt w)))
                     H eq_refl eq_refl) ].
Qed.

Lemma failedDone_sound n B now w : soundN n B w -> soundN n B (failedDone now w).
Proof.
  intros H. unfold failedDone.
  destruct (failedSessionIds (hunt w)) as [[|x l]|]; try destruct (changes w);
    change (soundN n B (setMode Idle ?x)) with (soundN n B x) || idtac.
  all: first
    [ revert H; apply soundN_same; try reflexivity;
      change (progress (setMode Idle ?x)) with (progress x);
      rewrite progress_dbSetHunt; reflexivity
    | cut (soundN n B (pauseHuntJobWithError now unreachable false None w));
      [ apply soundN_same; reflexivity | apply pause_sound; exact H ] ].
Qed.

Lemma finalCallback_sound n B now err w :
  soundN n B w -> soundN n B (finalCallback now err w).
Proof.
  intros H. unfold finalCallback. destruct (called w); [exact H|].
  assert (H' : soundN n B (setEach (epoch w) (todo w) (done w) true w))
    by (revert H; apply soundN_same; reflexivity).
  destruct (mode w); try exact H'.
  - apply pageDone_sound. exact H'.
  - apply failedDone_sound. exact H'.
Qed.

Lemma todo_finalCallback now err w : todo (finalCallback now err w) = todo w.
Proof.
  unfold finalCallback. destruct (called w); [reflexivity|].
  destruct (mode w) as [| |nonEmpty|]; try reflexivity.
  - unfold pageDone. destruct err, nonEmpty; try reflexivity;
      through; destruct (failedSessionIds (hunt w)) as [[|x l]|]; reflexivity.
  - unfold failedDone. through.
    destruct (failedSessionIds (hunt w)) as [[|x l]|]; try destruct (changes w); reflexivity.
Qed.

Lemma setBusy_sound n B l w :
  soundN n B w -> Forall (fits w) l -> soundN n B (setBusy l w).
Proof.
  intros (H1 & H2 & H3 & H4) F. repeat split; auto.
Qed.

Lemma addJob_sound n B j w : soundN n B w -> fits w j -> soundN n B (addJob j w).
Proof.
  intros H F. apply setBusy_sound; [exact H|].
  destruct H as (_ & _ & H3 & _). apply Forall_app. split; [exact H3|].
  constructor; [exact F | constructor].
Qed.

(** A checkpoint that [updateHuntStats] requests with the counter of the run
    carries a count within the total. *)
Lemma update_fits n B now session w x s j :
  soundN n B w ->
  updateHuntStats now session (counter w) w = Waits x ->
  fits w (withWait x s j).
Proof.
  intros (_ & _ & _ & R) U. unfold updateHuntStats in U.
  destruct session as [ss|]; [|discriminate].
  destruct (2 <=? _); [|discriminate]. inversion U; subst x.
  unfold fits, room in *. cbn [j_wait withWait].
  destruct (counter w) as [c|]; [|exact I]. lia.
Qed.

Lemma update_fits_none now session w x s j :
  updateHuntStats now session None w = Waits x -> fits w (withWait x s j).
Proof.
  unfold updateHuntStats.
  destruct session as [ss|]; [|discriminate].
  destruct (2 <=? _); [|discriminate]. intros U. inversion U. exact I.
Qed.

Lemma launch_sound env now it n B w :
  soundN (S n) B w -> soundN n B (launch env now it w).
Proof.
  intros H. unfold launch. destruct it as [h|s].
  - set (w1 := setCounter match counter w with
                          | Some c => Some (c + 1)
                          | None => None
                          end w).
    assert (H1 : soundN n B w1).
    { destruct H as (P & W & F & R). unfold soundN, room, w1 in *. through.
      repeat split; auto.
      - eapply Forall_impl; [|exact F]. intros j. unfold fits. through.
        destruct (counter w); tauto.
      - destruct (counter w); [|exact I]. lia. }
    destruct (noFiles (_source h)).
    + destruct (updateHuntStats now (Some (_source h)) (counter w1) w1) as [| x | |] eqn:U;
        try exact H1.
      apply addJob_sound; [exact H1|].
      apply (update_fits n B now (Some (_source h)) w1 x (Some (_source h))
               {| j_sid := sid h; j_session := Some (_source h); j_wait := x;
                  j_epoch := epoch w1 |} H1 U).
    + apply addJob_sound; [exact H1|].
      unfold fits. cbn [j_wait]. destruct (isLocalView env _); exact I.
  - apply addJob_sound; [|exact I].
    apply (soundN_less (S n)); [lia | exact H].
Qed.

Lemma replenishFrom_sound env now B items :
  forall w, soundN (List.length items) B w -> sound B (replenishFrom env now items w).
Proof.
  induction items as [|it rest IH]; intros w H; cbn [replenishFrom];
    destruct (Nat.leb 3 (inFlight w)); try (exact H).
  - set (w1 := setEach (epoch w) [] true (called w) w).
    assert (H1 : soundN 0 B w1) by exact H.
    destruct (Nat.eqb (inFlight w1) 0); [|exact H1].
    unfold sound. rewrite todo_finalCallback. apply finalCallback_sound. exact H1.
  - apply IH. apply launch_sound. exact H.
Qed.

Lemma replenish_sound env now B w : sound B w -> sound B (replenish env now w).
Proof.
  intros H. unfold replenish. destruct (done w); [exact H|].
  apply replenishFrom_sound. exact H.
Qed.

Lemma iterateeCallback_sound env now ep err B w :
  sound B w -> sound B (iterateeCallback env now ep err w).
Proof.
  intros H. unfold iterateeCallback. destruct (negb _); [exact H|].
  assert (F : forall e v, sound B v -> sound B (finalCallback now e v)).
  { intros e v V. unfold sound. rewrite todo_finalCallback.
    apply finalCallback_sound. exact V. }
  destruct err; try (apply F; exact H).
  destruct (done w && _); [apply F; exact H | apply replenish_sound; exact H].
Qed.

Lemma settle_sound env now B b j s a w aft :
  sound B w ->
  busy w = (b ++ j :: a)%list ->
  (forall x, aft = Waits x -> fits w (withWait x s j)) ->
  sound B (settle env now b j s a (w, aft)).
Proof.
  intros H E X.
  assert (Fb : Forall (fits w) (b ++ a)).
  { destruct H as (_ & _ & F & _). rewrite E in F.
    apply Forall_app in F. destruct F as [F1 F2]. inversion F2; subst.
    apply Forall_app. split; assumption. }
  assert (Fj : forall j', fits w j' -> Forall (fits w) (b ++ j' :: a)).
  { intros j' J. destruct H as (_ & _ & F & _). rewrite E in F.
    apply Forall_app in F. destruct F as [F1 F2]. inversion F2; subst.
    apply Forall_app. split; [assumption | constructor; assumption]. }
  unfold settle. destruct aft as [c | x | |].
  - apply iterateeCallback_sound. apply (setBusy_sound _ B _ w H Fb).
  - apply (setBusy_sound _ B _ w H). apply Fj. apply X. reflexivity.
  - apply (setBusy_sound _ B _ w H). apply Fj. exact I.
  - apply (setBusy_sound _ B _ w H Fb).
Qed.

Lemma pick_split p l b j a : pick p l = Some (b, j, a) -> l = (b ++ j :: a)%list.
Proof.
  revert b. induction l as [|x rest IH]; simpl; intros b; [discriminate|].
  destruct (p x).
  - intros H. inversion H; subst. reflexivity.
  - destruct (pick p rest) as [[[b' j'] a']|]; [|discriminate].
    intros H. inversion H; subst. simpl. f_equal. apply IH. reflexivity.
Qed.

Lemma skipSession_counters now sessionId h :
  match skipSession now sessionId h with
  | inl h' | inr h' =>
      searchedSessions h' = searchedSessions h /\ totalSessions h' = totalSessions h
  end.
Proof.
  unfold skipSession.
  destruct (failedSessionIds h) as [l|]; [|split; reflexivity].
  destruct (10000 <? _); [apply pauseHunt_counters|].
  destruct (indexOf sessionId l); split; reflexivity.
Qed.

Lemma continueHuntSkipSession_handled B now session sessionId searched w s j :
  sound B w ->
  searched = counter w \/ searched = None ->
  handled B w s j (continueHuntSkipSession now session sessionId searched w).
Proof.
  intros H S. unfold continueHuntSkipSession.
  pose proof (skipSession_counters now sessionId (hunt w)) as K.
  destruct (skipSession now sessionId (hunt w)) as [h'|h']; destruct K as [K1 K2].
  - split; [|split; [reflexivity | intros x X; discriminate X]].
    revert H. apply soundN_same; try assumption; try reflexivity.
    cbn [fst]. rewrite progress_dbSetHunt. reflexivity.
  - assert (H' : sound B (setHunt h' w))
      by (revert H; apply soundN_same; try assumption; reflexivity).
    split; [exact H' | split; [reflexivity|]].
    cbn [fst snd]. intros x X. destruct S as [-> | ->].
    + eapply update_fits; [exact H' | exact X].
    + eapply update_fits_none. exact X.
Qed.

Lemma sessionHunted_handled B now j a w r :
  sound B w -> sessionHunted now j a w = Some r -> handled B w (j_session j) j r.
Proof.
  intros H. unfold sessionHunted.
  destruct (j_wait j), a; try discriminate;
    try (destruct (JS.truthy_str error));
    intros E; inversion E; subst r; clear E;
    try (apply continueHuntSkipSession_handled; auto; fail);
    try (split; [apply pause_sound; exact H
                | split; [reflexivity | intros x X; discriminate X]]; fail).
  all: match goal with
       | |- handled _ _ _ _ (?v, _) => set (w1 := v)
       end;
    assert (H1 : sound B w1)
      by (unfold w1; try destruct matched;
          first [exact H | revert H; apply soundN_same; reflexivity]);
    (split; [exact H1 | split; [unfold w1; try destruct matched; reflexivity|]]);
    cbn [fst snd]; intros x X;
    first [ eapply update_fits; [exact H1 | exact X]
          | eapply update_fits_none; exact X ].
Qed.

Lemma num_or_within (p : option Z) (s t : Z) :
  s <= t -> (forall x, p = Some x -> x <= t) -> JS.num_or p s <= t.
Proof.
  intros S P. unfold JS.num_or. destruct p as [x|]; [|exact S].
  destruct (x =? 0); [exact S | apply P; reflexivity].
Qed.

Lemma gotHunt_handled B env now searched lpt now0 a w s j :
  sound B w ->
  fits w j -> j_wait j = WGet searched lpt now0 ->
  handled B w s j (gotHunt env now searched lpt now0 a w).
Proof.
  intros H F J. unfold gotHunt. destruct a as [|err|st].
  - split; [exact H | split; [reflexivity | intros x X; discriminate X]].
  - split; [apply pause_sound; exact H | split; [reflexivity | intros x X; discriminate X]].
  - split; [|split; [reflexivity | intros x X; discriminate X]].
    cbn [fst]. destruct H as (H1 & H2 & H3 & H4).
    assert (N : JS.num_or searched (searchedSessions (hunt w)) <= totalSessions (hunt w)).
    { apply num_or_within; [exact H2|].
      intros x ->. unfold fits in F. rewrite J in F.
      destruct (counter w); [exact F | destruct F]. }
    split; [|split; [|split]].
    + rewrite progress_dbSetHunt. apply Forall_app. split; [exact H1|].
      constructor; [exact N | constructor].
    + exact N.
    + eapply Forall_impl; [|exact H3]. intros k. apply fits_same; reflexivity.
    + exact H4.
Qed.

Lemma sessionFetched_handled B now j err session w r s :
  sound B w -> sessionFetched now j err session w = Some (r, s) -> handled B w s j r.
Proof.
  intros H. unfold sessionFetched. destruct (j_wait j); try discriminate.
  destruct err.
  - intros E. inversion E; subst. apply continueHuntSkipSession_handled; auto.
  - destruct session; intros E; inversion E; subst;
      (split; [exact H | split; [reflexivity|]]); intros x X; inversion X. exact I.
Qed.

Lemma delivered_nonneg trace : 0 <= delivered trace.
Proof.
  induction trace as [|[now e] rest IH]; simpl; [lia|].
  destruct e as [[t hits|err]| | |]; lia.
Qed.

Lemma num_or_self (x : Z) : JS.num_or (Some x) 0 = x.
Proof. unfold JS.num_or. destruct (x =? 0) eqn:E; [apply Z.eqb_eq in E; lia | reflexivity]. Qed.

Lemma getMoreUntilDone_sound env now B total hits w :
  sound (Z.of_nat (List.length hits) + B) w ->
  0 <= B -> Z.of_nat (List.length hits) + B <= total ->
  sound B (getMoreUntilDone env now (Hits total hits) w).
Proof.
  intros (H1 & H2 & H3 & H4) B0 T. unfold getMoreUntilDone.
  apply replenish_sound. unfold sound. through. rewrite length_map.
  destruct (counter w) as [c|] eqn:C.
  - split; [exact H1 | split; [exact H2 | split; [exact H3|]]].
    unfold room in *. through. rewrite C in *. lia.
  - rewrite num_or_self.
    assert (F : forall v, counter v = Some (searchedSessions (hunt w)) ->
                          Forall (fits v) (busy w)).
    { intros v V. eapply Forall_impl; [|exact H3]. intros j. unfold fits.
      destruct (j_wait j) as [| | [p|] ? ? | | |]; try tauto. rewrite C. tauto. }
    unfold within in H2.
    destruct (totalSessions (hunt w) =? total + searchedSessions (hunt w)) eqn:Q;
      cbn [negb]; [apply Z.eqb_eq in Q|];
      (split; [exact H1 | split; [|split]]);
      try (apply F; reflexivity);
      unfold within, room; through; lia.
Qed.

Lemma step_tracked env now e rest w w' :
  tracked ((now, e) :: rest) w -> step env now e w = Some w' -> tracked rest w'.
Proof.
  intros [H F]. unfold step. destruct (uncaught w); [discriminate|].
  destruct e as [r | s a | s a | s err session].
  - destruct (mode w); try discriminate. intros E. inversion E; subst w'. clear E.
    destruct r as [total hits|err].
    + cbn [faithful delivered] in *. destruct F as [F1 F2]. split; [|exact F2].
      apply getMoreUntilDone_sound; auto. apply delivered_nonneg.
    + split; [|exact F]. unfold getMoreUntilDone.
      cut (sound (delivered rest)
             (pauseHuntJobWithError now ("Hunt error searching sessions: " ++ err)
                                    false None w));
        [apply soundN_same; reflexivity | apply pause_sound; exact H].
  - destruct (pick _ _) as [[[b j] af]|] eqn:P; [|discriminate].
    destruct (sessionHunted now j a w) as [r|] eqn:S; [|discriminate].
    intros E. inversion E; subst w'. clear E. split; [|exact F].
    destruct (sessionHunted_handled _ _ _ _ _ _ H S) as (R1 & R2 & R3).
    destruct r as [w1 aft]. apply settle_sound; auto.
    cbn [fst] in R2. rewrite R2. eapply pick_split. exact P.
  - destruct (pick _ _) as [[[b j] af]|] eqn:P; [|discriminate].
    destruct (j_wait j) as [| | searched lpt now0 | | |] eqn:J; try discriminate.
    intros E. inversion E; subst w'. clear E. split; [|exact F].
    assert (Fj : fits w j).
    { destruct H as (_ & _ & Fb & _). rewrite (pick_split _ _ _ _ _ P) in Fb.
      apply Forall_app in Fb. destruct Fb as [_ Fb]. inversion Fb; assumption. }
    destruct (gotHunt_handled (delivered rest) env now searched lpt now0 a w (j_session j) j
                H Fj J) as (R1 & R2 & R3).
    destruct (gotHunt env now searched lpt now0 a w) as [w1 aft]. apply settle_sound; auto.
    cbn [fst] in R2. rewrite R2. eapply pick_split. exact P.
  - destruct (pick _ _) as [[[b j] af]|] eqn:P; [|discriminate].
    destruct (sessionFetched now j err session w) as [[r s']|] eqn:S; [|discriminate].
    intros E. inversion E; subst w'. clear E. split; [|exact F].
    destruct (sessionFetched_handled _ _ _ _ _ _ _ _ H S) as (R1 & R2 & R3).
    destruct r as [w1 aft]. apply settle_sound; auto.
    cbn [fst] in R2. rewrite R2. eapply pick_split. exact P.
Qed.

Lemma run_tracked env trace :
  forall clock w w',
    tracked trace w -> run env clock trace w = Some w' -> Forall within (progress w').
Proof.
  induction trace as [|[now e] rest IH]; simpl; intros clock w w' T.
  - intros E. inversion E; subst. destruct T as [(P & _) _]. exact P.
  - destruct (now <? clock); [discriminate|].
    destruct (step env now e w) as [w1|] eqn:S; [|discriminate].
    apply IH. eapply step_tracked; eassumption.
Qed.

Lemma processHuntJob_tracked env now regexError h trace :
  within h -> faithful trace -> tracked trace (processHuntJob env now regexError h).
Proof.
  intros W F. split; [|exact F].
  unfold processHuntJob, runHuntJobIn.
  set (w0 := match regexError with
             | Some e => pauseHuntJobWithError now _ true None _
             | None => _
             end).
  assert (H0 : forall n, soundN n (delivered trace) w0).
  { intros n. unfold w0. destruct regexError;
      (split; [constructor | split; [exact W | split; [constructor | exact I]]]). }
  destruct (failedSessionIds (hunt w0)) as [[|x l]|]; try apply (H0 _).
  destruct (searchedSessions (hunt w0) =? totalSessions (hunt w0)); [|apply (H0 _)].
  apply replenish_sound. apply (H0 _).
Qed.

(** Whatever the order of the callbacks: when the hunt document starts with
    its searched sessions within the total and the scroll delivers no more
    hits than it announces, every checkpoint and the end of the scan write a
    document whose searched sessions are within its total. *)
Lemma searched_within_total env now regexError h trace w :
  within h -> faithful trace ->
  run env now trace (processHuntJob env now regexError h) = Some w ->
  Forall within (progress w).
Proof.
  intros W F R. eapply run_tracked; [|exact R].
  apply processHuntJob_tracked; assumption.
Qed.

(** The run with overlapping checkpoints is such a run. *)
Lemma searched_within_total_witness :
  within Inputs.newHunt /\ faithful Inputs.overlap /\
  exists w,
    run Inputs.localViewer 100 Inputs.overlap
        (processHuntJob Inputs.localViewer 100 None Inputs.newHunt) = Some w /\
    map counters (progress w) = [(3, 4, 2); (3, 4, 4); (4, 4, 4)] /\
    Forall within (progress w).
Proof.
  assert (W : within Inputs.newHunt) by (unfold within; simpl; lia).
  assert (F : faithful Inputs.overlap) by (simpl; lia).
  split; [exact W|]. split; [exact F|].
  eexists. split; [vm_compute; reflexivity|].
  split; [reflexivity|].
  match goal with
  | |- Forall within (progress ?w) =>
      apply (searched_within_total Inputs.localViewer 100 None Inputs.newHunt
               Inputs.overlap w W F)
  end.
  vm_compute. reflexivity.
Defined.

End ProgressFacts.

(* ------------------------------------------------------------------------ *)
(** ** Cron windows and alerts *)

Module CronFacts.
Import Cron.

Lemma set0_head {A : Type} (x : A) (a : list A) : hd_error (set0 x a) = Some x.
Proof. destruct a; reflexivity. Qed.

(** The scroll is drained as soon as Elasticsearch fails or sends an empty
    page: [processCronQuery] calls back. *)
Lemma getMoreUntilDone_calls_back env cq o answers :
  (In Failed answers \/ In (Page []) answers) ->
  forall n, exists m effs, getMoreUntilDone env cq o n answers = Some (m, effs).
Proof.
  induction answers as [|a rest IH]; intros H n.
  - destruct H as [[]|[]].
  - destruct a as [|hits]; simpl.
    + eauto.
    + destruct (len hits =? 0) eqn:E; [eauto|].
      assert (H' : In Failed rest \/ In (Page []) rest).
      { destruct H as [[H|H]|[H|H]]; auto; try discriminate.
        inversion H; subst hits. discriminate E. }
      destruct (IH H' (n + len hits)) as (m & effs & ->). eauto.
Qed.

Lemma processCronQuery_shape env cq o q endTime answers n e effs :
  processCronQuery env cq o q endTime answers = Some (n, e, effs) ->
  e = singleEndTime cq endTime /\
  hd_error effs = Some (Search (sliceQuery cq q endTime)).
Proof.
  unfold processCronQuery.
  destruct (getMoreUntilDone env cq o 0 answers) as [[m l]|]; [|discriminate].
  intros H; inversion H; subst. split; reflexivity.
Qed.

(** C3, as stated, fails: the range that opens the filter is not a range on
    [lastPacket]. *)
Lemma slice_range_is_not_on_lastPacket :
  hd_error (filter (sliceQuery Inputs.cq Inputs.cronBody 2000))
  <> Some (FRange "lastPacket" (lpValue Inputs.cq * 1000)
                  (Z.min 2000 (lpValue Inputs.cq + 86400) * 1000)).
Proof. vm_compute. discriminate. Qed.

(** C3, amended: a slice ends at [min(endTime, lpValue + 86400)], and the
    search that [processCronQuery] sends has as first filter the range of the
    [timestamp] field from [lpValue * 1000] (inclusive, [gte]) to
    [singleEnd * 1000] (exclusive, [lt]). *)
Theorem slice_window (env : Env) (cq : CronQuery) (o : Options) (q : Query) (endTime : Z)
                     (answers : list Result) :
  singleEndTime cq endTime = Z.min endTime (lpValue cq + 86400)
  /\ hd_error (filter (sliceQuery cq q endTime))
     = Some (FRange "timestamp" (lpValue cq * 1000) (singleEndTime cq endTime * 1000))
  /\ match processCronQuery env cq o q endTime answers with
     | Some (_, e, effs) =>
         e = singleEndTime cq endTime /\
         hd_error effs = Some (Search (sliceQuery cq q endTime))
     | None => ~ In Failed answers /\ ~ In (Page []) answers
     end.
Proof.
  split; [reflexivity|]. split; [apply set0_head|].
  destruct (processCronQuery env cq o q endTime answers) as [[[n e] effs]|] eqn:E.
  - eapply processCronQuery_shape; eassumption.
  - unfold processCronQuery in E.
    split; intros H.
    + destruct (getMoreUntilDone_calls_back env cq o answers (or_introl H) 0) as (m & l & R).
      rewrite R in E. discriminate.
    + destruct (getMoreUntilDone_calls_back env cq o answers (or_intror H) 0) as (m & l & R).
      rewrite R in E. discriminate.
Qed.

Lemma tick_updated env endTime id cq clk answers doc effs rep :
  tick env endTime id cq clk answers = Updated doc effs rep ->
  enabled cq = true /\ lpValue cq <= endTime /\
  d_lpValue doc = singleEndTime cq endTime /\
  In (UpdateQuery id doc) effs.
Proof.
  unfold tick.
  destruct (enabled cq); simpl; [|discriminate].
  destruct (endTime <? lpValue cq) eqn:El; [discriminate|].
  apply Z.ltb_ge in El.
  destruct (getUserCacheIncAnon env (creator cq)) as [err [user|]]; [|discriminate].
  destruct (negb (u_found user)); [discriminate|].
  destruct (negb (u_enabled user)); [discriminate|].
  destruct (buildQuery env cq user) as [q|]; [|discriminate].
  destruct (processCronQuery _ _ _ _ _ _) as [[[n lp] l]|] eqn:P; [|discriminate].
  apply processCronQuery_shape in P. destruct P as [-> _].
  unfold finishQuery. intros H. inversion H; subst. clear H.
  repeat split; auto.
  apply in_or_app. right. apply in_or_app. right. left. reflexivity.
Qed.

(** C4, as stated, fails: a query whose [lpValue] has caught up with
    [now - cronDelay] is run, and its [lpValue] is written back unchanged. *)
Lemma caught_up_query_keeps_lpValue :
  enabled Inputs.cq = true /\
  passEndTime Inputs.cronEnv 1090000 = lpValue Inputs.cq /\
  match tick Inputs.cronEnv (passEndTime Inputs.cronEnv 1090000) "q1" Inputs.cq
             Inputs.cronClock [Page []] with
  | Updated doc effs _ =>
      In (UpdateQuery "q1" doc) effs /\ d_lpValue doc = 1000 /\ ~ lpValue Inputs.cq < d_lpValue doc
  | _ => False
  end.
Proof.
  split; [reflexivity|]. split; [reflexivity|]. vm_compute.
  split; [|split].
  - in_list.
  - reflexivity.
  - discriminate.
Qed.

(** C4, amended: when a pass that began at [now] updates a query, the query
    is enabled, the new [lpValue] is at least the old one and at most
    [now - cronDelay], and it is strictly greater whenever the old [lpValue]
    was below [now - cronDelay]. *)
Theorem lpValue_advances (env : Env) (now : Z) (id : string) (cq : CronQuery) (clk : Clock)
                         (answers : list Result) (doc : Document) (effs : list Effect)
                         (rep : bool) :
  tick env (passEndTime env now) id cq clk answers = Updated doc effs rep ->
  enabled cq = true /\
  In (UpdateQuery id doc) effs /\
  lpValue cq <= d_lpValue doc <= now / 1000 - cronTimeout env /\
  (lpValue cq < now / 1000 - cronTimeout env -> lpValue cq < d_lpValue doc).
Proof.
  intros H. apply tick_updated in H. destruct H as (He & Hl & Hd & Hi).
  unfold passEndTime, singleEndTime in *. rewrite Hd.
  repeat split; auto; lia.
Qed.

Lemma lpValue_advances_witness :
  exists effs,
    tick Inputs.cronEnv (passEndTime Inputs.cronEnv 100090000) "q1" Inputs.cq Inputs.cronClock
         Inputs.threeMatches
    = Updated {| d_lpValue := 87400; d_lastRun := 1091; d_count := 8;
                 d_lastNotifiedCount := None |} effs true
    /\ lpValue Inputs.cq < 87400 <= 100090000 / 1000 - cronTimeout Inputs.cronEnv.
Proof.
  eexists. split; [vm_compute; reflexivity|].
  match goal with
  | |- _ < _ <= ?u =>
      destruct (lpValue_advances Inputs.cronEnv 100090000 "q1" Inputs.cq Inputs.cronClock
                  Inputs.threeMatches
                  {| d_lpValue := 87400; d_lastRun := 1091; d_count := 8;
                     d_lastNotifiedCount := None |} _ true eq_refl)
        as (_ & _ & [_ Hu] & Hs)
  end.
  split; [apply Hs; vm_compute; reflexivity | exact Hu].
Defined.

(** Whenever an alert goes out, the number of new matches it reports is the
    total of the query. *)
Lemma alert_reports_total cq id endTime now n lp effs0 doc effs rep nt nm k t :
  finishQuery cq id endTime now n lp effs0 = Updated doc effs rep ->
  ~ (exists a b c d, In (Alert a b c d) effs0) ->
  In (Alert nt nm k t) effs ->
  k = d_count doc /\ t = d_count doc.
Proof.
  unfold finishQuery. intros H N I. inversion H; subst; clear H.
  apply in_app_or in I. destruct I as [I|I].
  - exfalso. apply N. eauto.
  - apply in_app_or in I. destruct I as [I|[I|[]]]; [|discriminate].
    destruct (notifies cq _ n now); [|destruct I].
    destruct I as [I|[]]. inversion I; subst. split; reflexivity.
Qed.

(** C5 does not hold of the code: the query had 5 matches, all notified
    ([lastNotifiedCount = 5]); 3 more arrive and the alert is due.  The claim
    gives [8 - 5 = 3] new matches; the alert that goes out reports 8, because
    [lastNotifiedCount] is read from the update document, which does not have
    it, instead of the query. *)
Theorem alert_counts_notified_matches_again :
  match tick Inputs.cronEnv 2000 "q1" Inputs.cq Inputs.cronClock Inputs.threeMatches with
  | Updated doc effs _ =>
      d_count doc = 8 /\
      lastNotifiedCount Inputs.cq = Some 5 /\
      In (Alert "slack" "cq" 8 8) effs /\
      ~ In (Alert "slack" "cq" (8 - 5) 8) effs
  | _ => False
  end.
Proof.
  vm_compute. repeat split.
  - in_list.
  - intros H. repeat (destruct H as [H|H]; [discriminate H|]). exact H.
Qed.

End CronFacts.

(* ------------------------------------------------------------------------ *)
(** ** Scrubbing *)

Module ScrubFacts.
Import Scrub.

Lemma buffer0_zeros : buffer 0 = repeat 0 5000.
Proof. vm_compute. reflexivity. Qed.

Lemma buffer1_ones : buffer 1 = repeat 1 5000.
Proof. vm_compute. reflexivity. Qed.

Lemma buffer2_table :
  buffer 2 = map (fun i => nth (Nat.modulo i 16) (bytesOf str) 0) (seq 0 5000).
Proof. vm_compute. reflexivity. Qed.

(** The third buffer holds the sentence over and over. *)
Lemma buffer2_repeats (i : nat) :
  (i < 5000)%nat -> nth i (buffer 2) 0 = nth (Nat.modulo i 16) (bytesOf str) 0.
Proof.
  intros H. rewrite buffer2_table.
  set (g := fun k : nat => nth (Nat.modulo k 16) (bytesOf str) 0).
  transitivity (nth i (map g (seq 0 5000)) (g 0%nat)).
  - apply nth_indep. rewrite length_map, length_seq. exact H.
  - rewrite (map_nth g). rewrite seq_nth by exact H. reflexivity.
Qed.

Lemma buffers_not_empty : buffer 0 <> [] /\ buffer 1 <> [] /\ buffer 2 <> [].
Proof.
  rewrite buffer0_zeros, buffer1_ones, buffer2_table.
  repeat split; discriminate.
Qed.

Lemma in_buffer0 x : In x (buffer 0) -> x = 0.
Proof. rewrite buffer0_zeros. intros H. apply repeat_spec in H. exact H. Qed.

Lemma in_buffer1 x : In x (buffer 1) -> x = 1.
Proof. rewrite buffer1_ones. intros H. apply repeat_spec in H. exact H. Qed.

Lemma in_buffer2 x : In x (buffer 2) -> In x (bytesOf str).
Proof.
  rewrite buffer2_table. intros H. apply in_map_iff in H.
  destruct H as (i & <- & _). apply nth_In.
  change (List.length (bytesOf str)) with 16%nat.
  apply Nat.mod_upper_bound. discriminate.
Qed.

(** Whatever the pcap handle, a packet that is decoded and whose three calls
    of [scrubPacket] return gets exactly these three passes, in this order. *)
Lemma tryScrub_passes {F O : Type} (pcap : Pcap F O) (what : string) (packet : list Z)
                      (pos : Z) (f f0 f1 f2 : F) (obj : O) :
  decode pcap packet = Some obj ->
  scrubPacket pcap obj pos (buffer 0) (String.eqb what "all") f = Some f0 ->
  scrubPacket pcap obj pos (buffer 1) (String.eqb what "all") f0 = Some f1 ->
  scrubPacket pcap obj pos (buffer 2) (String.eqb what "all") f1 = Some f2 ->
  tryScrub pcap what packet pos f =
    (f2, map (fun k => {| p_obj := obj; p_pos := pos; p_buf := buffer k;
                          p_entire := String.eqb what "all" |}) [0; 1; 2]%nat).
Proof.
  intros D S0 S1 S2. unfold tryScrub. rewrite D, S0, S1, S2. reflexivity.
Qed.

(** A pass over a record that an earlier pass has left: what it leaves is
    [scrubbed] with respect to the record as it first was. *)
Lemma scrubbed_again {F O : Type} (pcap : Pcap F O) (f' : F) (pos : Z) (raw mid : list Z)
                     (buf : Buffer) (e : bool) :
  List.length mid = List.length raw ->
  (e = false -> firstn 16 mid = firstn 16 raw) ->
  scrubbed pcap f' pos mid buf e -> scrubbed pcap f' pos raw buf e.
Proof.
  intros L H (raw' & R & L' & P & Hd). exists raw'.
  split; [exact R|]. split; [congruence|]. split; [exact P|].
  destruct e; [exact Hd|]. rewrite Hd. apply H. reflexivity.
Qed.

(** C7: on a handle that does what the spec says of [scrubPacket], a packet
    that [pcapScrub] scrubs (a record of more than 16 bytes) gets exactly
    three passes at its offset, in this order: with the buffer of 0x00 bytes,
    then the buffer of 0x01 bytes, then the buffer that repeats
    "Scrubbed! Hoot! ".  After them the payload holds zeros, then ones, then
    bytes of the sentence.  Each pass is asked to take the record header too
    exactly when [whatToRemove] is ['all']: then the 16-byte header ends as
    bytes of the sentence, and otherwise it is as it was. *)
Theorem three_pass_scrub {F O : Type} (pcap : Pcap F O) (whatToRemove : string)
                         (f : F) (pos : Z) (raw : list Z) :
  obeys pcap ->
  readPacket pcap f pos = Some raw ->
  16 < Z.of_nat (List.length raw) ->
  let all := String.eqb whatToRemove "all" in
  exists obj f0 f1 f2,
    decode pcap raw = Some obj /\
    processFile pcap whatToRemove f pos
      = Some (f2, [ {| p_obj := obj; p_pos := pos; p_buf := buffer 0; p_entire := all |};
                    {| p_obj := obj; p_pos := pos; p_buf := buffer 1; p_entire := all |};
                    {| p_obj := obj; p_pos := pos; p_buf := buffer 2; p_entire := all |} ]) /\
    buffer 0 = repeat 0 5000 /\
    buffer 1 = repeat 1 5000 /\
    (forall i, (i < 5000)%nat -> nth i (buffer 2) 0 = nth (Nat.modulo i 16) (bytesOf str) 0) /\
    scrubPacket pcap obj pos (buffer 0) all f = Some f0 /\
    scrubPacket pcap obj pos (buffer 1) all f0 = Some f1 /\
    scrubPacket pcap obj pos (buffer 2) all f1 = Some f2 /\
    scrubbed pcap f0 pos raw [0] all /\
    scrubbed pcap f1 pos raw [1] all /\
    scrubbed pcap f2 pos raw (bytesOf str) all.
Proof.
  intros [D S] R L all.
  destruct buffers_not_empty as (N0 & N1 & N2).
  destruct (D raw) as (obj & Dr).
  destruct (S obj pos (buffer 0) all f raw raw N0 Dr eq_refl R) as (f0 & S0 & C0).
  assert (K0 := C0). destruct K0 as (raw0 & R0 & L0 & _ & H0).
  destruct (S obj pos (buffer 1) all f0 raw0 raw N1 Dr (eq_sym L0) R0) as (f1 & S1 & C1).
  apply scrubbed_again with (raw := raw) in C1;
    [|exact L0 | intros E; rewrite E in H0; exact H0].
  assert (K1 := C1). destruct K1 as (raw1 & R1 & L1 & _ & H1).
  destruct (S obj pos (buffer 2) all f1 raw1 raw N2 Dr (eq_sym L1) R1) as (f2 & S2 & C2).
  apply scrubbed_again with (raw := raw) in C2;
    [|exact L1 | intros E; rewrite E in H1; exact H1].
  assert (W : forall (P : Z -> Prop) g b, (forall x, In x b -> P x) ->
              scrubbed pcap g pos raw b all ->
              exists raw', readPacket pcap g pos = Some raw' /\
                           List.length raw' = List.length raw /\
                           Forall P (skipn 16 raw') /\
                           if all then Forall P (firstn 16 raw')
                           else firstn 16 raw' = firstn 16 raw).
  { intros P g b I (raw' & Rg & Lg & Pg & Hg). exists raw'.
    split; [exact Rg|]. split; [exact Lg|].
    split; [eapply Forall_impl; [|exact Pg]; exact I|].
    destruct all; [eapply Forall_impl; [|exact Hg]; exact I | exact Hg]. }
  assert (In1 : forall (c : Z) (P : Z -> Prop), (forall x, P x -> x = c) ->
                forall x, P x -> In x [c]).
  { intros c P H x Px. left. symmetry. apply H. exact Px. }
  exists obj, f0, f1, f2.
  split; [exact Dr|]. split.
  { unfold processFile. rewrite R.
    replace (16 <? Z.of_nat (List.length raw)) with true
      by (symmetry; apply Z.ltb_lt; exact L).
    f_equal. apply (tryScrub_passes pcap whatToRemove raw pos f f0 f1 f2 obj Dr S0 S1 S2). }
  split; [apply buffer0_zeros|]. split; [apply buffer1_ones|].
  split; [apply buffer2_repeats|].
  split; [exact S0|]. split; [exact S1|]. split; [exact S2|].
  split; [|split].
  - apply (W (fun x => In x [0]) f0 (buffer 0) (In1 0 _ in_buffer0) C0).
  - apply (W (fun x => In x [1]) f1 (buffer 1) (In1 1 _ in_buffer1) C1).
  - apply (W (fun x => In x (bytesOf str)) f2 (buffer 2) in_buffer2 C2).
Qed.

(** *** The example handle keeps the promise *)

Lemma specRead_store (f : SpecFile) (pos : Z) (raw x : list Z) :
  specRead f pos = Some raw -> specRead (specStore f pos x) pos = Some x.
Proof.
  induction f as [|[o r] rest IH]; simpl; [discriminate|].
  destruct (o =? pos) eqn:E; simpl; rewrite E; auto.
Qed.

Lemma specFill_in (n : nat) (b : Buffer) : b <> [] -> Forall (fun x => In x b) (specFill n b).
Proof.
  intros N. unfold specFill. apply Forall_forall. intros x H.
  apply in_map_iff in H. destruct H as (i & <- & _). apply nth_In.
  apply Nat.mod_upper_bound. destruct b; [contradiction | discriminate].
Qed.

Lemma specFill_length (n : nat) (b : Buffer) : List.length (specFill n b) = n.
Proof. unfold specFill. rewrite length_map, length_seq. reflexivity. Qed.

Lemma specPcap_obeys : obeys specPcap.
Proof.
  split.
  - intros raw. eexists. reflexivity.
  - intros obj pos buf e f raw raw0 N _ _ R. cbn [scrubPacket specPcap].
    unfold specScrub. change (readPacket specPcap) with specRead in R. rewrite R.
    eexists. split; [reflexivity|].
    eexists. split; [cbn [readPacket specPcap]; eapply specRead_store; exact R|].
    set (hd := if e then specFill (Nat.min 16 (List.length raw)) buf else firstn 16 raw).
    assert (Lh : List.length hd = Nat.min 16 (List.length raw)).
    { subst hd. destruct e; [apply specFill_length | apply length_firstn]. }
    split; [rewrite length_app, Lh, specFill_length; lia|].
    destruct (Nat.le_gt_cases 16 (List.length raw)) as [G | G].
    + assert (M : Nat.min 16 (List.length raw) = 16%nat) by lia.
      rewrite M in Lh.
      split.
      * rewrite skipn_app, (skipn_all2 hd) by lia.
        rewrite Lh, Nat.sub_diag, skipn_O. apply specFill_in. exact N.
      * rewrite firstn_app, (firstn_all2 hd) by lia.
        rewrite Lh, Nat.sub_diag, firstn_O, app_nil_r.
        subst hd. destruct e; [apply specFill_in; exact N | reflexivity].
    + assert (Z0 : (List.length raw - 16 = 0)%nat) by lia.
      rewrite Z0. cbn [specFill seq map]. rewrite app_nil_r.
      split.
      * rewrite skipn_all2 by lia. constructor.
      * rewrite firstn_all2 by lia.
        subst hd. destruct e; [apply specFill_in; exact N | reflexivity].
Qed.

Lemma three_pass_scrub_witness :
  obeys specPcap /\
  specRead Inputs.capture 24 = Some Inputs.record24 /\
  16 < Z.of_nat (List.length Inputs.record24) /\
  (exists f', processFile specPcap "pcap" Inputs.capture 24
                = Some (f', map (fun k => {| p_obj := {| header := firstn 16 Inputs.record24;
                                                         payload := skipn 16 Inputs.record24 |};
                                             p_pos := 24;
                                             p_buf := buffer k;
                                             p_entire := false |}) [0; 1; 2]%nat)
              /\ specRead f' 24
                 = Some (firstn 16 Inputs.record24 ++ bytesOf "Scrubbed")%list)
  /\
  (exists f', processFile specPcap "all" Inputs.capture 24
                = Some (f', map (fun k => {| p_obj := {| header := firstn 16 Inputs.record24;
                                                         payload := skipn 16 Inputs.record24 |};
                                             p_pos := 24;
                                             p_buf := buffer k;
                                             p_entire := true |}) [0; 1; 2]%nat)
              /\ specRead f' 24 = Some (bytesOf "Scrubbed! Hoot! Scrubbed")%list).
Proof.
  assert (R : readPacket specPcap Inputs.capture 24 = Some Inputs.record24) by reflexivity.
  assert (L : 16 < Z.of_nat (List.length Inputs.record24)) by (simpl; lia).
  split; [exact specPcap_obeys|]. split; [exact R|]. split; [exact L|]. split.
  - destruct (three_pass_scrub specPcap "pcap" Inputs.capture 24 Inputs.record24
                specPcap_obeys R L)
      as (obj & f0 & f1 & f2 & D & P & _ & _ & _ & _ & _ & S2 & _).
    inversion D; subst obj. exists f2. split; [exact P|].
    vm_compute in P. inversion P. vm_compute. reflexivity.
  - destruct (three_pass_scrub specPcap "all" Inputs.capture 24 Inputs.record24
                specPcap_obeys R L)
      as (obj & f0 & f1 & f2 & D & P & _ & _ & _ & _ & _ & S2 & _).
    inversion D; subst obj. exists f2. split; [exact P|].
    vm_compute in P. inversion P. vm_compute. reflexivity.
Defined.

End ScrubFacts.

(* ------------------------------------------------------------------------ *)
(** ** Expiry *)

Module ExpiryFacts.
Import Expiry.

Lemma insertByFirst_In (x f : File) (l : list File) :
  In x (insertByFirst f l) <-> x = f \/ In x l.
Proof.
  induction l as [|g rest IH]; simpl.
  - intuition.
  - destruct (first f <=? first g); simpl; [intuition|].
    rewrite IH. intuition.
Qed.

Lemma sortByFirst_In (x : File) (l : list File) : In x (sortByFirst l) <-> In x l.
Proof.
  induction l as [|f rest IH]; simpl; [reflexivity|].
  rewrite insertByFirst_In, IH. intuition.
Qed.

Lemma insertByFirst_ascending (f : File) (l : list File) :
  ascending l -> ascending (insertByFirst f l).
Proof.
  induction 1 as [|g|g h l Hgh Hl IH]; simpl.
  - constructor.
  - destruct (first f <=? first g) eqn:E.
    + constructor; [apply Z.leb_le; exact E | constructor].
    + constructor; [unfold olderFirst; apply Z.leb_gt in E; lia | constructor].
  - destruct (first f <=? first g) eqn:E.
    + constructor; [apply Z.leb_le; exact E | constructor; assumption].
    + simpl in IH. destruct (first f <=? first h) eqn:E'.
      * constructor; [unfold olderFirst; apply Z.leb_gt in E; lia | exact IH].
      * constructor; [exact Hgh | exact IH].
Qed.

Lemma sortByFirst_ascending (l : list File) : ascending (sortByFirst l).
Proof.
  induction l as [|f rest IH]; simpl; [constructor|].
  apply insertByFirst_ascending. exact IH.
Qed.

Lemma firstn_ascending (n : nat) (l : list File) : ascending l -> ascending (firstn n l).
Proof.
  intros H. revert n. induction H as [|f|f g l Hfg Hl IH]; intros n.
  - destruct n; constructor.
  - destruct n as [|[|n]]; constructor.
  - destruct n as [|[|n]]; try constructor; [exact Hfg|].
    exact (IH (S n)).
Qed.

Lemma firstn_In {A : Type} (x : A) (n : nat) (l : list A) : In x (firstn n l) -> In x l.
Proof.
  intros H. rewrite <- (firstn_skipn n l). apply in_or_app. left. exact H.
Qed.

Lemma hit_matches (index : list File) (q : Query) (f : File) :
  In f (hits (search index q)) -> In f index /\ matches q f = true.
Proof.
  unfold search. cbn [hits]. intros H. apply firstn_In in H.
  apply filter_In.
  destruct (sort_first_asc q); [apply (proj1 (sortByFirst_In _ _)) in H|]; exact H.
Qed.

Lemma search_ascending (index : list File) (q : Query) :
  sort_first_asc q = true -> ascending (hits (search index q)).
Proof.
  intros S. unfold search. cbn [hits]. rewrite S.
  apply firstn_ascending, sortByFirst_ascending.
Qed.

(** Every hit of the search of [expireDevice] is a file of the index that is
    not locked. *)
Lemma hit_not_locked (index : list File) (nodes dirs : list string) (f : File) :
  In f (hits (search index (buildQuery nodes dirs))) -> In f index /\ locked f <> 1.
Proof.
  intros H. apply hit_matches in H. destruct H as [Hi Hm].
  split; [exact Hi|].
  unfold matches in Hm.
  apply andb_true_iff in Hm. destruct Hm as [_ Hl].
  cbn [must_not_locked buildQuery] in Hl.
  intros E. rewrite E in Hl. discriminate Hl.
Qed.

(** The loop hands over a prefix of the items still to see, counts each of
    them off the total, and leaves at least 10. *)
Lemma forEachSeries_prefix (w : World) (minFree : Q) (items : list File) :
  forall total deleted,
  exists d rest,
    items = (d ++ rest)%list /\
    forEachSeries w minFree items total deleted
      = ((deleted ++ d)%list, total - Z.of_nat (List.length d)) /\
    (d = [] \/ 10 <= total - Z.of_nat (List.length d)).
Proof.
  induction items as [|item rest IH]; intros total deleted; simpl.
  - exists [], []. simpl. rewrite app_nil_r, Z.sub_0_r. repeat split. left. reflexivity.
  - destruct (total <=? 10) eqn:T.
    { exists [], (item :: rest). simpl. rewrite app_nil_r, Z.sub_0_r.
      repeat split. left. reflexivity. }
    apply Z.leb_gt in T.
    destruct (Qltb _ minFree).
    + destruct (deleteFails w deleted item).
      * exists [item], rest. simpl. repeat split. right. lia.
      * destruct (IH (total - 1) (deleted ++ [item])%list) as (d & r & E & R & B).
        exists (item :: d), r. rewrite R, E, <- app_assoc. simpl List.length.
        split; [reflexivity|]. split; [f_equal; lia|].
        right. destruct B as [-> | B]; simpl in *; lia.
    + exists [], (item :: rest). simpl. rewrite app_nil_r, Z.sub_0_r.
      repeat split. left. reflexivity.
Qed.

(** C8, as stated, fails: with eleven matching files on a full disk the
    oldest one is deleted, and the count of matching files drops to 10. *)
Lemma eleven_files_drop_to_ten :
  total (search Inputs.filesIndex (buildQuery ["node1"] ["/data/pcap"])) = 11 /\
  expireDevice Inputs.fullDisk Inputs.filesIndex ["node1"] ["/data/pcap"] (inject_Z 1)
  = ([Inputs.pcapFile ("a", 1)], 10) /\
  snd (expireDevice Inputs.fullDisk Inputs.filesIndex ["node1"] ["/data/pcap"] (inject_Z 1))
  <= 10.
Proof. vm_compute. repeat split; discriminate. Qed.

(** C8, amended: the files that a run of [expireDevice] deletes are files of
    the index that are not locked, taken oldest first (by [first]) from the
    head of the search result; each deletion counts one off the total of
    matching files, and a run that deletes leaves that count at 10 or
    more: it stops at 10, not before. *)
Theorem expiry_safety (w : World) (index : list File) (nodes dirs : list string)
                      (minFreeSpaceG : Q) :
  let found := search index (buildQuery nodes dirs) in
  let deleted := fst (expireDevice w index nodes dirs minFreeSpaceG) in
  let left := snd (expireDevice w index nodes dirs minFreeSpaceG) in
  Forall (fun f => In f index /\ locked f <> 1) deleted
  /\ ascending (hits found)
  /\ (exists rest, hits found = (deleted ++ rest)%list)
  /\ left = total found - Z.of_nat (List.length deleted)
  /\ (deleted = [] \/ 10 <= left).
Proof.
  intros found deleted left.
  assert (A : ascending (hits found)).
  { apply search_ascending. reflexivity. }
  unfold deleted, left, expireDevice, expireWith. fold found.
  destruct (total found <=? 10).
  - simpl. rewrite Z.sub_0_r. repeat split; auto. exists (hits found). reflexivity.
  - destruct (forEachSeries_prefix w minFreeSpaceG (hits found) (total found) [])
      as (d & rest & E & R & B).
    rewrite R. simpl.
    repeat split; auto.
    + apply Forall_forall. intros f Hf.
      apply (hit_not_locked index nodes dirs). fold found. rewrite E.
      apply in_or_app. left. exact Hf.
    + exists rest. exact E.
Qed.

End ExpiryFacts.

(* ------------------------------------------------------------------------ *)
(** ** Who gets past the authentication middleware *)

Module AuthFacts.
Import Http.

Lemma prefix_second a b b' p q u :
  b <> b' ->
  prefix (String a (String b p)) u = true ->
  prefix (String a (String b' q)) u = false.
Proof.
  intros N. destruct u as [|c0 [|c1 u]]; simpl; try discriminate.
  - destruct (ascii_dec a c0); discriminate.
  - destruct (ascii_dec a c0); [|discriminate].
    destruct (ascii_dec b c1); [|discriminate].
    destruct (ascii_dec b' c1); [|reflexivity].
    congruence.
Qed.

Lemma receiveUrl_needs_auth u : receiveUrl u = true -> noAuthUrl u = false.
Proof.
  unfold receiveUrl, noAuthUrl, after. intros H.
  apply orb_true_iff in H. destruct H as [H | H].
  - rewrite (prefix_second "/" "r" "p" "eceiveSession" "arliament" u) by (discriminate || exact H).
    rewrite (prefix_second "/" "r" "e" "eceiveSession" "shealth" u) by (discriminate || exact H).
    reflexivity.
  - rewrite (prefix_second "/" "a" "p" "pi/sessions/receive" "arliament" u)
      by (discriminate || exact H).
    rewrite (prefix_second "/" "a" "e" "pi/sessions/receive" "shealth" u)
      by (discriminate || exact H).
    reflexivity.
Qed.

Lemma truthy_str_Some o :
  JS.truthy_str o = true -> exists h, o = Some h /\ h <> "".
Proof.
  destruct o as [h|]; simpl; [|discriminate].
  intros H. exists h. split; [reflexivity|].
  intros E. subst h. discriminate.
Qed.

(** The endpoints that receive sessions are only reachable with a peer
    token: a request for [/receiveSession...] or [/api/sessions/receive...]
    is handed on only if it carries an [x-moloch-auth] token that decodes and
    was made for this URL; the date of the token, when it carries one, is at
    most 120000 ms from the server's clock.  The request is then handed on
    without a user being looked up. *)
Theorem receive_only_from_peers (env : Env) (now : Z) (req : Request) :
  receiveUrl (url req) = true ->
  passedOn (passwordSecretAuth env now req) = true ->
  passwordSecretAuth env now req = Next None /\
  exists h obj path,
    headers req "x-moloch-auth" = Some h /\ h <> "" /\
    auth2obj env h = Some obj /\ tk_path obj = Some path /\
    JS.replace (basePath env) "/" path = url req /\
    forall d, tk_date obj = Some d -> Z.abs (now - d) <= 120000.
Proof.
  intros R. unfold passwordSecretAuth.
  rewrite (receiveUrl_needs_auth _ R), R.
  destruct (String.eqb (url req) "/_ns_/nstest.html"); [discriminate|].
  destruct (JS.truthy_str (headers req "x-moloch-auth")) eqn:T; [|discriminate].
  destruct (truthy_str_Some _ T) as (h & Hh & Hne). rewrite Hh.
  destruct (auth2obj env h) as [obj|] eqn:A; [|discriminate].
  destruct (tk_path obj) as [p|] eqn:Tp; [|discriminate].
  destruct (String.eqb (JS.replace (basePath env) "/" p) (url req)) eqn:P;
    simpl; [|discriminate].
  destruct (skewed now (tk_date obj)) eqn:D; [discriminate|].
  intros _. split; [reflexivity|].
  exists h, obj, p.
  split; [reflexivity|]. split; [exact Hne|]. split; [exact A|].
  split; [exact Tp|]. split; [apply String.eqb_eq; exact P|].
  intros d Hd. unfold skewed in D. rewrite Hd in D. apply Z.ltb_ge. exact D.
Qed.

Lemma receive_only_from_peers_witness :
  receiveUrl (url Cases.receiveRequest) = true /\
  passwordSecretAuth Cases.receiver 1600000060000 Cases.receiveRequest = Next None /\
  passedOn (passwordSecretAuth Cases.receiver 1600000060000 Cases.anonymousReceive) = false.
Proof.
  assert (R : receiveUrl (url Cases.receiveRequest) = true) by reflexivity.
  split; [exact R|]. split; [|reflexivity].
  apply (receive_only_from_peers Cases.receiver 1600000060000 Cases.receiveRequest R).
  reflexivity.
Defined.

Lemma userCleanup_enabled env u :
  flag (userCleanup env u) "enabled" = flag u "enabled".
Proof. unfold userCleanup. simpl. rewrite andb_false_r. reflexivity. Qed.

Lemma userCleanup_createEnabled env u :
  multiESOnly env = true -> flag (userCleanup env u) "createEnabled" = false.
Proof. intros M. unfold userCleanup. simpl. rewrite M. reflexivity. Qed.

Lemma s2sUser_enabled env name l u :
  s2sUser env name l = Next (Some u) ->
  exists u0, found l = Some u0 /\ u = userCleanup env u0 /\ flag u0 "enabled" = true.
Proof.
  unfold s2sUser. destruct (lk_err l); [discriminate|].
  destruct (found l) as [u0|]; [|discriminate].
  destruct (flag u0 "enabled") eqn:E; simpl; [|discriminate].
  intros H. inversion H. exists u0. auto.
Qed.

Lemma ucb_enabled env l (userName : option string) u :
  ucb env l userName = Next (Some u) ->
  exists u0, found l = Some u0 /\ u = userCleanup env u0 /\
             flag u0 "enabled" = true /\ flag u0 "headerAuthEnabled" = true.
Proof.
  unfold ucb. destruct (lk_err l); [discriminate|].
  destruct (found l) as [u0|]; [|discriminate].
  destruct (flag u0 "enabled") eqn:E; simpl; [|discriminate].
  destruct (flag u0 "headerAuthEnabled") eqn:A; simpl; [|discriminate].
  intros H. inversion H. exists u0. auto.
Qed.

Lemma headerAuth_user env req userName u :
  headerAuth env req userName = Next (Some u) ->
  exists u0, u = userCleanup env u0 /\
             flag u0 "enabled" = true /\ flag u0 "headerAuthEnabled" = true.
Proof.
  unfold headerAuth. intros H.
  assert (U : exists l n, ucb env l n = Next (Some u)).
  { destruct (requiredAuthHeader env) as [h|], (requiredAuthHeaderVal env) as [v|];
      try destruct (headers req h) as [a|]; try discriminate;
      try destruct (existsb _ _); try discriminate;
      destruct (userAutoCreateTmpl env) as [tmpl|];
      try destruct (_ || _); try destruct (tmpl req); try discriminate; eauto. }
  destruct U as (l & n & U). destruct (ucb_enabled _ _ _ _ U) as (u0 & _ & E & A & B).
  exists u0. auto.
Qed.

(** A request that header authentication hands on carries, when a required
    header and value are configured, that value as one of the comma-separated
    entries of the header (white space around an entry, the no-break space
    included, is ignored), and its user exists, is enabled and has header
    authentication enabled. *)
Theorem header_auth_requires (env : Env) (req : Request) (userName : string) (u : User) :
  headerAuth env req userName = Next (Some u) ->
  (forall h v, requiredAuthHeader env = Some h -> requiredAuthHeaderVal env = Some v ->
     exists a x, headers req h = Some a /\ In x (JS.split ","%char a) /\ JS.trim x = v)
  /\
  exists u0, u = userCleanup env u0 /\
             flag u0 "enabled" = true /\ flag u0 "headerAuthEnabled" = true.
Proof.
  unfold headerAuth. intros H. split.
  - intros h v Hh Hv. rewrite Hh, Hv in H.
    destruct (headers req h) as [a|]; [|discriminate].
    destruct (existsb _ _) eqn:X; [|discriminate].
    apply existsb_exists in X. destruct X as (x & Hin & Hx).
    exists a, x. split; [reflexivity|]. split; [exact Hin|].
    apply String.eqb_eq. exact Hx.
  - apply (headerAuth_user env req userName u H).
Qed.

Lemma header_auth_requires_witness :
  headerAuth Cases.proxied Cases.fromProxy "alice" =
    Next (Some (userCleanup Cases.proxied Cases.alice)) /\
  exists a x, headers Cases.fromProxy "x-groups" = Some a /\
              In x (JS.split ","%char a) /\ JS.trim x = "analysts".
Proof.
  assert (H : headerAuth Cases.proxied Cases.fromProxy "alice" =
              Next (Some (userCleanup Cases.proxied Cases.alice))) by reflexivity.
  split; [exact H|].
  apply (proj1 (header_auth_requires _ _ _ _ H) "x-groups" "analysts"); reflexivity.
Defined.

(** No user set by the middleware from a peer token or from the user-name
    header is disabled, and on a viewer over several clusters that has no
    users database of its own none of them keeps [createEnabled]; the
    other users are those that passport's digest strategy produced. *)
Theorem admitted_user_enabled (env : Env) (now : Z) (req : Request) (u : User) :
  passwordSecretAuth env now req = Next (Some u) ->
  digest env req = DigestOk u \/
  (flag u "enabled" = true /\
   (multiESOnly env = true -> flag u "createEnabled" = false)).
Proof.
  unfold passwordSecretAuth.
  destruct (String.eqb (url req) "/_ns_/nstest.html"); [discriminate|].
  destruct (noAuthUrl (url req)); [discriminate|].
  assert (C : forall u0, u = userCleanup env u0 -> flag u0 "enabled" = true ->
              flag u "enabled" = true /\
              (multiESOnly env = true -> flag u "createEnabled" = false)).
  { intros u0 -> E. split; [rewrite userCleanup_enabled; exact E|].
    apply userCleanup_createEnabled. }
  destruct (JS.truthy_str (headers req "x-moloch-auth")).
  - destruct (headers req "x-moloch-auth") as [h|]; [|discriminate].
    destruct (auth2obj env h) as [obj|]; [|discriminate].
    destruct (tk_path obj) as [p|]; [|discriminate].
    destruct (negb _); [discriminate|].
    destruct (skewed now _); [discriminate|].
    destruct (receiveUrl (url req)); [discriminate|].
    intros H. right. destruct (s2sUser_enabled _ _ _ _ H) as (u0 & _ & E & A). eauto.
  - destruct (receiveUrl (url req)); [discriminate|].
    destruct (userNameHeader env) as [hn|].
    + destruct (headers req hn) as [userName|].
      * intros H. right.
        destruct (headerAuth_user _ _ _ _ H) as (u0 & E & A & _). eauto.
      * destruct (digest env req); try discriminate.
        intros H. inversion H. left. reflexivity.
    + destruct (digest env req); try discriminate.
      intros H. inversion H. left. reflexivity.
Qed.

Lemma admitted_user_enabled_witness :
  passwordSecretAuth Inputs.viewer 1600000060000 Inputs.peerRequest
    = Next (Some (userCleanup Inputs.viewer Inputs.admin)) /\
  flag (userCleanup Inputs.viewer Inputs.admin) "enabled" = true.
Proof.
  assert (H : passwordSecretAuth Inputs.viewer 1600000060000 Inputs.peerRequest
              = Next (Some (userCleanup Inputs.viewer Inputs.admin))) by reflexivity.
  split; [exact H|].
  destruct (admitted_user_enabled _ _ _ _ H) as [D | [E _]].
  - discriminate D.
  - exact E.
Defined.

End AuthFacts.

(* ------------------------------------------------------------------------ *)
(** ** Cron queries: what a turn processes, tags and searches *)

Module CronRunFacts.
Import Cron CronRun.

Lemma listedIds_app a b : listedIds (a ++ b) = (listedIds a ++ listedIds b)%list.
Proof.
  induction a as [|e a IH]; [reflexivity|].
  destruct e; simpl; rewrite IH; try reflexivity. apply app_assoc.
Qed.

Lemma taggedLists_app a b : taggedLists (a ++ b) = (taggedLists a ++ taggedLists b)%list.
Proof.
  induction a as [|e a IH]; [reflexivity|].
  destruct e; simpl; rewrite IH; reflexivity.
Qed.

Lemma forwarded_app a b : forwarded (a ++ b) = (forwarded a ++ forwarded b)%list.
Proof.
  induction a as [|e a IH]; [reflexivity|].
  destruct e; simpl; rewrite IH; try reflexivity. apply app_assoc.
Qed.

Lemma searches_app a b : searches (a ++ b) = (searches a ++ searches b)%list.
Proof.
  induction a as [|e a IH]; [reflexivity|].
  destruct e; simpl; rewrite IH; reflexivity.
Qed.

Lemma dispatch_ids env cq o hits :
  listedIds (dispatch env cq o hits) = tagsOf cq hits /\
  taggedLists (dispatch env cq o hits) = listsOf env cq [hits] /\
  forwarded (dispatch env cq o hits) = forwardsOf cq hits /\
  searches (dispatch env cq o hits) = [].
Proof.
  unfold dispatch, tagsOf, listsOf, forwardsOf.
  destruct (prefix "forward:" (action cq)); simpl.
  - rewrite app_nil_r. auto.
  - destruct (prefix "tag" (action cq)); simpl; rewrite ?app_nil_r; auto.
Qed.

Lemma tagsOf_app cq a b : tagsOf cq (a ++ b) = (tagsOf cq a ++ tagsOf cq b)%list.
Proof.
  unfold tagsOf. destruct (prefix "forward:" (action cq)); [reflexivity|].
  destruct (prefix "tag" (action cq)); [apply map_app | reflexivity].
Qed.

Lemma listsOf_cons env cq p ps :
  listsOf env cq (p :: ps) = (listsOf env cq [p] ++ listsOf env cq ps)%list.
Proof.
  unfold listsOf. destruct (prefix "forward:" (action cq)); [reflexivity|].
  destruct (prefix "tag" (action cq)); reflexivity.
Qed.

Lemma forwardsOf_app cq a b :
  forwardsOf cq (a ++ b) = (forwardsOf cq a ++ forwardsOf cq b)%list.
Proof. unfold forwardsOf. destruct (prefix "forward:" (action cq)); reflexivity. Qed.

Lemma len_nil {A : Type} (l : list A) : (len l =? 0) = true -> l = [].
Proof.
  unfold len. destruct l; [reflexivity|]. intros H. apply Z.eqb_eq in H.
  simpl in H. lia.
Qed.

Lemma len_app {A : Type} (a b : list A) : len (a ++ b) = len a + len b.
Proof. unfold len. rewrite length_app. lia. Qed.

Lemma getMoreUntilDone_consumed env cq o answers :
  forall n m effs,
    getMoreUntilDone env cq o n answers = Some (m, effs) ->
    m = n + len (consumed answers) /\
    listedIds effs = tagsOf cq (consumed answers) /\
    taggedLists effs = listsOf env cq (taken answers) /\
    forwarded effs = forwardsOf cq (consumed answers) /\
    searches effs = [].
Proof.
  induction answers as [|a rest IH]; intros n m effs; simpl; [discriminate|].
  destruct a as [|hits].
  - intros H. inversion H; subst. unfold len, tagsOf, listsOf, forwardsOf. simpl.
    destruct (prefix "forward:" (action cq)), (prefix "tag" (action cq));
      repeat split; lia.
  - destruct (len hits =? 0) eqn:E.
    + intros H. inversion H; subst. clear H.
      destruct (dispatch_ids env cq o hits) as (T & L & F & S).
      rewrite listedIds_app, taggedLists_app, forwarded_app, searches_app, T, L, F, S.
      simpl. rewrite !app_nil_r.
      apply len_nil in E. subst hits.
      unfold len, tagsOf, forwardsOf. simpl.
      destruct (prefix "forward:" (action cq)), (prefix "tag" (action cq));
        repeat split; lia.
    + destruct (getMoreUntilDone env cq o (n + len hits) rest) as [[m' effs']|] eqn:G;
        [|discriminate].
      intros H. inversion H; subst. clear H.
      destruct (IH _ _ _ G) as (M & T & L & F & S).
      destruct (dispatch_ids env cq o hits) as (T0 & L0 & F0 & S0).
      rewrite listedIds_app, taggedLists_app, forwarded_app, searches_app, T0, L0, F0, S0.
      cbn [listedIds taggedLists forwarded searches app]. rewrite T, L, F, S.
      rewrite tagsOf_app, forwardsOf_app, len_app, (listsOf_cons env cq hits (taken rest)).
      repeat split; lia.
Qed.

Lemma tick_effects env endTime id cq clk answers doc effs rep :
  tick env endTime id cq clk answers = Updated doc effs rep ->
  exists err user q n inner alert,
    getUserCacheIncAnon env (creator cq) = (err, Some user) /\
    buildQuery env cq user = Some q /\
    getMoreUntilDone env cq {| cluster := if prefix "forward:" (action cq)
                                      then Some (JS.drop 8 (action cq)) else None;
                           saveId := nodeName env ++ "-" ++ toString36 env (t_options clk);
                           o_tags := sanitize (tags cq);
                           qid := id |} 0 answers = Some (n, inner) /\
    d_count doc = JS.num_or (count cq) 0 + n /\
    rep = negb (singleEndTime cq endTime =? endTime) /\
    (alert = [] \/ exists a b c d, alert = [Alert a b c d]) /\
    effs = (Search (sliceQuery cq q endTime) :: inner ++ alert ++ [UpdateQuery id doc])%list.
Proof.
  unfold tick.
  destruct (negb (enabled cq) || (endTime <? lpValue cq)); [discriminate|].
  destruct (getUserCacheIncAnon env (creator cq)) as [err [user|]] eqn:U; [|discriminate].
  destruct (negb (u_found user)); [discriminate|].
  destruct (negb (u_enabled user)); [discriminate|].
  destruct (buildQuery env cq user) as [q|] eqn:B; [|discriminate].
  unfold processCronQuery.
  destruct (getMoreUntilDone _ _ _ 0 answers) as [[n inner]|] eqn:G; [|discriminate].
  unfold finishQuery. intros H. inversion H; subst. clear H.
  exists err, user, q, n, inner. eexists.
  repeat split; try reflexivity; try exact G; try exact B.
  destruct (notifies _ _ _ _); [right; eauto | left; reflexivity].
Qed.

(** Every session that Elasticsearch returns in a turn is handled once and in
    order: the count written for the query is its old count plus the number
    of hits taken from the scroll.  A forwarding query hands these hits to
    [sendSessionsListQL].  A tagging query hands their ids to
    [sessionsListFromIds], page by page, and [addTagsList] gets, for every
    page handled, the list that [sessionsListFromIds] answers with for the
    ids of that page. *)
Theorem every_hit_handled_once (env : Env) (endTime : Z) (id : string) (cq : CronQuery)
                               (clk : Clock) (answers : list Result) (doc : Document)
                               (effs : list Effect) (rep : bool) :
  tick env endTime id cq clk answers = Updated doc effs rep ->
  d_count doc = JS.num_or (count cq) 0 + len (consumed answers) /\
  (prefix "forward:" (action cq) = true ->
   forwarded effs = consumed answers /\ listedIds effs = [] /\ taggedLists effs = []) /\
  (prefix "forward:" (action cq) = false -> prefix "tag" (action cq) = true ->
   listedIds effs = map _id (consumed answers) /\
   taggedLists effs
   = map (fun hits => sessionsListFromIds env (map _id hits)) (taken answers) /\
   forwarded effs = []).
Proof.
  intros H. destruct (tick_effects _ _ _ _ _ _ _ _ _ H)
    as (err & user & q & n & inner & alert & _ & _ & G & C & _ & A & ->).
  destruct (getMoreUntilDone_consumed _ _ _ _ _ _ _ G) as (M & T & L & F & _).
  assert (TA : listedIds (alert ++ [UpdateQuery id doc]) = []).
  { destruct A as [-> | (a & b & c & d & ->)]; reflexivity. }
  assert (LA : taggedLists (alert ++ [UpdateQuery id doc]) = []).
  { destruct A as [-> | (a & b & c & d & ->)]; reflexivity. }
  assert (FA : forwarded (alert ++ [UpdateQuery id doc]) = []).
  { destruct A as [-> | (a & b & c & d & ->)]; reflexivity. }
  cbn [listedIds taggedLists forwarded].
  rewrite listedIds_app, taggedLists_app, forwarded_app, TA, LA, FA, T, L, F.
  rewrite !app_nil_r. unfold tagsOf, listsOf, forwardsOf.
  split; [rewrite C, M; lia|]. split.
  - intros ->. repeat split; reflexivity.
  - intros -> ->. repeat split; reflexivity.
Qed.

Lemma every_hit_handled_once_witness :
  exists doc effs rep,
    tick Inputs.cronEnv 2000 "q1" Inputs.cq Inputs.cronClock Inputs.threeMatches
      = Updated doc effs rep /\
    d_count doc = 8 /\ listedIds effs = ["a"; "b"; "c"] /\
    taggedLists effs = [[Inputs.cronHit "a"; Inputs.cronHit "b"; Inputs.cronHit "c"]; []].
Proof.
  destruct (tick Inputs.cronEnv 2000 "q1" Inputs.cq Inputs.cronClock Inputs.threeMatches)
    as [| |doc effs rep] eqn:E; try (vm_compute in E; discriminate E).
  exists doc, effs, rep. split; [reflexivity|].
  destruct (every_hit_handled_once _ _ _ _ _ _ _ _ _ E) as (C & _ & T).
  split; [exact C|]. destruct (T eq_refl eq_refl) as (T1 & T2 & _).
  split; [exact T1 | exact T2].
Defined.

(** *** Tags *)

Lemma sanitize_chars s :
  Forall (fun c => tagChar c = true) (list_ascii_of_string (sanitize s)).
Proof.
  induction s as [|c s IH]; simpl; [constructor|].
  destruct (tagChar c) eqn:E; [|exact IH].
  simpl. constructor; assumption.
Qed.

Lemma split_pieces (P : ascii -> Prop) sep s :
  Forall P (list_ascii_of_string s) ->
  Forall (fun t => Forall (fun c => P c /\ c <> sep) (list_ascii_of_string t))
         (JS.split sep s).
Proof.
  induction s as [|c s IH]; simpl; intros H.
  - repeat constructor.
  - inversion H as [|? ? Hc Hs]; subst. specialize (IH Hs).
    destruct (Ascii.eqb c sep) eqn:E.
    + constructor; [constructor | exact IH].
    + apply Ascii.eqb_neq in E.
      destruct (JS.split sep s) as [|w ws].
      * repeat constructor; assumption.
      * inversion IH; subst. constructor; [|assumption].
        simpl. constructor; [split; assumption | assumption].
Qed.

Lemma in_dispatch env cq o hits ts ids :
  In (AddTags ts ids) (dispatch env cq o hits) -> ts = JS.split ","%char (o_tags o).
Proof.
  unfold dispatch. destruct (prefix "forward:" (action cq)).
  - intros [H|[]]. discriminate.
  - destruct (prefix "tag" (action cq)); [|intros []].
    intros [H|[H|[]]]; [discriminate|]. inversion H. reflexivity.
Qed.

Lemma in_getMoreUntilDone env cq o answers ts ids :
  forall n m effs,
    getMoreUntilDone env cq o n answers = Some (m, effs) ->
    In (AddTags ts ids) effs -> ts = JS.split ","%char (o_tags o).
Proof.
  induction answers as [|a rest IH]; intros n m effs; simpl; [discriminate|].
  destruct a as [|hits].
  - intros H. inversion H. intros [].
  - destruct (len hits =? 0).
    + intros H. inversion H; subst. intros I.
      apply in_app_or in I. destruct I as [I|[I|[]]]; [|discriminate].
      eapply in_dispatch; eassumption.
    + destruct (getMoreUntilDone env cq o (n + len hits) rest) as [[m' effs']|] eqn:G;
        [|discriminate].
      intros H. inversion H; subst. intros I.
      apply in_app_or in I. destruct I as [I|[I|[I|I]]]; try discriminate.
      * eapply in_dispatch; eassumption.
      * eapply IH; eassumption.
Qed.

(** Whatever the [tags] of a cron query hold, every tag that a turn hands to
    [addTagsList] is made of the characters [-a-zA-Z0-9_:] only. *)
Theorem cron_tags_are_clean (env : Env) (endTime : Z) (id : string) (cq : CronQuery)
                            (clk : Clock) (answers : list Result) (doc : Document)
                            (effs : list Effect) (rep : bool) (ts : list string)
                            (ids : list Hit) :
  tick env endTime id cq clk answers = Updated doc effs rep ->
  In (AddTags ts ids) effs ->
  Forall safeTag ts.
Proof.
  intros H I. destruct (tick_effects _ _ _ _ _ _ _ _ _ H)
    as (err & user & q & n & inner & alert & _ & _ & G & _ & _ & A & ->).
  assert (E : ts = JS.split ","%char (sanitize (tags cq))).
  { destruct I as [I|I]; [discriminate|].
    apply in_app_or in I. destruct I as [I|I].
    - apply (in_getMoreUntilDone _ _ _ _ _ _ _ _ _ G I).
    - exfalso. apply in_app_or in I. destruct I as [I|[I|[]]]; [|discriminate].
      destruct A as [-> | (a & b & c & d & ->)]; [destruct I|].
      destruct I as [I|[]]. discriminate. }
  subst ts. apply split_pieces. apply sanitize_chars.
Qed.

Lemma cron_tags_are_clean_witness :
  exists doc effs rep,
    tick Inputs.cronEnv 2000 "q1" Inputs.cq Inputs.cronClock Inputs.threeMatches
      = Updated doc effs rep /\
    In (AddTags ["cron1"; "cron2"]
                [Inputs.cronHit "a"; Inputs.cronHit "b"; Inputs.cronHit "c"]) effs /\
    Forall safeTag ["cron1"; "cron2"].
Proof.
  destruct (tick Inputs.cronEnv 2000 "q1" Inputs.cq Inputs.cronClock Inputs.threeMatches)
    as [| |doc effs rep] eqn:E; try (vm_compute in E; discriminate E).
  exists doc, effs, rep. split; [reflexivity|].
  assert (I : In (AddTags ["cron1"; "cron2"]
                [Inputs.cronHit "a"; Inputs.cronHit "b"; Inputs.cronHit "c"]) effs).
  { vm_compute in E. inversion E. in_list. }
  split; [exact I|].
  exact (cron_tags_are_clean _ _ _ _ _ _ _ _ _ _ _ E I).
Defined.

(** *** The search of a turn *)

Lemma buildQuery_filter env cq user q :
  buildQuery env cq user = Some q ->
  exists e,
    parse env (u_emailSearch user) (query cq) = Some e /\
    q_from q = 0 /\ q_size q = 1000 /\ _source q = ["_id"; "node"] /\
    match u_expression user with
    | Some ue =>
        if String.eqb ue "" then filter q = [FEmpty; FCompiled e]
        else exists f, parse env true ue = Some f /\
                       filter q = [FEmpty; FCompiled e; FCompiled f]
    | None => filter q = [FEmpty; FCompiled e]
    end.
Proof.
  unfold buildQuery.
  destruct (parse env (u_emailSearch user) (query cq)) as [e|]; [|discriminate].
  destruct (u_expression user) as [ue|].
  - destruct (String.eqb ue "") eqn:E; simpl.
    + intros H; inversion H; subst. exists e. auto.
    + destruct (parse env true ue) as [f|]; [|discriminate].
      intros H; inversion H; subst. exists e. repeat split; eauto.
  - intros H; inversion H; subst. exists e. auto.
Qed.

(** A turn sends one search, for 1000 sessions at a time.  Its filters are the
    time range of the slice, the compiled expression of the query and, when
    the creator of the query has a forced expression, that expression
    compiled: the range takes the place of the empty first filter and leaves
    the expressions alone, so the forced expression restricts every cron
    search. *)
Theorem cron_search_keeps_forced_expression
    (env : Env) (endTime : Z) (id : string) (cq : CronQuery) (clk : Clock)
    (answers : list Result) (doc : Document) (effs : list Effect) (rep : bool)
    (err : option string) (user : Creator) :
  tick env endTime id cq clk answers = Updated doc effs rep ->
  getUserCacheIncAnon env (creator cq) = (err, Some user) ->
  exists sq e,
    searches effs = [sq] /\ q_size sq = 1000 /\
    parse env (u_emailSearch user) (query cq) = Some e /\
    match u_expression user with
    | Some ue =>
        if String.eqb ue ""
        then filter sq = [FRange "timestamp" (lpValue cq * 1000)
                                 (singleEndTime cq endTime * 1000); FCompiled e]
        else exists f, parse env true ue = Some f /\
                       filter sq = [FRange "timestamp" (lpValue cq * 1000)
                                           (singleEndTime cq endTime * 1000);
                                    FCompiled e; FCompiled f]
    | None => filter sq = [FRange "timestamp" (lpValue cq * 1000)
                                  (singleEndTime cq endTime * 1000); FCompiled e]
    end.
Proof.
  intros H U. destruct (tick_effects _ _ _ _ _ _ _ _ _ H)
    as (err' & user' & q & n & inner & alert & U' & B & G & _ & _ & A & ->).
  rewrite U in U'. inversion U'; subst err' user'. clear U'.
  destruct (getMoreUntilDone_consumed _ _ _ _ _ _ _ G) as (_ & _ & _ & _ & S).
  destruct (buildQuery_filter _ _ _ _ B) as (e & P & _ & Z1 & _ & F).
  exists (sliceQuery cq q endTime), e.
  split.
  { cbn [searches]. rewrite searches_app, S.
    destruct A as [-> | (a & b & c & d & ->)]; reflexivity. }
  split; [exact Z1|]. split; [exact P|].
  unfold sliceQuery. cbn [filter].
  destruct (u_expression user) as [ue|].
  - destruct (String.eqb ue "").
    + rewrite F. reflexivity.
    + destruct F as (f & Pf & F). exists f. rewrite F. split; [exact Pf | reflexivity].
  - rewrite F. reflexivity.
Qed.

Lemma cron_search_keeps_forced_expression_witness :
  exists doc effs rep sq,
    tick Cases.restricted 2000 "q1" Inputs.cq Inputs.cronClock Inputs.threeMatches
      = Updated doc effs rep /\
    searches effs = [sq] /\
    filter sq = [FRange "timestamp" 1000000 2000000; FCompiled "port == 80";
                 FCompiled "ip.src == 10.0.0.0/8"].
Proof.
  destruct (tick Cases.restricted 2000 "q1" Inputs.cq Inputs.cronClock Inputs.threeMatches)
    as [| |doc effs rep] eqn:E; try (vm_compute in E; discriminate E).
  destruct (cron_search_keeps_forced_expression Cases.restricted _ _ _ _ _ _ _ _
              None Cases.restrictedUser E eq_refl)
    as (sq & e & S & _ & P & F).
  exists doc, effs, rep, sq. split; [reflexivity|]. split; [exact S|].
  cbn in P. inversion P; subst e.
  cbn in F. destruct F as (f & Pf & F). inversion Pf; subst f. exact F.
Defined.

(** *** Failing searches and passes that repeat *)

Lemma getMoreUntilDone_failed env cq o pages rest :
  Forall (fun p => p <> []) pages ->
  forall n, exists effs,
    getMoreUntilDone env cq o n (map Page pages ++ Failed :: rest)
      = Some (n + len (List.concat pages), effs) /\
    ~ In ClearScroll effs.
Proof.
  induction 1 as [|p pages Hp _ IH]; intros n; simpl.
  - exists []. split; [f_equal; f_equal; unfold len; simpl; lia | intros []].
  - destruct (len p =? 0) eqn:E.
    { apply len_nil in E. contradiction. }
    destruct (IH (n + len p)) as (effs & -> & N).
    eexists. split.
    + rewrite len_app. f_equal. f_equal. lia.
    + intros I. apply in_app_or in I. destruct I as [I|[I|[I|I]]]; try discriminate.
      * unfold dispatch in I.
        destruct (prefix "forward:" (action cq)); [destruct I as [I|[]]; discriminate|].
        destruct (prefix "tag" (action cq));
          [destruct I as [I|[I|[]]]; discriminate | destruct I].
      * exact (N I).
Qed.

(** A search or scroll that fails does not hold the query back: the turn still
    writes the query with [lpValue] at the end of the slice and the count of
    the sessions it got before the failure, so the rest of the slice is not
    searched again; the scroll is not cleared. *)
Theorem failed_search_still_advances
    (env : Env) (endTime : Z) (id : string) (cq : CronQuery) (clk : Clock)
    (pages : list (list Hit)) (rest : list Result)
    (err : option string) (user : Creator) (q : Query) :
  enabled cq = true -> lpValue cq <= endTime ->
  getUserCacheIncAnon env (creator cq) = (err, Some user) ->
  u_found user = true -> u_enabled user = true ->
  buildQuery env cq user = Some q ->
  Forall (fun p => p <> []) pages ->
  exists doc effs rep,
    tick env endTime id cq clk (map Page pages ++ Failed :: rest) = Updated doc effs rep /\
    d_lpValue doc = singleEndTime cq endTime /\
    d_count doc = JS.num_or (count cq) 0 + len (List.concat pages) /\
    In (UpdateQuery id doc) effs /\ ~ In ClearScroll effs.
Proof.
  intros He Hl U Hf Hu B P. unfold tick.
  rewrite He, U, Hf, Hu, B. simpl.
  destruct (endTime <? lpValue cq) eqn:L; [apply Z.ltb_lt in L; lia|].
  unfold processCronQuery.
  match goal with
  | |- context [getMoreUntilDone env cq ?o 0 _] =>
      destruct (getMoreUntilDone_failed env cq o pages rest P 0) as (inner & -> & N)
  end.
  unfold finishQuery. do 3 eexists. split; [reflexivity|].
  cbn [d_lpValue d_count]. repeat split.
  - apply in_or_app. right. apply in_or_app. right. left. reflexivity.
  - intros I. destruct I as [I|I]; [discriminate|].
    apply in_app_or in I. destruct I as [I|I]; [exact (N I)|].
    apply in_app_or in I. destruct I as [I|[I|[]]]; [|discriminate].
    destruct (notifies _ _ _ _); [destruct I as [I|[]]; discriminate | destruct I].
Qed.

Lemma failed_search_still_advances_witness :
  exists doc effs rep,
    tick Inputs.cronEnv 2000 "q1" Inputs.cq Inputs.cronClock
         (map Page [[Inputs.cronHit "a"; Inputs.cronHit "b"]] ++ [Failed])
      = Updated doc effs rep /\
    d_lpValue doc = 2000 /\ d_count doc = 7.
Proof.
  destruct (failed_search_still_advances Inputs.cronEnv 2000 "q1" Inputs.cq Inputs.cronClock
              [[Inputs.cronHit "a"; Inputs.cronHit "b"]] []
              None _ Inputs.cronBody eq_refl ltac:(simpl; lia) eq_refl eq_refl eq_refl eq_refl
              ltac:(repeat constructor; discriminate))
    as (doc & effs & rep & T & L & C & _).
  exists doc, effs, rep. split; [exact T|]. split; [exact L | exact C].
Defined.

Lemma tick_repeat env endTime id cq clk answers doc effs :
  tick env endTime id cq clk answers = Updated doc effs true -> behind endTime cq.
Proof.
  intros H. destruct (tick_effects _ _ _ _ _ _ _ _ _ H)
    as (_ & _ & _ & _ & _ & _ & _ & _ & _ & _ & R & _).
  unfold behind, singleEndTime in *.
  symmetry in R. apply negb_true_iff in R. apply Z.eqb_neq in R. lia.
Qed.

(** A pass of [processCronQueries] asks for another pass only if it updated a
    query that was more than 24 hours behind the end of the pass; when no
    query is that far behind, the pass is the last one. *)
Theorem pass_repeats_only_when_behind
    (env : Env) (endTime : Z) (queries : list (string * CronQuery))
    (world : string -> Clock * list Result) :
  (snd (eachSeries env endTime queries world) = true ->
   exists id cq doc effs,
     In (id, cq) queries /\ behind endTime cq /\
     tick env endTime id cq (fst (world id)) (snd (world id)) = Updated doc effs true)
  /\
  ((forall id cq, In (id, cq) queries -> ~ behind endTime cq) ->
   snd (eachSeries env endTime queries world) = false).
Proof.
  assert (A : snd (eachSeries env endTime queries world) = true ->
              exists id cq doc effs,
                In (id, cq) queries /\ behind endTime cq /\
                tick env endTime id cq (fst (world id)) (snd (world id))
                = Updated doc effs true).
  { induction queries as [|[id cq] rest IH]; simpl; [discriminate|].
    destruct (tick env endTime id cq (fst (world id)) (snd (world id)))
      as [| |doc effs rep] eqn:T.
    - destruct (eachSeries env endTime rest world) as [ts r]. simpl. intros R.
      destruct (IH R) as (i & c & d & e & I & B & Ti). exists i, c, d, e. auto.
    - simpl. discriminate.
    - destruct (eachSeries env endTime rest world) as [ts r]. simpl.
      destruct rep.
      + intros _. exists id, cq, doc, effs. split; [left; reflexivity|].
        split; [eapply tick_repeat; exact T | exact T].
      + intros R. destruct (IH R) as (i & c & d & e & I & B & Ti).
        exists i, c, d, e. auto. }
  split; [exact A|].
  intros N. destruct (snd (eachSeries env endTime queries world)) eqn:R; [|reflexivity].
  destruct (A eq_refl) as (i & c & _ & _ & I & B & _).
  exfalso. exact (N i c I B).
Qed.

Lemma pass_repeats_only_when_behind_witness :
  snd (eachSeries Inputs.cronEnv 100000 [("q1", Inputs.cq)]
                  (fun _ => (Inputs.cronClock, Inputs.threeMatches))) = true /\
  behind 100000 Inputs.cq /\
  snd (eachSeries Inputs.cronEnv 2000 [("q1", Inputs.cq)]
                  (fun _ => (Inputs.cronClock, Inputs.threeMatches))) = false.
Proof.
  split; [reflexivity|]. split.
  - destruct (proj1 (pass_repeats_only_when_behind Inputs.cronEnv 100000 [("q1", Inputs.cq)]
                       (fun _ => (Inputs.cronClock, Inputs.threeMatches))) eq_refl)
      as (i & c & _ & _ & [I|[]] & B & _).
    inversion I; subst. exact B.
  - apply (proj2 (pass_repeats_only_when_behind Inputs.cronEnv 2000 [("q1", Inputs.cq)]
                    (fun _ => (Inputs.cronClock, Inputs.threeMatches)))).
    intros i c [I|[]]. inversion I; subst. unfold behind. simpl. lia.
Defined.

End CronRunFacts.

(* ------------------------------------------------------------------------ *)
(** ** Hunts: when a run finishes a hunt, and the matches it writes *)

Module HuntRunFacts.
Import Hunt HuntRun.

(** *** A hunt is finished only when no session is left to search again *)

Lemma pauseHunt_status now text fatal node h :
  status (pauseHunt now text fatal node h) = paused.
Proof. unfold pauseHunt. destruct fatal; reflexivity. Qed.

Lemma pauseHunt_matched now text fatal node h :
  matchedSessions (pauseHunt now text fatal node h) = matchedSessions h.
Proof. unfold pauseHunt. destruct fatal; reflexivity. Qed.

Lemma launch_keeps_hunt env now it w : hunt (launch env now it w) = hunt w.
Proof.
  unfold launch. destruct it as [h|s]; [|reflexivity].
  destruct (noFiles (_source h)); [|reflexivity].
  destruct (updateHuntStats _ _ _ _); reflexivity.
Qed.

Lemma finishes_same w v v' :
  hunt v = hunt w -> finishes v v' -> finishes w v'.
Proof. unfold finishes. intros <-. tauto. Qed.

Lemma pageDone_finishes nonEmpty err w : finishes w (pageDone nonEmpty err w).
Proof.
  unfold finishes, pageDone, noneFailed.
  destruct err, nonEmpty; through; auto;
    destruct (failedSessionIds (hunt w)) as [[|x l]|] eqn:E; through;
    rewrite ?E; auto.
Qed.

Lemma failedDone_finishes now w : finishes w (failedDone now w).
Proof.
  unfold finishes, failedDone, noneFailed.
  destruct (failedSessionIds (hunt w)) as [[|x l]|] eqn:E; through;
    try destruct (changes w); through; rewrite ?pauseHunt_status, ?E;
    auto; discriminate.
Qed.

Lemma finalCallback_finishes now err w : finishes w (finalCallback now err w).
Proof.
  unfold finalCallback. destruct (called w); [left; assumption|].
  destruct (mode w) as [| |nonEmpty|]; try (left; assumption).
  - eapply finishes_same; [|apply pageDone_finishes]. reflexivity.
  - eapply finishes_same; [|apply failedDone_finishes]. reflexivity.
Qed.

Lemma replenishFrom_finishes env now items :
  forall w, finishes w (replenishFrom env now items w).
Proof.
  induction items as [|it rest IH]; intros w; cbn [replenishFrom];
    destruct (Nat.leb 3 (inFlight w)); try (left; assumption).
  - destruct (Nat.eqb _ 0); [|left; assumption].
    eapply finishes_same; [|apply finalCallback_finishes]. reflexivity.
  - eapply finishes_same; [|apply IH]. apply launch_keeps_hunt.
Qed.

Lemma replenish_finishes env now w : finishes w (replenish env now w).
Proof.
  unfold replenish. destruct (done w); [left; assumption|].
  apply replenishFrom_finishes.
Qed.

Lemma iterateeCallback_finishes env now ep err w :
  finishes w (iterateeCallback env now ep err w).
Proof.
  unfold iterateeCallback. destruct (negb _); [left; assumption|].
  destruct err;
    try (eapply finishes_same; [|apply finalCallback_finishes]; reflexivity).
  destruct (done w && _); [apply finalCallback_finishes | apply replenish_finishes].
Qed.

Lemma settle_finishes env now b j s a w aft :
  finishes w (settle env now b j s a (w, aft)).
Proof.
  unfold settle. destruct aft; try (left; assumption).
  eapply finishes_same; [|apply iterateeCallback_finishes]. reflexivity.
Qed.

Lemma getMoreUntilDone_finishes env now r w : finishes w (getMoreUntilDone env now r w).
Proof.
  unfold getMoreUntilDone. destruct r as [total hits|err].
  - set (w1 := match counter w with Some _ => w | None => _ end).
    assert (S1 : status (hunt w1) = status (hunt w)).
    { unfold w1. destruct (counter w); [reflexivity|].
      destruct (negb (totalSessions _ =? _)); reflexivity. }
    intros F. destruct (replenish_finishes env now _ F) as [H|H]; [|right; exact H].
    left. rewrite <- S1. exact H.
  - intros F. exfalso. revert F. through. rewrite pauseHunt_status. discriminate.
Qed.

Lemma skipSession_keeps now sessionId h :
  match skipSession now sessionId h with
  | inl h' => status h' = paused
  | inr h' => status h' = status h
  end.
Proof.
  unfold skipSession. destruct (failedSessionIds h) as [ids|]; [|reflexivity].
  destruct (10000 <? _); [apply pauseHunt_status|].
  destruct (indexOf sessionId ids); reflexivity.
Qed.

Lemma continueHuntSkipSession_status now session sessionId searched w :
  keeps w (fst (continueHuntSkipSession now session sessionId searched w)).
Proof.
  unfold keeps, continueHuntSkipSession.
  pose proof (skipSession_keeps now sessionId (hunt w)) as K.
  destruct (skipSession now sessionId (hunt w)) as [h|h]; through; rewrite K; auto.
  discriminate.
Qed.

Lemma matchedPlus_status w : status (hunt (matchedPlus w)) = status (hunt w).
Proof. reflexivity. Qed.

Lemma sessionHunted_keeps now j a w r :
  sessionHunted now j a w = Some r -> keeps w (fst r).
Proof.
  unfold sessionHunted, keeps.
  destruct (j_wait j), a; try discriminate;
    try destruct (JS.truthy_str error);
    intros H; inversion H; subst; clear H;
    try apply continueHuntSkipSession_status;
    through; rewrite ?pauseHunt_status; try discriminate;
    try destruct matched; auto.
Qed.

Lemma gotHunt_keeps env now searched lpt now0 a w :
  status (hunt (fst (gotHunt env now searched lpt now0 a w))) = finished ->
  status (hunt w) = finished \/ a = Found finished.
Proof.
  unfold gotHunt. destruct a as [|err|st]; through.
  - auto.
  - rewrite pauseHunt_status. discriminate.
  - intros ->. right. reflexivity.
Qed.

Lemma sessionFetched_keeps now j err session w r s' :
  sessionFetched now j err session w = Some (r, s') -> keeps w (fst r).
Proof.
  unfold sessionFetched, keeps. destruct (j_wait j); try discriminate.
  destruct err.
  - intros H. inversion H; subst. apply continueHuntSkipSession_status.
  - destruct session; intros H; inversion H; subst; auto.
Qed.

(** Only the final callback of the scan or of a pass over the failed sessions
    finishes a hunt, and only when no failed session is left: a callback
    after which the hunt is finished found it finished already, or copied
    that status from the hunt document it read back, or leaves no entry in
    [failedSessionIds]. *)
Theorem finished_only_without_failed (env : Env) (now : Z) (e : Event) (w w' : World) :
  step env now e w = Some w' ->
  status (hunt w') = finished ->
  status (hunt w) = finished \/
  (exists s, e = Got s (Found finished)) \/
  noneFailed (hunt w').
Proof.
  unfold step. destruct (uncaught w); [discriminate|].
  destruct e as [r | s a | s a | s err session].
  - destruct (mode w); try discriminate. intros H F. inversion H; subst.
    destruct (getMoreUntilDone_finishes env now r w F); auto.
  - destruct (pick _ _) as [[[b j] af]|]; [|discriminate].
    destruct (sessionHunted now j a w) as [[w1 aft]|] eqn:S; [|discriminate].
    intros H F. inversion H; subst.
    destruct (settle_finishes env now b j (j_session j) af w1 aft F) as [K|K]; auto.
    left. exact (sessionHunted_keeps _ _ _ _ _ S K).
  - destruct (pick _ _) as [[[b j] af]|]; [|discriminate].
    destruct (j_wait j); try discriminate.
    intros H F. inversion H; subst.
    destruct (gotHunt env now searched lastPacketTime0 now0 a w) as [w1 aft] eqn:G.
    destruct (settle_finishes env now b j (j_session j) af w1 aft F) as [K|K]; auto.
    pose proof (gotHunt_keeps env now searched lastPacketTime0 now0 a w) as Q.
    rewrite G in Q. destruct (Q K) as [L | ->]; [auto|].
    right. left. exists s. reflexivity.
  - destruct (pick _ _) as [[[b j] af]|]; [|discriminate].
    destruct (sessionFetched now j err session w) as [[[w1 aft] s']|] eqn:S; [|discriminate].
    intros H F. inversion H; subst.
    destruct (settle_finishes env now b j s' af w1 aft F) as [K|K]; auto.
    left. exact (sessionFetched_keeps _ _ _ _ _ _ _ S K).
Qed.

Lemma finished_only_without_failed_witness :
  exists w w',
    run Inputs.localViewer 100 Cases.quietScan
        (processHuntJob Inputs.localViewer 100 None Inputs.newHunt) = Some w /\
    step Inputs.localViewer 104 (Searched (Hits 4 [])) w = Some w' /\
    status (hunt w) = running /\ status (hunt w') = finished /\
    noneFailed (hunt w').
Proof.
  eexists. eexists. split; [vm_compute; reflexivity|].
  match goal with
  | |- step ?env ?now ?e ?w = Some ?w' /\ _ =>
      assert (S : step env now e w = Some w') by (vm_compute; reflexivity)
  end.
  split; [exact S|]. split; [reflexivity|]. split; [reflexivity|].
  destruct (finished_only_without_failed _ _ _ _ _ S eq_refl) as [F | [(s & F) | F]].
  - discriminate F.
  - discriminate F.
  - exact F.
Defined.

(** *** The matches written never go down *)

Lemma nondecreasing_snoc l a b :
  nondecreasing (l ++ [a]) -> a <= b -> nondecreasing (l ++ [a; b]).
Proof.
  induction l as [|x l IH]; simpl; intros H L.
  - auto.
  - destruct l as [|y l]; simpl in *.
    + destruct H. auto.
    + destruct H as [H1 H2]. split; [exact H1|]. apply IH; assumption.
Qed.

Lemma nondecreasing_last l a b :
  nondecreasing (l ++ [a]) -> a <= b -> nondecreasing (l ++ [b]).
Proof.
  induction l as [|x l IH]; simpl; intros H L.
  - exact I.
  - destruct l as [|y l]; simpl in *.
    + destruct H. split; [lia | exact I].
    + destruct H as [H1 H2]. split; [exact H1|]. apply IH; assumption.
Qed.

Lemma nondecreasing_init l a : nondecreasing (l ++ [a]) -> nondecreasing l.
Proof.
  induction l as [|x l IH]; simpl; intros H; [exact I|].
  destruct l as [|y l]; simpl in *; [exact I|].
  destruct H as [H1 H2]. split; [exact H1 | apply IH; exact H2].
Qed.

Lemma rising_refl w : rising w w.
Proof. unfold rising. auto. Qed.

Lemma rising_trans w v u : rising w v -> rising v u -> rising w u.
Proof. unfold rising. auto. Qed.

Lemma rising_same w w' :
  writes w' = writes w -> matchedSessions (hunt w') = matchedSessions (hunt w) ->
  rising w w'.
Proof. unfold rising, matchedSoFar, matchedWritten. intros -> ->. auto. Qed.

Lemma rising_up w w' :
  writes w' = writes w -> matchedSessions (hunt w) <= matchedSessions (hunt w') ->
  rising w w'.
Proof.
  unfold rising, matchedSoFar, matchedWritten. intros -> L H.
  eapply nondecreasing_last; eassumption.
Qed.

Lemma rising_write o w : rising w (dbSetHunt o w).
Proof.
  unfold rising, matchedSoFar, matchedWritten, dbSetHunt. cbn [writes hunt].
  rewrite map_app. cbn [map snd]. rewrite <- app_assoc. cbn [app].
  intros H. apply nondecreasing_snoc; [exact H | lia].
Qed.

Lemma rising_mode m w v : rising w v -> rising w (setMode m v).
Proof. intros H. eapply rising_trans; [exact H | apply rising_same; reflexivity]. Qed.

Lemma pause_rising now text fatal node w :
  rising w (pauseHuntJobWithError now text fatal node w).
Proof.
  unfold pauseHuntJobWithError.
  eapply rising_trans; [|apply rising_write].
  apply rising_same; through; [reflexivity | apply pauseHunt_matched].
Qed.

Lemma pageDone_rising nonEmpty err w : rising w (pageDone nonEmpty err w).
Proof.
  unfold pageDone.
  destruct err, nonEmpty; try (apply rising_same; reflexivity);
    through; destruct (failedSessionIds (hunt w)) as [[|x l]|];
    apply rising_mode;
    (eapply rising_trans; [|apply rising_write]);
    apply rising_same; reflexivity.
Qed.

Lemma failedDone_rising now w : rising w (failedDone now w).
Proof.
  unfold failedDone. apply rising_mode.
  destruct (failedSessionIds (hunt w)) as [[|x l]|]; try destruct (changes w);
    first [ apply pause_rising
          | apply rising_refl
          | apply rising_write
          | eapply rising_trans; [|apply rising_write]; apply rising_same; reflexivity ].
Qed.

Lemma finalCallback_rising now err w : rising w (finalCallback now err w).
Proof.
  unfold finalCallback. destruct (called w); [apply rising_refl|].
  destruct (mode w) as [| |nonEmpty|]; try (apply rising_same; reflexivity).
  - eapply rising_trans; [|apply pageDone_rising]. apply rising_same; reflexivity.
  - eapply rising_trans; [|apply failedDone_rising]. apply rising_same; reflexivity.
Qed.

Lemma launch_writes env now it w : writes (launch env now it w) = writes w.
Proof.
  unfold launch. destruct it as [h|s]; [|reflexivity].
  destruct (noFiles (_source h)); [|reflexivity].
  destruct (updateHuntStats _ _ _ _); reflexivity.
Qed.

Lemma launch_rising env now it w : rising w (launch env now it w).
Proof.
  apply rising_same; [apply launch_writes|].
  rewrite launch_keeps_hunt. reflexivity.
Qed.

Lemma replenishFrom_rising env now items :
  forall w, rising w (replenishFrom env now items w).
Proof.
  induction items as [|it rest IH]; intros w; cbn [replenishFrom];
    destruct (Nat.leb 3 (inFlight w)); try (apply rising_same; reflexivity).
  - destruct (Nat.eqb _ 0); [|apply rising_same; reflexivity].
    eapply rising_trans; [|apply finalCallback_rising]. apply rising_same; reflexivity.
  - eapply rising_trans; [apply launch_rising | apply IH].
Qed.

Lemma replenish_rising env now w : rising w (replenish env now w).
Proof.
  unfold replenish. destruct (done w); [apply rising_refl|].
  apply replenishFrom_rising.
Qed.

Lemma iterateeCallback_rising env now ep err w :
  rising w (iterateeCallback env now ep err w).
Proof.
  unfold iterateeCallback. destruct (negb _); [apply rising_refl|].
  destruct err;
    try (eapply rising_trans; [|apply finalCallback_rising]; apply rising_same; reflexivity).
  destruct (done w && _); [apply finalCallback_rising | apply replenish_rising].
Qed.

Lemma settle_rising env now b j s a w aft : rising w (settle env now b j s a (w, aft)).
Proof.
  unfold settle. destruct aft; try (apply rising_same; reflexivity).
  eapply rising_trans; [|apply iterateeCallback_rising]. apply rising_same; reflexivity.
Qed.

Lemma getMoreUntilDone_rising env now r w : rising w (getMoreUntilDone env now r w).
Proof.
  unfold getMoreUntilDone. destruct r as [total hits|err].
  - set (w1 := match counter w with Some _ => w | None => _ end).
    eapply rising_trans; [|apply replenish_rising].
    apply rising_same; through; unfold w1; destruct (counter w); try reflexivity;
      destruct (negb (totalSessions _ =? _)); reflexivity.
  - eapply rising_trans; [apply pause_rising | apply rising_same; reflexivity].
Qed.

Lemma matchedPlus_rising w : rising w (matchedPlus w).
Proof. apply rising_up; [reflexivity | unfold matchedPlus; cbn; lia]. Qed.

Lemma continueHuntSkipSession_rising now session sessionId searched w :
  rising w (fst (continueHuntSkipSession now session sessionId searched w)).
Proof.
  unfold continueHuntSkipSession, skipSession.
  destruct (failedSessionIds (hunt w)) as [ids|].
  - destruct (10000 <? _).
    + apply (pause_rising now tooMany false None w).
    + destruct (indexOf sessionId ids); apply rising_same; reflexivity.
  - apply rising_same; reflexivity.
Qed.

Lemma sessionHunted_rising now j a w r :
  sessionHunted now j a w = Some r -> rising w (fst r).
Proof.
  unfold sessionHunted.
  destruct (j_wait j), a; try discriminate;
    try destruct (JS.truthy_str error);
    intros H; inversion H; subst; clear H; cbn [fst];
    first
      [ apply continueHuntSkipSession_rising
      | apply pause_rising
      | destruct matched;
        first
          [ apply rising_refl
          | apply matchedPlus_rising
          | apply rising_same; reflexivity
          | eapply rising_trans; [apply matchedPlus_rising | apply rising_same; reflexivity]
          | (eapply rising_trans; [|apply matchedPlus_rising]);
            apply rising_same; reflexivity ] ].
Qed.

Lemma gotHunt_rising env now searched lpt now0 a w :
  rising w (fst (gotHunt env now searched lpt now0 a w)).
Proof.
  unfold gotHunt. destruct a as [|err|st]; cbn [fst].
  - apply rising_refl.
  - apply pause_rising.
  - eapply rising_trans; [|apply rising_write]. apply rising_same; reflexivity.
Qed.

Lemma sessionFetched_rising now j err session w r s' :
  sessionFetched now j err session w = Some (r, s') -> rising w (fst r).
Proof.
  unfold sessionFetched. destruct (j_wait j); try discriminate.
  destruct err.
  - intros H. inversion H; subst. apply continueHuntSkipSession_rising.
  - destruct session; intros H; inversion H; subst; apply rising_refl.
Qed.

Lemma step_rising env now e w w' : step env now e w = Some w' -> rising w w'.
Proof.
  unfold step. destruct (uncaught w); [discriminate|].
  destruct e as [r | s a | s a | s err session].
  - destruct (mode w); try discriminate. intros H. inversion H; subst.
    apply getMoreUntilDone_rising.
  - destruct (pick _ _) as [[[b j] af]|]; [|discriminate].
    destruct (sessionHunted now j a w) as [[w1 aft]|] eqn:S; [|discriminate].
    intros H. inversion H; subst.
    eapply rising_trans; [exact (sessionHunted_rising _ _ _ _ _ S) | apply settle_rising].
  - destruct (pick _ _) as [[[b j] af]|]; [|discriminate].
    destruct (j_wait j); try discriminate.
    intros H. inversion H; subst.
    pose proof (gotHunt_rising env now searched lastPacketTime0 now0 a w) as G.
    destruct (gotHunt env now searched lastPacketTime0 now0 a w) as [w1 aft].
    eapply rising_trans; [exact G | apply settle_rising].
  - destruct (pick _ _) as [[[b j] af]|]; [|discriminate].
    destruct (sessionFetched now j err session w) as [[[w1 aft] s']|] eqn:S; [|discriminate].
    intros H. inversion H; subst.
    eapply rising_trans; [exact (sessionFetched_rising _ _ _ _ _ _ _ S) | apply settle_rising].
Qed.

Lemma run_rising env trace :
  forall clock w w', run env clock trace w = Some w' -> rising w w'.
Proof.
  induction trace as [|[now e] rest IH]; simpl; intros clock w w'.
  - intros H. inversion H. apply rising_refl.
  - destruct (now <? clock); [discriminate|].
    destruct (step env now e w) as [w1|] eqn:S; [|discriminate].
    intros H. eapply rising_trans; [exact (step_rising _ _ _ _ _ S) | eapply IH; exact H].
Qed.

Lemma processHuntJob_rising env now regexError h :
  nondecreasing (matchedSoFar (processHuntJob env now regexError h)).
Proof.
  unfold processHuntJob, runHuntJobIn.
  set (w := dbSetHunt Started (start (setLastUpdated now h))).
  assert (W : nondecreasing (matchedSoFar w)) by (cbn; lia).
  set (w0 := match regexError with
             | Some e => pauseHuntJobWithError now _ true None w
             | None => w
             end).
  assert (W0 : nondecreasing (matchedSoFar w0)).
  { unfold w0. destruct regexError; [apply pause_rising|]; exact W. }
  destruct (failedSessionIds (hunt w0)) as [[|x l]|]; try exact W0.
  destruct (searchedSessions (hunt w0) =? totalSessions (hunt w0)); [|exact W0].
  apply replenish_rising. exact W0.
Qed.

(** Whatever the order of the callbacks of a run, the number of matched
    sessions in the documents that the run gives to [Db.setHunt] never goes
    down from one document to the next. *)
Theorem matched_written_never_decreases
    (env : Env) (now : Z) (regexError : option string) (h : Hunt)
    (trace : list (Z * Event)) (w : World) :
  run env now trace (processHuntJob env now regexError h) = Some w ->
  nondecreasing (matchedWritten w).
Proof.
  intros R. apply (nondecreasing_init _ (matchedSessions (hunt w))).
  apply (run_rising _ _ _ _ _ R). apply processHuntJob_rising.
Qed.

Lemma matched_written_never_decreases_witness :
  exists w,
    run Inputs.localViewer 100 Inputs.overlap
        (processHuntJob Inputs.localViewer 100 None Inputs.newHunt) = Some w /\
    matchedWritten w = [0; 2; 4; 4] /\
    nondecreasing (matchedWritten w).
Proof.
  eexists. split; [vm_compute; reflexivity|].
  split; [reflexivity|].
  match goal with
  | |- nondecreasing (matchedWritten ?w) =>
      apply (matched_written_never_decreases Inputs.localViewer 100 None Inputs.newHunt
               Inputs.overlap w)
  end.
  vm_compute. reflexivity.
Defined.

End HuntRunFacts.

(* ------------------------------------------------------------------------ *)
(** ** Expiry: files go only while space is short *)

Module ExpiryRunFacts.
Import Expiry.

Lemma Qltb_lt a b : Qltb a b = true -> (a < b)%Q.
Proof.
  unfold Qltb. intros H. apply negb_true_iff in H.
  apply Qnot_le_lt. intros L. apply Qle_bool_iff in L. congruence.
Qed.

Lemma forEachSeries_short (w : World) (minFree : Q) (items : list File) :
  forall total deleted out left,
    forEachSeries w minFree items total deleted = (out, left) ->
    exists d,
      out = (deleted ++ d)%list /\
      forall a f b, d = (a ++ f :: b)%list ->
        10 < total - Z.of_nat (List.length a) /\
        match statVFS w (deleted ++ a) (name f) with
        | Some st => (freeOf st < minFree)%Q
        | None => True
        end /\
        (deleteFails w (deleted ++ a) f = true -> b = []).
Proof.
  induction items as [|item rest IH]; intros total deleted out left; simpl.
  - intros H. inversion H; subst. exists []. rewrite app_nil_r. split; [reflexivity|].
    intros [|x a] f b E; discriminate E.
  - assert (N : forall o l, (deleted, total) = (o, l) ->
                exists d, o = (deleted ++ d)%list /\
                  forall a f b, d = (a ++ f :: b)%list ->
                    10 < total - Z.of_nat (List.length a) /\
                    match statVFS w (deleted ++ a) (name f) with
                    | Some st => (freeOf st < minFree)%Q
                    | None => True
                    end /\
                    (deleteFails w (deleted ++ a) f = true -> b = [])).
    { intros o l H. inversion H; subst. exists []. rewrite app_nil_r.
      split; [reflexivity|]. intros [|x a] f b E; discriminate E. }
    destruct (total <=? 10) eqn:T; [apply N|]. apply Z.leb_gt in T.
    destruct (Qltb _ minFree) eqn:L; [|apply N].
    assert (S : match statVFS w deleted (name item) with
                | Some st => (freeOf st < minFree)%Q
                | None => True
                end).
    { destruct (statVFS w deleted (name item)); [apply Qltb_lt; exact L | exact I]. }
    destruct (deleteFails w deleted item) eqn:D.
    + intros H. inversion H; subst. exists [item]. split; [reflexivity|].
      intros [|x a] f b E.
      * inversion E; subst. rewrite app_nil_r. simpl. repeat split; auto. lia.
      * destruct a; discriminate E.
    + intros H. destruct (IH _ _ _ _ H) as (d & -> & P).
      exists (item :: d). rewrite <- app_assoc. split; [reflexivity|].
      intros [|x a] f b E.
      * inversion E; subst. rewrite app_nil_r. simpl. repeat split; auto; try lia.
        rewrite D. discriminate.
      * inversion E; subst.
        destruct (P a f b eq_refl) as (P1 & P2 & P3).
        rewrite <- app_assoc in P2, P3. simpl in *.
        repeat split; auto. lia.
Qed.

(** [expireDevice] deletes a file only while more than 10 matching files are
    counted and the file system that holds the file, asked after the earlier
    deletions, has less free space than [minFreeSpaceG] (or cannot be asked);
    a deletion that fails is the last one of the run. *)
Theorem deletes_only_while_short (w : World) (minFreeSpaceG : Q) (data : option Hits)
                                 (a b : list File) (f : File) :
  fst (expireWith w minFreeSpaceG data) = (a ++ f :: b)%list ->
  (exists d, data = Some d /\ 10 < total d - Z.of_nat (List.length a)) /\
  match statVFS w a (name f) with
  | Some st => (freeOf st < minFreeSpaceG)%Q
  | None => True
  end /\
  (deleteFails w a f = true -> b = []).
Proof.
  unfold expireWith. destruct data as [d|].
  2:{ simpl. intros E. destruct a; discriminate E. }
  destruct (total d <=? 10).
  { simpl. intros E. destruct a; discriminate E. }
  destruct (forEachSeries w minFreeSpaceG (hits d) (total d) []) as [out left] eqn:R.
  destruct (forEachSeries_short _ _ _ _ _ _ _ R) as (d' & -> & P).
  simpl. intros E. destruct (P a f b E) as (P1 & P2 & P3).
  split; [exists d; auto|]. split; assumption.
Qed.

Lemma deletes_only_while_short_witness :
  fst (expireDevice Inputs.fullDisk Inputs.filesIndex ["node1"] ["/data/pcap"] (inject_Z 1))
    = [Inputs.pcapFile ("a", 1)] /\
  (freeOf {| f_frsize := 4096; f_bavail := 0 |} < inject_Z 1)%Q.
Proof.
  assert (E : fst (expireWith Inputs.fullDisk (inject_Z 1)
                     (Some (search Inputs.filesIndex (buildQuery ["node1"] ["/data/pcap"]))))
              = ([] ++ Inputs.pcapFile ("a", 1) :: [])%list) by (vm_compute; reflexivity).
  split; [exact E|].
  exact (proj1 (proj2 (deletes_only_while_short _ _ _ _ _ _ E))).
Defined.

End ExpiryRunFacts.

(* ------------------------------------------------------------------------ *)
(** ** Cookie tokens, hunt access, passwords and view names *)

Module AccessFacts.
Import Http Access.

Lemma truthy_Some o : JS.truthy_str o = true -> exists h, o = Some h /\ h <> "".
Proof.
  destruct o as [h|]; simpl; [|discriminate].
  intros H. exists h. split; [reflexivity|].
  intros E. subst h. discriminate.
Qed.

Lemma truthy_of h : h <> "" -> JS.truthy_str (Some h) = true.
Proof.
  intros N. simpl. destruct (String.eqb h "") eqn:E; [|reflexivity].
  apply String.eqb_eq in E. contradiction.
Qed.

Lemma checkCookieToken_passes decode now hs u :
  passedOn (checkCookieToken decode now hs u) = true ->
  exists h token,
    hs "x-moloch-cookie" = Some h /\ h <> "" /\ decode h = Some token /\
    ck_userId token = Some (userId u) /\ expired now token = false.
Proof.
  unfold checkCookieToken.
  destruct (JS.truthy_str (hs "x-moloch-cookie")) eqn:T; simpl; [|discriminate].
  destruct (truthy_Some _ T) as (h & Hh & Hne). rewrite Hh.
  destruct (decode h) as [token|] eqn:D; [|discriminate].
  destruct (expired now token) eqn:E; simpl; [discriminate|].
  destruct (foreign token u) eqn:F; [discriminate|].
  intros _. exists h, token. repeat split; auto.
  unfold foreign in F. destruct (ck_userId token) as [t|]; [|discriminate].
  apply negb_false_iff, String.eqb_eq in F. subst t. reflexivity.
Qed.

(** A cookie that [setCookie] issued for a user is accepted from that user by
    [checkCookieToken] up to 2400000 ms (40 minutes) before or after its
    date; later, or from any other user, the answer is status 500 with the
    timeout message. *)
Theorem issued_cookie_accepted
    (obj2auth : CookieToken -> string) (decode : string -> option CookieToken)
    (now pid : Z) (u : User) (hs : string -> option string) :
  let c := setCookie obj2auth now pid u in
  decode c = Some {| ck_date := Some now; ck_pid := Some pid; ck_userId := Some (userId u) |} ->
  c <> "" ->
  hs "x-moloch-cookie" = Some c ->
  forall later : Z,
    (Z.abs (later - now) <= 2400000 -> checkCookieToken decode later hs u = Next None) /\
    (2400000 < Z.abs (later - now) ->
     checkCookieToken decode later hs u = Sent (molochError (Some 500) timeoutText fresh)) /\
    (forall other, userId other <> userId u ->
     checkCookieToken decode later hs other
     = Sent (molochError (Some 500) timeoutText fresh)).
Proof.
  intros c D N H later. unfold checkCookieToken. rewrite H, (truthy_of _ N), D.
  cbn [negb]. unfold expired, foreign. cbn [ck_date ck_userId].
  split; [|split].
  - intros L. rewrite String.eqb_refl.
    destruct (2400000 <? Z.abs (later - now)) eqn:E; [apply Z.ltb_lt in E; lia|].
    reflexivity.
  - intros L. apply Z.ltb_lt in L. rewrite L. reflexivity.
  - intros other O.
    destruct (String.eqb (userId u) (userId other)) eqn:E.
    + apply String.eqb_eq in E. symmetry in E. contradiction.
    + simpl. rewrite orb_true_r. reflexivity.
Qed.

Lemma issued_cookie_accepted_witness :
  checkCookieToken Cases.cookieOf 1600002400000 Cases.withCookie Cases.alice = Next None /\
  checkCookieToken Cases.cookieOf 1600002400001 Cases.withCookie Cases.alice
  = Sent (molochError (Some 500) timeoutText fresh) /\
  checkCookieToken Cases.cookieOf 1600000000000 Cases.withCookie Inputs.admin
  = Sent (molochError (Some 500) timeoutText fresh).
Proof.
  pose proof (issued_cookie_accepted Cases.sealed Cases.cookieOf 1600000000000 4711
                Cases.alice Cases.withCookie eq_refl ltac:(discriminate) eq_refl) as H.
  split; [|split].
  - apply (proj1 (H 1600002400000)). vm_compute. discriminate.
  - apply (proj1 (proj2 (H 1600002400001))). vm_compute. reflexivity.
  - apply (proj2 (proj2 (H 1600000000000))). discriminate.
Defined.

Lemma checkPermissions_one p u :
  inversePermissions p = false ->
  passedOn (checkPermissions [p] u) = true -> flag u p = true.
Proof.
  intros I. simpl. rewrite I. destruct (flag u p); [reflexivity|]. simpl. discriminate.
Qed.

Lemma andThen_passes o k :
  passedOn (andThen o k) = true -> passedOn o = true /\ passedOn k = true.
Proof. destruct o; simpl; auto; discriminate. Qed.

Lemma checkHuntAccess_passes get hid u :
  passedOn (checkHuntAccess get hid u) = true ->
  flag u "createEnabled" = true \/
  (f_err (get hid) = None /\ f_hit (get hid) = Some (true, Some (userId u))).
Proof.
  unfold checkHuntAccess. destruct (flag u "createEnabled"); [auto|].
  destruct (f_err (get hid)); [discriminate|].
  destruct (f_hit (get hid)) as [[[|] [o|]]|]; try discriminate.
  destruct (String.eqb o (userId u)) eqn:E; [|discriminate].
  apply String.eqb_eq in E. subst o. auto.
Qed.

(** [DELETE /hunt/:id] hands a hunt to [Db.deleteHuntItem] only if it is the
    hunt of the request, the viewer does not run over several clusters, the
    request carries a cookie token of the requesting user that has not
    expired, the user may search packets, and the user is an admin or the
    hunt document names this user as its owner. *)
Theorem hunt_deleted_only_by_owner_or_admin (v : Viewer) (now : Z) (c : Call) (hid : string) :
  In hid (removed (deleteHunt v now c)) ->
  hid = id c /\ multiES v = false /\
  (exists h token,
     headers c "x-moloch-cookie" = Some h /\ auth2obj v h = Some token /\
     ck_userId token = Some (userId (user c)) /\ expired now token = false) /\
  flag (user c) "packetSearch" = true /\
  (flag (user c) "createEnabled" = true \/
   f_hit (getHunt v (id c)) = Some (true, Some (userId (user c)))).
Proof.
  unfold deleteHunt.
  destruct (huntGate v now c) as [u0| | | |] eqn:G; try (intros []).
  destruct (multiES v); [intros []|].
  intros [<- | []].
  assert (P : passedOn (huntGate v now c) = true) by (rewrite G; reflexivity).
  unfold huntGate in P.
  apply andThen_passes in P. destruct P as [P1 P2].
  apply andThen_passes in P2. destruct P2 as [P2 P3].
  destruct (checkCookieToken_passes _ _ _ _ P1) as (h & token & Hh & _ & Hd & Hu & He).
  split; [reflexivity|]. split; [reflexivity|].
  split; [exists h, token; auto|].
  split; [apply (checkPermissions_one "packetSearch"); [reflexivity | exact P2]|].
  destruct (checkHuntAccess_passes _ _ _ P3) as [A | [_ A]]; auto.
Qed.

Lemma hunt_deleted_only_by_owner_or_admin_witness :
  removed (deleteHunt Cases.huntViewer 1600000060000 Cases.aliceDeletes) = ["h1"] /\
  removed (deleteHunt Cases.huntViewer 1600000060000 Cases.bobDeletes) = [] /\
  f_hit (getHunt Cases.huntViewer "h1") = Some (true, Some "alice").
Proof.
  assert (R : removed (deleteHunt Cases.huntViewer 1600000060000 Cases.aliceDeletes) = ["h1"])
    by reflexivity.
  split; [exact R|]. split; [reflexivity|].
  destruct (hunt_deleted_only_by_owner_or_admin Cases.huntViewer 1600000060000
              Cases.aliceDeletes "h1")
    as (_ & _ & _ & _ & [A | A]).
  - rewrite R. left. reflexivity.
  - discriminate A.
  - exact A.
Defined.

(** *** Passwords *)




(** *** Cron queries *)

Lemma checkCronAccess_passes get key u :
  passedOn (checkCronAccess get key u) = true ->
  flag u "createEnabled" = true \/
  f_hit (get key) = Some (true, Some (userId u)).
Proof.
  unfold checkCronAccess. destruct (flag u "createEnabled"); [auto|].
  destruct (f_err (get key)); [discriminate|].
  destruct (f_hit (get key)) as [[[|] [o|]]|]; try discriminate.
  destruct (String.eqb o (userId u)) eqn:E; [|discriminate].
  apply String.eqb_eq in E. subst o. auto.
Qed.

(** [POST /user/cron/delete] hands a key to [Db.deleteDocument] only if it is
    the key of the request, the request carries a cookie token of the
    requesting user that has not expired, and the user is an admin or the
    query found under the key names this user as its creator. *)
Theorem cron_deleted_only_by_creator_or_admin
    (decode : string -> option CookieToken) (s : Settings) (get : option string -> Fetch)
    (deleteFails : string -> bool) (now : Z) (c : CronCall) (key : string) :
  In key (dropped (deleteCron decode s get deleteFails now c)) ->
  c_key c = Some key /\ key <> "" /\
  (exists h token,
     c_headers c "x-moloch-cookie" = Some h /\ decode h = Some token /\
     ck_userId token = Some (userId (account (c_user c))) /\ expired now token = false) /\
  (flag (account (c_user c)) "createEnabled" = true \/
   f_hit (get (Some key)) = Some (true, Some (userId (account (c_user c))))).
Proof.
  unfold deleteCron.
  destruct (checkCookieToken decode now (c_headers c) (account (c_user c)))
    as [u0| | | |] eqn:K; try (intros []).
  assert (P : passedOn (checkCookieToken decode now (c_headers c) (account (c_user c))) = true)
    by (rewrite K; reflexivity).
  destruct (checkCookieToken_passes _ _ _ _ P) as (h & token & Hh & _ & Hd & Hu & He).
  destruct (getSettingUserDb s (c_queryUserId c) (c_user c)); [|intros []].
  destruct (checkCronAccess get (c_key c) (account (c_user c))) as [u1| | | |] eqn:A;
    try (intros []).
  assert (Q : passedOn (checkCronAccess get (c_key c) (account (c_user c))) = true)
    by (rewrite A; reflexivity).
  apply checkCronAccess_passes in Q.
  destruct (c_key c) as [k|]; [|intros []].
  destruct (String.eqb k "") eqn:E; [intros []|].
  intros [<- | []].
  split; [reflexivity|]. split.
  { intros ->. discriminate E. }
  split; [exists h, token; auto | exact Q].
Qed.

Lemma cron_deleted_only_by_creator_or_admin_witness :
  dropped (deleteCron Cases.cookieOf Cases.everyone Cases.cronQueries (fun _ => false)
             1600000060000 Cases.aliceDrops) = ["q1"] /\
  dropped (deleteCron Cases.cookieOf Cases.everyone Cases.cronQueries (fun _ => false)
             1600000060000 Cases.bobDrops) = [] /\
  Cases.cronQueries (Some "q1")
  = {| f_err := None; f_hit := Some (true, Some "alice") |}.
Proof.
  assert (D : dropped (deleteCron Cases.cookieOf Cases.everyone Cases.cronQueries
                         (fun _ => false) 1600000060000 Cases.aliceDrops) = ["q1"])
    by reflexivity.
  split; [exact D|]. split; [reflexivity|].
  destruct (cron_deleted_only_by_creator_or_admin Cases.cookieOf Cases.everyone
              Cases.cronQueries (fun _ => false) 1600000060000 Cases.aliceDrops "q1")
    as (_ & _ & _ & [A | A]).
  - rewrite D. left. reflexivity.
  - discriminate A.
  - reflexivity.
Defined.

(** *** View names *)

Lemma keep_plain s : plain (keep viewChar s).
Proof.
  unfold plain. induction s as [|c s IH]; simpl; [constructor|].
  destruct (viewChar c) eqn:E; [|exact IH].
  simpl. constructor; assumption.
Qed.

Lemma keep_fixed s : plain s -> keep viewChar s = s.
Proof.
  unfold plain. induction s as [|c s IH]; simpl; intros H; [reflexivity|].
  inversion H as [|? ? Hc Hs]; subst. rewrite Hc, (IH Hs). reflexivity.
Qed.

Lemma dropShared_fixed n s : prefix "shared:" s = false -> dropShared n s = s.
Proof. intros P. destruct n; simpl; [reflexivity|]. rewrite P. reflexivity. Qed.

(** The name that [sanitizeViewName] leaves in the request holds only the
    characters [-a-zA-Z0-9_: ]; a name that holds only these and does not
    begin with [shared:] is left as it is, and so is a missing or empty
    name. *)
Theorem view_name_is_plain (name : option string) :
  (forall n, sanitizeViewName name = Some n -> n <> "" -> plain n) /\
  (forall n, name = Some n -> plain n -> prefix "shared:" n = false ->
             sanitizeViewName name = Some n) /\
  (JS.truthy_str name = false -> sanitizeViewName name = name).
Proof.
  unfold sanitizeViewName. split; [|split].
  - intros n. destruct (JS.truthy_str name) eqn:T.
    + destruct name as [m|]; [|discriminate].
      intros H _. inversion H. apply keep_plain.
    + destruct name as [m|]; [|discriminate].
      simpl in T. apply negb_false_iff, String.eqb_eq in T. subst m.
      intros H N. inversion H. subst n. contradiction.
  - intros n -> P S. destruct (JS.truthy_str (Some n)); [|reflexivity].
    unfold cleanName. rewrite (dropShared_fixed _ _ S), (keep_fixed _ P). reflexivity.
  - intros ->. reflexivity.
Qed.

Lemma view_name_is_plain_witness :
  sanitizeViewName (Some "shared:shared:my view!") = Some "my view" /\
  plain "my view" /\
  sanitizeViewName (Some "my view") = Some "my view".
Proof.
  assert (S : sanitizeViewName (Some "shared:shared:my view!") = Some "my view")
    by reflexivity.
  split; [exact S|].
  assert (P : plain "my view").
  { apply (proj1 (view_name_is_plain (Some "shared:shared:my view!")) _ S). discriminate. }
  split; [exact P|].
  apply (proj1 (proj2 (view_name_is_plain (Some "my view"))) _ eq_refl P). reflexivity.
Defined.

End AccessFacts.

(* ------------------------------------------------------------------------ *)
(** ** Which packets a hunt searches, and how *)

Module SearchFacts.
Import Search.

Lemma hex_digit_ok n :
  Forall (fun c => hexDigit c = true) (list_ascii_of_string (JS.hex_digit n)).
Proof.
  unfold JS.hex_digit. simpl. constructor; [|constructor].
  do 16 (destruct n as [|n]; [reflexivity|]). destruct n; reflexivity.
Qed.

Lemma chars_app a b :
  list_ascii_of_string (a ++ b) = (list_ascii_of_string a ++ list_ascii_of_string b)%list.
Proof. induction a as [|c a IH]; simpl; [reflexivity|]. rewrite IH. reflexivity. Qed.

Lemma hex_digits packet :
  Forall (fun c => hexDigit c = true) (list_ascii_of_string (hex packet)).
Proof.
  induction packet as [|b rest IH]; cbn [hex]; [constructor|].
  unfold hexByte. rewrite !chars_app. repeat (apply Forall_app; split); auto using hex_digit_ok.
Qed.

Lemma prefix_chars pat s c :
  prefix pat s = true -> In c (list_ascii_of_string pat) -> In c (list_ascii_of_string s).
Proof.
  revert s. induction pat as [|a pat IH]; intros s; cbn [prefix list_ascii_of_string In];
    [intros _ []|].
  destruct s as [|b s]; cbn [prefix]; [discriminate|].
  destruct (ascii_dec a b) as [->|]; [|discriminate].
  intros P [-> | I]; cbn [list_ascii_of_string In];
    [left; reflexivity | right; apply IH; assumption].
Qed.

Lemma includes_chars pat s c :
  Http.includes pat s = true ->
  In c (list_ascii_of_string pat) -> In c (list_ascii_of_string s).
Proof.
  induction s as [|b s IH]; simpl; intros H I.
  - rewrite orb_false_r in H. eapply (prefix_chars pat ""); eassumption.
  - apply orb_true_iff in H. destruct H as [H | H].
    + apply (prefix_chars pat (String b s) c H I).
    + right. apply IH; assumption.
Qed.

Section Hunting.
Variable Regex : Type.
Variable utf8 : list Z -> string.
Variable toLowerCase : string -> string.
Variable found : Regex -> string -> bool.

(** A [hex] search compares the search text as it is with the lower-case hex
    digits of the packet: a text that holds any other character, an
    upper-case [A] to [F] included, is found in no packet. *)
Theorem hex_search_needs_hex_digits (packet : list Z) (o : Options Regex) (c : ascii) :
  searchType o = "hex" ->
  In c (list_ascii_of_string (search o)) -> hexDigit c = false ->
  packetSearch Regex utf8 toLowerCase found packet o = false.
Proof.
  intros T I N. unfold packetSearch. rewrite T. cbn.
  destruct (Http.includes (search o) (hex packet)) eqn:E; [|reflexivity].
  pose proof (includes_chars _ _ _ E I) as J.
  pose proof (hex_digits packet) as D.
  rewrite Forall_forall in D. rewrite (D _ J) in N. discriminate.
Qed.

Lemma scan_found fuel :
  forall i inc ps o,
    scan Regex utf8 toLowerCase found fuel i inc ps o = true ->
    exists k data, nth_error ps (i + k * inc) = Some data /\
                   packetSearch Regex utf8 toLowerCase found data o = true.
Proof.
  induction fuel as [|fuel IH]; intros i inc ps o; simpl; [discriminate|].
  destruct (nth_error ps i) as [data|] eqn:N; [|discriminate].
  destruct (packetSearch Regex utf8 toLowerCase found data o) eqn:P.
  - intros _. exists O, data. rewrite Nat.add_0_r. auto.
  - intros H. destruct (IH _ _ _ _ H) as (k & d & Hn & Hp).
    exists (S k), d. split; [|exact Hp].
    rewrite <- Hn. f_equal. simpl. lia.
Qed.

Lemma scan_finds fuel :
  forall i inc ps o k data,
    (0 < inc)%nat -> (List.length ps < i + fuel)%nat ->
    nth_error ps (i + k * inc) = Some data ->
    packetSearch Regex utf8 toLowerCase found data o = true ->
    scan Regex utf8 toLowerCase found fuel i inc ps o = true.
Proof.
  induction fuel as [|fuel IH]; intros i inc ps o k data Hi Hf Hn Hp.
  - exfalso. assert (L : (i + k * inc < List.length ps)%nat).
    { apply nth_error_Some. rewrite Hn. discriminate. }
    lia.
  - simpl. destruct (nth_error ps i) as [d|] eqn:N.
    + destruct (packetSearch Regex utf8 toLowerCase found d o) eqn:P; [reflexivity|].
      destruct k as [|k].
      * rewrite Nat.add_0_r in Hn. rewrite Hn in N. inversion N; subst. congruence.
      * apply (IH (i + inc)%nat inc ps o k data Hi); [lia | | exact Hp].
        rewrite <- Hn. f_equal. simpl. lia.
    + exfalso. apply nth_error_None in N.
      assert (L : (i + k * inc < List.length ps)%nat).
      { apply nth_error_Some. rewrite Hn. discriminate. }
      lia.
Qed.

Lemma scan_iff i inc ps o :
  (0 < inc)%nat ->
  scan Regex utf8 toLowerCase found (S (List.length ps)) i inc ps o = true <->
  exists k data, nth_error ps (i + k * inc) = Some data /\
                 packetSearch Regex utf8 toLowerCase found data o = true.
Proof.
  intros Hi. split.
  - apply scan_found.
  - intros (k & data & Hn & Hp). eapply scan_finds; try eassumption. lia.
Qed.

(** A hunt over reassembled packets that searches the source side only
    reports a match exactly when a packet at an even position matches; one
    that searches the destination side only, when a packet at an odd position
    matches; otherwise, when any packet matches.  When the packets cannot be
    read it reports no match. *)
Theorem reassembled_hunt_sides (fromSource : list Z -> bool) (o : Options Regex)
                               (ps : list (list Z)) :
  type o = "reassembled" ->
  sessionHunt Regex utf8 toLowerCase found fromSource o None = Some false /\
  let matchAt (n : nat) :=
    exists data, nth_error ps n = Some data /\
                 packetSearch Regex utf8 toLowerCase found data o = true in
  let hunted := sessionHunt Regex utf8 toLowerCase found fromSource o (Some ps) in
  (truthy (src o) = true -> truthy (dst o) = false ->
   (hunted = Some true <-> exists k, matchAt (2 * k)%nat)) /\
  (truthy (dst o) = true -> truthy (src o) = false ->
   (hunted = Some true <-> exists k, matchAt (2 * k + 1)%nat)) /\
  (truthy (src o) = truthy (dst o) ->
   (hunted = Some true <-> exists k, matchAt k)).
Proof.
  intros T. unfold sessionHunt. rewrite T. cbn [String.eqb Ascii.eqb Bool.eqb].
  split; [reflexivity|]. cbv zeta.
  assert (E : forall b : bool, Some b = Some true <-> b = true).
  { intros b. split; [intros H; inversion H; reflexivity | intros ->; reflexivity]. }
  unfold stride. split; [|split].
  - intros S D. rewrite S, D. cbn [andb negb fst snd]. rewrite E, scan_iff by lia.
    split; intros (k & data & Hn & Hp); exists k, data; split; auto;
      rewrite <- Hn; f_equal; lia.
  - intros D S. rewrite S, D. cbn [andb negb fst snd]. rewrite E, scan_iff by lia.
    split; intros (k & data & Hn & Hp); exists k, data; split; auto;
      rewrite <- Hn; f_equal; lia.
  - intros S. rewrite S. destruct (truthy (dst o)); cbn [andb negb fst snd];
      rewrite E, scan_iff by lia;
      (split; intros (k & data & Hn & Hp); exists k, data; split; auto;
       rewrite <- Hn; f_equal; lia).
Qed.

End Hunting.

Lemma hex_search_needs_hex_digits_witness :
  packetSearch Cases.Pattern Cases.latin1 Cases.lower Cases.finds [74; 75]
               (Cases.hexHunt "4A") = false /\
  packetSearch Cases.Pattern Cases.latin1 Cases.lower Cases.finds [74; 75]
               (Cases.hexHunt "4a") = true.
Proof.
  split; [|reflexivity].
  apply (hex_search_needs_hex_digits Cases.Pattern Cases.latin1 Cases.lower Cases.finds
           [74; 75] (Cases.hexHunt "4A") "A"%char); [reflexivity | | reflexivity].
  simpl. right. left. reflexivity.
Defined.

Lemma reassembled_hunt_sides_witness :
  sessionHunt Cases.Pattern Cases.latin1 Cases.lower Cases.finds (fun _ => true)
              Cases.sourceHunt (Some [[71; 69; 84]; [79; 75]; [79; 75]]) = Some false /\
  sessionHunt Cases.Pattern Cases.latin1 Cases.lower Cases.finds (fun _ => true)
              Cases.sourceHunt (Some [[71; 69; 84]; [79; 75]; [79; 75; 33]]) = Some true.
Proof.
  split; [reflexivity|].
  apply (proj1 (proj2 (reassembled_hunt_sides Cases.Pattern Cases.latin1 Cases.lower
                         Cases.finds (fun _ => true) Cases.sourceHunt
                         [[71; 69; 84]; [79; 75]; [79; 75; 33]] eq_refl))
           eq_refl eq_refl).
  exists 1%nat, [79; 75; 33]. split; reflexivity.
Defined.

End SearchFacts.

(* ------------------------------------------------------------------------ *)
(** ** Hunt jobs: which hunt runs, who shares a hunt, what the list shows *)

Module JobsFacts.
Import Http Jobs.

(** *** The runner *)

Lemma firstJob_split hits id st :
  firstJob hits = Some (id, st) ->
  exists before after,
    hits = (before ++ (id, st) :: after)%list /\ Forall passedOver before /\
    (st = Hunt.running \/ st = Hunt.queued).
Proof.
  induction hits as [|[i s] rest IH]; simpl; [discriminate|].
  destruct s.
  - intros H. inversion H; subst. exists [], rest. auto.
  - intros H. inversion H; subst. exists [], rest. auto.
  - intros H. destruct (IH H) as (b & a & -> & F & S).
    exists ((i, Hunt.paused) :: b), a. repeat split; auto.
    constructor; [split; discriminate | exact F].
  - intros H. destruct (IH H) as (b & a & -> & F & S).
    exists ((i, Hunt.finished) :: b), a. repeat split; auto.
    constructor; [split; discriminate | exact F].
Qed.

(** [processHuntJobs] starts a hunt only when no job is marked as running,
    and marks one as running when it does.  The hunt it starts is the oldest
    one that is running or queued: a queued hunt is begun, a running hunt is
    taken up again if that has not been done since the viewer started.  While
    the mark is set, further calls start nothing. *)
Theorem oldest_waiting_hunt_starts (i i' : Internals)
                                   (answer : option (list (string * Hunt.Status)))
                                   (l : Launch) :
  processHuntJobs i answer = (i', Some l) ->
  runningHuntJob i = false /\ runningHuntJob i' = true /\
  (exists hits before id st after,
     answer = Some hits /\ hits = (before ++ (id, st) :: after)%list /\
     Forall passedOver before /\
     ((l = Begin id /\ st = Hunt.queued) \/
      (l = Resume id /\ st = Hunt.running /\ proccessHuntJobsInitialized i = false))) /\
  forall later, processHuntJobs i' later = (i', None).
Proof.
  unfold processHuntJobs at 1.
  destruct (runningHuntJob i) eqn:R; [discriminate|].
  destruct answer as [hits|]; [|discriminate].
  destruct (firstJob hits) as [[id st]|] eqn:F; [|discriminate].
  destruct (firstJob_split _ _ _ F) as (b & a & E & P & S).
  assert (L : forall j, runningHuntJob j = true ->
              forall later, processHuntJobs j later = (j, None)).
  { intros j J later. unfold processHuntJobs. rewrite J. reflexivity. }
  destruct st; try (destruct S; discriminate).
  - intros H. inversion H; subst i' l. clear H.
    split; [reflexivity|]. split; [reflexivity|]. split; [|apply L; reflexivity].
    exists hits, b, id, Hunt.queued, a. repeat split; auto.
  - destruct (proccessHuntJobsInitialized i) eqn:I; [discriminate|].
    intros H. inversion H; subst i' l. clear H.
    split; [reflexivity|]. split; [reflexivity|]. split; [|apply L; reflexivity].
    exists hits, b, id, Hunt.running, a. repeat split; auto.
Qed.

Lemma oldest_waiting_hunt_starts_witness :
  processHuntJobs {| runningHuntJob := false; proccessHuntJobsInitialized := true |}
                  (Some Cases.waiting)
  = ({| runningHuntJob := true; proccessHuntJobsInitialized := true |}, Some (Begin "h2")) /\
  processHuntJobs {| runningHuntJob := true; proccessHuntJobsInitialized := true |}
                  (Some Cases.waiting)
  = ({| runningHuntJob := true; proccessHuntJobsInitialized := true |}, None).
Proof.
  assert (P : processHuntJobs {| runningHuntJob := false;
                                 proccessHuntJobsInitialized := true |}
                              (Some Cases.waiting)
              = ({| runningHuntJob := true; proccessHuntJobsInitialized := true |},
                 Some (Begin "h2"))) by reflexivity.
  split; [exact P|].
  exact (proj2 (proj2 (proj2 (oldest_waiting_hunt_starts _ _ _ _ P))) (Some Cases.waiting)).
Defined.

(** Pausing the hunt that is running writes it as paused and frees the
    runner at once: the call of [processHuntJobs] that follows begins the
    oldest queued hunt.  Pausing another hunt while a job is marked as
    running starts nothing, and a finished hunt is not written. *)
Theorem pausing_frees_the_runner (i : Internals) (hits : list (string * Hunt.Status)) :
  (forall id,
     firstJob hits = Some (id, Hunt.queued) ->
     exists i2 res,
       pause false i (Stored Hunt.running) false (Some hits)
       = (i2, res, Some Hunt.paused, Some (Begin id)) /\
       runningHuntJob i2 = true /\ statusCode res = 200) /\
  (forall current,
     runningHuntJob i = true -> current <> Hunt.running -> current <> Hunt.finished ->
     exists res, pause false i (Stored current) false (Some hits)
                 = (i, res, Some Hunt.paused, None)) /\
  (forall multiES setFails hunts,
     exists i2 res, pause multiES i (Stored Hunt.finished) setFails hunts
                    = (i2, res, None, None) /\ statusCode res <> 200).
Proof.
  split; [|split].
  - intros id F. unfold pause, updateHuntStatus, processHuntJobs.
    cbn. rewrite F. do 2 eexists. split; [reflexivity|]. split; reflexivity.
  - intros current R N1 N2. unfold pause, updateHuntStatus, processHuntJobs.
    destruct current; try contradiction; cbn; rewrite R; eexists; reflexivity.
  - intros multiES setFails hunts. unfold pause, updateHuntStatus.
    destruct multiES; cbn; do 2 eexists; (split; [reflexivity | cbn; discriminate]).
Qed.

Lemma pausing_frees_the_runner_witness :
  pause false {| runningHuntJob := true; proccessHuntJobsInitialized := true |}
        (Stored Hunt.running) false (Some Cases.waiting)
  = ({| runningHuntJob := true; proccessHuntJobsInitialized := true |},
     res_send (JS.stringify [("success", JS.ABool true);
                             ("text", JS.AStr "Paused hunt item successfully")]) fresh,
     Some Hunt.paused, Some (Begin "h2")).
Proof.
  destruct (proj1 (pausing_frees_the_runner
                     {| runningHuntJob := true; proccessHuntJobsInitialized := true |}
                     Cases.waiting) "h2" eq_refl)
    as (i2 & res & P & _ & _).
  rewrite P. cbn in P. inversion P. reflexivity.
Defined.

(** *** Users of a hunt *)

Lemma sortUser_fold usersList ids :
  forall v w,
    fold_left (sortUser usersList) ids (v, w)
    = ((v ++ filter (fun u => existsb (String.eqb u) usersList) ids)%list,
       (w ++ filter (fun u => negb (existsb (String.eqb u) usersList)) ids)%list).
Proof.
  induction ids as [|x rest IH]; intros v w; simpl.
  - rewrite !app_nil_r. reflexivity.
  - unfold sortUser at 2. cbn [fst snd].
    destruct (existsb (String.eqb x) usersList); cbn [negb];
      rewrite IH, <- ?app_assoc; reflexivity.
Qed.

Lemma existsb_In x l : existsb (String.eqb x) l = true <-> In x l.
Proof.
  rewrite existsb_exists. split.
  - intros (y & I & E). apply String.eqb_eq in E. subst. exact I.
  - intros I. exists x. split; [exact I | apply String.eqb_refl].
Qed.

Lemma validateUserIds_lists usersList ids valid invalid :
  validateUserIds false (Some usersList) ids = Some (valid, invalid) ->
  valid = filter (fun u => existsb (String.eqb u) usersList) ids /\
  invalid = filter (fun u => negb (existsb (String.eqb u) usersList)) ids /\
  (forall u, In u valid <-> In u ids /\ In u usersList) /\
  (forall u, In u invalid <-> In u ids /\ ~ In u usersList) /\
  (List.length valid + List.length invalid = List.length ids)%nat.
Proof.
  unfold validateUserIds. rewrite sortUser_fold. cbn [app].
  intros H. inversion H; subst valid invalid. clear H.
  split; [reflexivity|]. split; [reflexivity|]. split; [|split].
  - intros u. rewrite filter_In, existsb_In. tauto.
  - intros u. rewrite filter_In, negb_true_iff.
    split.
    + intros [I E]. split; [exact I|]. intros J. apply existsb_In in J. congruence.
    + intros [I N]. split; [exact I|].
      destruct (existsb (String.eqb u) usersList) eqn:E; [|reflexivity].
      apply existsb_In in E. contradiction.
  - induction ids as [|x rest IH]; simpl; [reflexivity|].
    destruct (existsb (String.eqb x) usersList); simpl; lia.
Qed.

(** [validateUserIds] sorts the ids it is given into two lists, each in the
    order given: an id lands with the valid ones exactly when it is the id of
    a user that the search returned, and with the invalid ones otherwise;
    none is lost.  In anonymous mode both lists are empty. *)
Theorem validated_ids_partition (anonymous : bool) (usersList ids valid invalid : list string) :
  validateUserIds anonymous (Some usersList) ids = Some (valid, invalid) ->
  (anonymous = true -> valid = [] /\ invalid = []) /\
  (anonymous = false ->
   valid = filter (fun u => existsb (String.eqb u) usersList) ids /\
   invalid = filter (fun u => negb (existsb (String.eqb u) usersList)) ids /\
   (forall u, In u valid <-> In u ids /\ In u usersList) /\
   (forall u, In u invalid <-> In u ids /\ ~ In u usersList) /\
   (List.length valid + List.length invalid = List.length ids)%nat).
Proof.
  destruct anonymous.
  - unfold validateUserIds. intros H. inversion H. split; [auto | discriminate].
  - intros H. split; [discriminate|]. intros _. apply validateUserIds_lists. exact H.
Qed.

Lemma validated_ids_partition_witness :
  validateUserIds false (Some ["alice"; "bob"]) ["bob"; "eve"; "alice"; "bob"]
  = Some (["bob"; "alice"; "bob"], ["eve"]) /\
  (List.length ["bob"; "alice"; "bob"] + List.length ["eve"] = 4)%nat.
Proof.
  assert (V : validateUserIds false (Some ["alice"; "bob"]) ["bob"; "eve"; "alice"; "bob"]
              = Some (["bob"; "alice"; "bob"], ["eve"])) by reflexivity.
  split; [exact V|].
  destruct (proj2 (validated_ids_partition _ _ _ _ _ V) eq_refl) as (_ & _ & _ & _ & L).
  exact L.
Defined.

Lemma dedupe_spec a :
  forall seen,
    NoDup (dedupe seen a) /\
    forall u, In u (dedupe seen a) <-> In u a /\ ~ In u seen.
Proof.
  induction a as [|x rest IH]; intros seen; simpl.
  - split; [constructor | intros u; tauto].
  - destruct (existsb (String.eqb x) seen) eqn:E.
    + apply existsb_In in E. destruct (IH seen) as [N M]. split; [exact N|].
      intros u. rewrite M. split.
      * intros [I S]. auto.
      * intros [[-> | I] S]; [contradiction | auto].
    + assert (X : ~ In x seen).
      { intros I. apply existsb_In in I. congruence. }
      destruct (IH (x :: seen)) as [N M]. split.
      * constructor; [|exact N]. rewrite M. simpl. tauto.
      * intros u. simpl. rewrite M. simpl. split.
        -- intros [-> | [I S]]; [auto | tauto].
        -- intros [[-> | I] S]; [auto|].
           destruct (string_dec x u) as [-> | D]; [auto | right; tauto].
Qed.

Lemma addUsers_written usersList users reqUsers written invalid :
  addUsers false (Some usersList) users reqUsers = Written written invalid ->
  NoDup written /\
  (forall u, In u written <->
             In u (match users with Some us => us | None => [] end)
             \/ (In u reqUsers /\ In u usersList)) /\
  (forall u, In u invalid <-> In u reqUsers /\ ~ In u usersList).
Proof.
  unfold addUsers.
  destruct (validateUserIds false (Some usersList) reqUsers) as [[valid inv]|] eqn:V;
    [|discriminate].
  destruct (validateUserIds_lists _ _ _ _ V) as (_ & _ & Hv & Hi & _).
  destruct valid as [|v0 valid]; [discriminate|].
  intros H. inversion H; subst written invalid. clear H.
  match goal with
  | |- NoDup (dedupe [] ?a) /\ _ => destruct (dedupe_spec a []) as [N M]
  end.
  split; [exact N|]. split; [|exact Hi].
  intros u. rewrite M. destruct users as [us|].
  - rewrite in_app_iff, Hv. simpl. tauto.
  - rewrite Hv. simpl. tauto.
Qed.

(** The users that [POST /hunt/:id/users] writes with a hunt hold no user
    twice; they are the users the hunt had and the ids of the request that
    belong to users, and nobody else. *)
Theorem shared_users_are_distinct (usersList : list string) (users : option (list string))
                                  (reqUsers written invalid : list string) :
  addUsers false (Some usersList) users reqUsers = Written written invalid ->
  NoDup written /\
  (forall u, In u written <->
             In u (match users with Some us => us | None => [] end)
             \/ (In u reqUsers /\ In u usersList)) /\
  (forall u, In u invalid <-> In u reqUsers /\ ~ In u usersList).
Proof. apply addUsers_written. Qed.

Lemma indexOf_split x a k :
  Hunt.indexOf x a = Some k ->
  a = (firstn k a ++ x :: skipn (S k) a)%list /\ ~ In x (firstn k a).
Proof.
  revert k. induction a as [|y rest IH]; simpl; intros k; [discriminate|].
  destruct (String.eqb y x) eqn:E.
  - intros H. inversion H; subst. apply String.eqb_eq in E. subst. simpl. auto.
  - destruct (Hunt.indexOf x rest) as [i|]; [|discriminate].
    intros H. inversion H; subst. destruct (IH i eq_refl) as [S N].
    simpl. split; [f_equal; exact S|].
    intros [I | I]; [|contradiction].
    subst. rewrite String.eqb_refl in E. discriminate.
Qed.

(** A user who is taken off a hunt that [POST /hunt/:id/users] wrote is off
    it: the users written by [DELETE /hunt/:id/users/:user] do not hold the
    user any more, and hold every other user still. *)
Theorem removed_user_is_gone (usersList : list string) (users : option (list string))
                             (reqUsers written invalid : list string) (user : string)
                             (left : list string) :
  addUsers false (Some usersList) users reqUsers = Written written invalid ->
  removeUser (Some written) user = inr left ->
  ~ In user left /\ forall u, u <> user -> (In u left <-> In u written).
Proof.
  intros A R. destruct (addUsers_written _ _ _ _ _ A) as [N _].
  unfold removeUser in R. destruct written as [|w0 ws]; [discriminate|].
  destruct (Hunt.indexOf user (w0 :: ws)) as [k|] eqn:I; [|discriminate].
  destruct (indexOf_split _ _ _ I) as [Sp F].
  remember (firstn k (w0 :: ws)) as pre eqn:Epre in *.
  remember (skipn (S k) (w0 :: ws)) as post eqn:Epost in *.
  clear Epre Epost I.
  inversion R; subst left. clear R.
  rewrite Sp in N. apply NoDup_remove in N. destruct N as [N1 N2].
  split; [exact N2|].
  intros u D. rewrite Sp, !in_app_iff. simpl. split; [tauto|].
  intros [H | [H | H]]; auto. congruence.
Qed.

Lemma removed_user_is_gone_witness :
  addUsers false (Some ["alice"; "bob"; "carol"]) (Some ["bob"]) ["carol"; "bob"; "eve"]
  = Written ["bob"; "carol"] ["eve"] /\
  removeUser (Some ["bob"; "carol"]) "bob" = inr ["carol"] /\
  ~ In "bob" ["carol"].
Proof.
  assert (A : addUsers false (Some ["alice"; "bob"; "carol"]) (Some ["bob"])
                       ["carol"; "bob"; "eve"]
              = Written ["bob"; "carol"] ["eve"]) by reflexivity.
  assert (R : removeUser (Some ["bob"; "carol"]) "bob" = inr ["carol"]) by reflexivity.
  split; [exact A|]. split; [exact R|].
  exact (proj1 (removed_user_is_gone _ _ _ _ _ _ _ A R)).
Defined.

Lemma shared_users_are_distinct_witness :
  addUsers false (Some ["alice"; "bob"; "carol"]) (Some ["bob"]) ["carol"; "bob"; "eve"]
  = Written ["bob"; "carol"] ["eve"] /\
  NoDup ["bob"; "carol"].
Proof.
  assert (A : addUsers false (Some ["alice"; "bob"; "carol"]) (Some ["bob"])
                       ["carol"; "bob"; "eve"]
              = Written ["bob"; "carol"] ["eve"]) by reflexivity.
  split; [exact A|].
  exact (proj1 (shared_users_are_distinct _ _ _ _ _ A)).
Defined.

(** *** The list of hunts *)

Lemma listHunts_data running user hits :
  forall r data r',
    listHunts running user hits r = (data, r') ->
    (forall l, In l data ->
       exists h, In h hits /\
                 (running && isStatus (h_status h) Hunt.running = false) /\
                 l = if stranger user h then cleared h else shown h) /\
    (r' = r \/ exists h, In h hits /\ h_status h = Hunt.running /\ running = true /\
                         r' = Some (asFound h)).
Proof.
  induction hits as [|h rest IH]; intros r data r'; simpl.
  - intros H. inversion H; subst. split; [intros l [] | left; reflexivity].
  - destruct (running && isStatus (h_status h) Hunt.running) eqn:E.
    + intros H. destruct (IH _ _ _ H) as [D R]. split.
      * intros l I. destruct (D l I) as (h' & I' & P). exists h'. split; [right; exact I' | exact P].
      * right. destruct R as [-> | (h' & I' & P)].
        -- exists h. split; [left; reflexivity|].
           apply andb_true_iff in E. destruct E as [-> E].
           destruct (h_status h); try discriminate. auto.
        -- exists h'. split; [right; exact I' | exact P].
    + destruct (listHunts running user rest r) as [d r0] eqn:L.
      intros H. inversion H; subst. clear H.
      destruct (IH _ _ _ L) as [D R]. split.
      * intros l [<- | I].
        -- exists h. split; [left; reflexivity|]. split; [exact E | reflexivity].
        -- destruct (D l I) as (h' & I' & P). exists h'. split; [right; exact I' | exact P].
      * destruct R as [-> | (h' & I' & P)]; [left; reflexivity|].
        right. exists h'. split; [right; exact I' | exact P].
Qed.

(** In the [data] of [GET /hunt/list], a hunt that the asking user may not
    see (the user is no admin, did not create it and is not among its users)
    shows neither its search text, its search type, its id, its creator nor
    its query.  The hunt returned as [runningJob] is the hit as it was
    found. *)
Theorem strangers_see_no_search (running : bool) (user : User) (hits : list HuntHit)
                                (data : list Listed) (runningJob : option Listed) :
  listHunts running user hits None = (data, runningJob) ->
  (forall l, In l data ->
     exists h, In h hits /\
       (stranger user h = true ->
        l_search l = "" /\ l_searchType l = "" /\ l_id l = "" /\
        l_userId l = Some "" /\ l_query l = None) /\
       (stranger user h = false -> l = shown h)) /\
  (forall j, runningJob = Some j ->
     exists h, In h hits /\ h_status h = Hunt.running /\ j = asFound h).
Proof.
  intros H. destruct (listHunts_data _ _ _ _ _ _ H) as [D R]. split.
  - intros l I. destruct (D l I) as (h & Ih & _ & ->). exists h. split; [exact Ih|].
    destruct (stranger user h); split; try discriminate; intros _; repeat split.
  - intros j J. destruct R as [-> | (h & Ih & S & _ & E)]; [discriminate|].
    rewrite J in E. inversion E. exists h. auto.
Qed.

Lemma strangers_see_no_search_witness :
  exists l,
    listHunts false (Cases.hunter "bob") [Cases.secretHunt] None = ([l], None) /\
    l_search l = "" /\ l_query l = None.
Proof.
  eexists. split; [reflexivity|].
  match goal with
  | |- l_search ?l = _ /\ _ =>
      destruct (proj1 (strangers_see_no_search false (Cases.hunter "bob") [Cases.secretHunt]
                         [l] None eq_refl) l (or_introl eq_refl))
        as (h & [<- | []] & S & _)
  end.
  destruct (S eq_refl) as (S1 & _ & _ & _ & S5). split; [exact S1 | exact S5].
Defined.

(** *** New hunts *)

Section NewHunts.
Variable Regex : Type.
Variable utf8 : list Z -> string.
Variable toLowerCase : string -> string.
Variable found : Regex -> string -> bool.

(** [POST /hunt] lets a hunt through only with one of six search types, and
    [wildcard] is one of them; [packetSearch] knows the other five, so a
    hunt of type [wildcard] finds its text in no packet. *)
Theorem wildcard_hunt_never_matches
    (multiES : bool) (adminLimit limit now : Z) (user : User) (body : option NewHunt)
    (c : Created) :
  newHunt multiES adminLimit limit now user body = inr c ->
  In (c_searchType c) searchTypes /\
  (c_searchType c = "wildcard" ->
   forall (packet : list Z) (o : Search.Options Regex),
     Search.searchType o = c_searchType c ->
     Search.packetSearch Regex utf8 toLowerCase found packet o = false).
Proof.
  unfold newHunt, refuse. destruct multiES; [discriminate|].
  destruct body as [h|]; [|discriminate].
  repeat (match goal with
          | |- (if ?b then inl _ else _) = inr _ -> _ => destruct b eqn:?; [discriminate|]
          end).
  destruct (n_query h) as [[[s|] [e|]]|]; try discriminate.
  destruct (n_searchType h) as [st|]; [|discriminate].
  destruct (String.eqb st ""); [discriminate|].
  destruct (existsb (String.eqb st) searchTypes) eqn:ST; [|discriminate]. cbn [negb].
  destruct (n_type h) as [ty|]; [|discriminate].
  destruct (String.eqb ty ""); [discriminate|].
  destruct (negb (String.eqb ty "raw") && negb (String.eqb ty "reassembled")); [discriminate|].
  destruct (_ <? _); [discriminate|].
  intros H. inversion H; subst c. clear H. cbn [c_searchType].
  split.
  - apply existsb_exists in ST. destruct ST as (x & I & E).
    apply String.eqb_eq in E. subst. exact I.
  - intros -> packet o T. unfold Search.packetSearch. rewrite T. reflexivity.
Qed.

End NewHunts.

Lemma wildcard_hunt_never_matches_witness :
  exists c,
    newHunt false 10000000 1000000 1600000000 (Cases.hunter "alice") (Some Cases.wildcardHunt)
    = inr c /\
    c_searchType c = "wildcard" /\
    Search.packetSearch Cases.Pattern Cases.latin1 Cases.lower Cases.finds [71; 69; 84]
                        (Cases.huntFor "wildcard" "G*T") = false.
Proof.
  eexists. split; [reflexivity|]. split; [reflexivity|].
  refine (proj2 (wildcard_hunt_never_matches Cases.Pattern Cases.latin1 Cases.lower
                   Cases.finds false 10000000 1000000 1600000000 (Cases.hunter "alice")
                   (Some Cases.wildcardHunt) _ eq_refl) eq_refl [71; 69; 84]
                (Cases.huntFor "wildcard" "G*T") eq_refl).
Defined.

End JobsFacts.

(* ------------------------------------------------------------------------ *)
(** ** The mutex of the shortcut routes *)

Module MutexFacts.
Import Mutex.

Lemma step_keeps op u u' (served : list nat) :
  step op u = Some u' ->
  exclusive u ->
  (granted u ++ queue (mutex u))%list = served ->
  exclusive u' /\
  (granted u' ++ queue (mutex u'))%list
  = match op with
    | Lock who => (served ++ [who])%list
    | Unlock => served
    end.
Proof.
  intros S (H1 & H2 & H3) G. destruct op as [who|]; simpl in S.
  - unfold lock in S. destruct (locked (mutex u)) eqn:L.
    + inversion S; subst u'. clear S. cbn. unfold exclusive. cbn.
      rewrite ?L. split; [|rewrite app_assoc, G; reflexivity].
      split; [exact H1|]. split; [exact H2 | discriminate].
    + inversion S; subst u'. clear S. cbn. unfold exclusive. cbn.
      assert (Z : holding u = O).
      { destruct (holding u) as [|[|h]]; [reflexivity | | lia].
        assert (T : false = true) by (apply H2; reflexivity). discriminate T. }
      rewrite Z. rewrite (H3 eq_refl) in *. rewrite app_nil_r in *. subst served.
      split; [|reflexivity].
      split; [lia|]. split; [tauto | discriminate].
  - destruct (holding u) as [|h] eqn:Hh; [discriminate|].
    assert (Z : h = O) by lia. subst h.
    assert (L : locked (mutex u) = true) by (apply H2; reflexivity).
    unfold unlock in S. destruct (queue (mutex u)) as [|r rest] eqn:Q.
    + inversion S; subst u'. clear S. cbn. unfold exclusive. cbn.
      rewrite app_nil_r in *. split; [|exact G].
      split; [lia|]. split; [split; discriminate | reflexivity].
    + inversion S; subst u'. clear S. cbn. unfold exclusive. cbn.
      rewrite ?L. split; [|rewrite <- app_assoc; exact G].
      split; [lia|]. split; [tauto | discriminate].
Qed.

Lemma run_keeps ops :
  forall u u' served,
    run ops u = Some u' ->
    exclusive u ->
    (granted u ++ queue (mutex u))%list = served ->
    exclusive u' /\ (granted u' ++ queue (mutex u'))%list = (served ++ callers ops)%list.
Proof.
  induction ops as [|op rest IH]; intros u u' served; simpl.
  - intros H E G. inversion H; subst. rewrite app_nil_r. auto.
  - destruct (step op u) as [u1|] eqn:S; [|discriminate].
    intros H E G. destruct (step_keeps _ _ _ _ S E G) as [E1 G1].
    destruct (IH _ _ _ H E1 G1) as [E2 G2]. split; [exact E2|].
    rewrite G2. destruct op; [rewrite <- app_assoc|]; reflexivity.
Qed.

(** However [lock()] and [unlock()] are interleaved by users that call
    [unlock()] only while they hold the mutex: at every moment at most one
    caller holds it, and the callers are served in the order of their calls
    to [lock()] (those served so far, followed by those still waiting, are
    the callers in that order). *)
Theorem mutex_serves_one_at_a_time_in_order (ops : list Op) (u : Use) :
  run ops start = Some u ->
  exclusive u /\ (granted u ++ queue (mutex u))%list = callers ops.
Proof.
  intros R. apply (run_keeps ops start u [] R).
  - unfold exclusive, start. cbn. split; [lia|].
    split; [split; discriminate | reflexivity].
  - reflexivity.
Qed.

Lemma mutex_serves_one_at_a_time_in_order_witness :
  exists u,
    run [Lock 1; Lock 2; Lock 3; Unlock; Unlock] start = Some u /\
    granted u = [1; 2; 3]%nat /\ holding u = 1%nat /\ exclusive u.
Proof.
  eexists. split; [reflexivity|]. split; [reflexivity|]. split; [reflexivity|].
  exact (proj1 (mutex_serves_one_at_a_time_in_order
                  [Lock 1; Lock 2; Lock 3; Unlock; Unlock] _ eq_refl)).
Defined.

End MutexFacts.

(* ------------------------------------------------------------------------ *)
(** ** The tags of an upload *)

Module UploadFacts.
Import Upload.

Lemma fold_addTag pieces acc :
  fold_left addTag pieces acc
  = acc ++ tagArgs (filter (fun t => negb (String.eqb t "")) pieces).
Proof.
  revert acc. induction pieces as [|t pieces IH]; intros acc; simpl.
  - induction acc as [|c acc IHa]; simpl; congruence.
  - rewrite IH. unfold addTag. destruct t as [|c t]; simpl; [reflexivity|].
    clear IH. induction acc as [|a acc IHa]; simpl; [reflexivity|].
    f_equal. exact IHa.
Qed.

(** Whatever the [tags] of an upload request hold, what replaces [{TAGS}] in
    the upload command is a sequence of arguments [ --tag t], each for a tag
    [t] that is not empty and is made of the characters [-a-zA-Z0-9_:]
    only. *)
Theorem upload_tags_are_clean (body : option string) :
  exists ts, uploadTags body = tagArgs ts /\
             Forall (fun t => t <> "" /\ CronRun.safeTag t) ts.
Proof.
  unfold uploadTags. destruct (JS.truthy_str body); [|exists []; split; constructor].
  destruct body as [b|]; [|exists []; split; constructor].
  exists (filter (fun t => negb (String.eqb t "")) (JS.split ","%char (Cron.sanitize b))).
  split; [apply fold_addTag|].
  apply Forall_forall. intros t H. apply filter_In in H. destruct H as [I N].
  split.
  - intros ->. discriminate N.
  - pose proof (CronRunFacts.split_pieces _ ","%char _ (CronRunFacts.sanitize_chars b)) as F.
    rewrite Forall_forall in F. apply (F t I).
Qed.

End UploadFacts.

(* ------------------------------------------------------------------------ *)
(** ** What the history keeps of a request body *)

Module LogFacts.
Import Log.

Section Body.

Variable Value : Type.
Variable inherited : string -> bool.

Lemma bodyClone_In body clone k v :
  bodyClone Value inherited body = Some clone ->
  (In (k, v) clone <-> In (k, v) body /\ avoidProps inherited k = false).
Proof.
  unfold bodyClone. destruct (shadowed Value body); [discriminate|].
  intros H. inversion H. subst clone. rewrite filter_In. simpl.
  rewrite negb_true_iff. reflexivity.
Qed.

Lemma logBody_clone body logged :
  logBody Value inherited body = Some (Some logged) ->
  bodyClone Value inherited body = Some logged /\ logged <> [].
Proof.
  unfold logBody. destruct (bodyClone Value inherited body) as [[|kv clone]|];
    try discriminate.
  intros H. inversion H. split; [reflexivity | discriminate].
Qed.

(** The body that [logAction] puts into the history holds no [password],
    [newPassword] or [currentPassword]: it holds exactly the other properties
    of the request body, with their values, but those named like a property
    of [Object.prototype]; and no body is logged when the request body has a
    property [hasOwnProperty]. *)
Theorem logged_body_has_no_password (body logged : list (string * Value)) :
  logBody Value inherited body = Some (Some logged) ->
  (forall k v, In (k, v) logged ->
     k <> "password" /\ k <> "newPassword" /\ k <> "currentPassword") /\
  (forall k v, In (k, v) logged <-> In (k, v) body /\ avoidProps inherited k = false) /\
  (forall v, ~ In ("hasOwnProperty", v) body).
Proof.
  intros H. destruct (logBody_clone _ _ H) as [C _].
  split; [|split].
  - intros k v I. apply (bodyClone_In _ _ _ _ C) in I. destruct I as [_ A].
    unfold avoidProps in A.
    repeat split; intros ->; discriminate A.
  - intros k v. apply (bodyClone_In _ _ _ _ C).
  - intros v I. unfold bodyClone in C.
    destruct (shadowed Value body) eqn:S0; [discriminate|].
    unfold shadowed in S0.
    assert (X : existsb (fun kv : string * Value => String.eqb (fst kv) "hasOwnProperty") body
                = true).
    { apply existsb_exists. exists ("hasOwnProperty", v). split; [exact I|reflexivity]. }
    rewrite X in S0. discriminate S0.
Qed.

End Body.

Lemma logged_body_has_no_password_witness :
  logBody string Cases.prototypeNames Cases.passwordBody
    = Some (Some [("userId", "alice"); ("note", "rotate")]) /\
  forall v, ~ In ("newPassword", v) [("userId", "alice"); ("note", "rotate")].
Proof.
  assert (H : logBody string Cases.prototypeNames Cases.passwordBody
              = Some (Some [("userId", "alice"); ("note", "rotate")])) by reflexivity.
  split; [exact H|].
  intros v I.
  destruct (proj1 (logged_body_has_no_password string Cases.prototypeNames _ _ H) _ _ I)
    as (_ & N & _).
  apply N. reflexivity.
Defined.

End LogFacts.

(* ------------------------------------------------------------------------ *)
(** ** Alerts *)

Module AlertFacts.
Import Alert.

Lemma lookup_assign k v k' config :
  lookup k' (assign k v config) = if String.eqb k k' then Some v else lookup k' config.
Proof.
  induction config as [|[k0 v0] config IH]; simpl.
  - reflexivity.
  - destruct (String.eqb k0 k) eqn:E; simpl.
    + apply String.eqb_eq in E. subst k0.
      destruct (String.eqb k k'); reflexivity.
    + rewrite IH. destruct (String.eqb k0 k') eqn:E'; [|reflexivity].
      apply String.eqb_eq in E'. subst k0.
      rewrite String.eqb_sym, E. reflexivity.
Qed.

Lemma valueOf_from k configured acc :
  fold_left (fun acc cf =>
               if String.eqb (c_name cf) k
               then match c_value cf with Some v => Some v | None => acc end
               else acc)
            configured acc
  = match valueOf k configured with Some v => Some v | None => acc end.
Proof.
  unfold valueOf. revert acc.
  induction configured as [|cf configured IH]; intros acc; simpl; [reflexivity|].
  rewrite IH. rewrite (IH (if String.eqb (c_name cf) k then _ else _)).
  destruct (fold_left _ configured None); [reflexivity|].
  destruct (String.eqb (c_name cf) k); [|reflexivity].
  destruct (c_value cf); reflexivity.
Qed.

Lemma valueOf_cons k cf configured :
  valueOf k (cf :: configured)
  = match valueOf k configured with
    | Some v => Some v
    | None => if String.eqb (c_name cf) k then c_value cf else None
    end.
Proof.
  unfold valueOf at 1. simpl. rewrite valueOf_from.
  destruct (valueOf k configured); [reflexivity|].
  destruct (String.eqb (c_name cf) k); [|reflexivity].
  destruct (c_value cf); reflexivity.
Qed.

Lemma lookup_fill field configured config k :
  lookup k (fill field configured config)
  = if String.eqb (f_name field) k
    then match valueOf k configured with Some v => Some v | None => lookup k config end
    else lookup k config.
Proof.
  unfold fill. revert config.
  induction configured as [|cf configured IH]; intros config; simpl.
  - destruct (String.eqb (f_name field) k); reflexivity.
  - rewrite IH, valueOf_cons.
    destruct (String.eqb (f_name field) k) eqn:E.
    + apply String.eqb_eq in E. subst k.
      destruct (valueOf (f_name field) configured); [reflexivity|].
      destruct (String.eqb (c_name cf) (f_name field)); [|reflexivity].
      destruct (c_value cf); [|reflexivity].
      rewrite lookup_assign, String.eqb_refl. reflexivity.
    + destruct (String.eqb (c_name cf) (f_name field)); [|reflexivity].
      destruct (c_value cf); [|reflexivity].
      rewrite lookup_assign, E. reflexivity.
Qed.

Lemma configure_from fields configured config effs :
  (forall k, lookup k config = None \/ lookup k config = valueOf k configured) ->
  let st := fold_left (fun st field =>
               let config := fill field configured (fst st) in
               (config,
                if required field
                then match lookup (f_name field) config with
                     | None => (snd st ++ [complaint field])%list
                     | Some _ => snd st
                     end
                else snd st))
            fields (config, effs) in
  snd st = (effs ++ map complaint (unset fields configured))%list /\
  (forall k, lookup k (fst st) = None \/ lookup k (fst st) = valueOf k configured) /\
  (forall k, In k (map f_name fields) -> lookup k (fst st) = valueOf k configured).
Proof.
  revert config effs. induction fields as [|f fields IH]; intros config effs I; simpl.
  - rewrite app_nil_r. split; [reflexivity|]. split; [exact I|]. intros k [].
  - set (config' := fill f configured config).
    assert (L : lookup (f_name f) config' = valueOf (f_name f) configured).
    { unfold config'. rewrite lookup_fill, String.eqb_refl.
      destruct (valueOf (f_name f) configured) eqn:V; [reflexivity|].
      destruct (I (f_name f)) as [N | N]; congruence. }
    assert (I' : forall k, lookup k config' = None \/ lookup k config' = valueOf k configured).
    { intros k. unfold config'. rewrite lookup_fill.
      destruct (String.eqb (f_name f) k); [|apply I].
      destruct (valueOf k configured) eqn:V; [right; reflexivity|].
      destruct (I k) as [X | X]; [left; exact X | right; rewrite X; exact V]. }
    match goal with
    | |- context [fold_left _ fields (config', ?e)] =>
        destruct (IH config' e I') as (A & B & C)
    end.
    cbv zeta in A, B, C.
    split; [|split].
    + rewrite A. unfold unset. simpl. rewrite L.
      destruct (required f); simpl; [|reflexivity].
      destruct (valueOf (f_name f) configured); simpl; [reflexivity|].
      rewrite <- app_assoc. reflexivity.
    + exact B.
    + intros k [<- | H]; [|apply C; exact H].
      destruct (in_dec string_dec (f_name f) (map f_name fields)) as [J|J];
        [apply C; exact J|].
      clear A C IH.
      assert (K : forall fs c e,
                 ~ In (f_name f) (map f_name fs) ->
                 lookup (f_name f)
                   (fst (fold_left (fun st field =>
                      let config := fill field configured (fst st) in
                      (config,
                       if required field
                       then match lookup (f_name field) config with
                            | None => (snd st ++ [complaint field])%list
                            | Some _ => snd st
                            end
                       else snd st)) fs (c, e)))
                 = lookup (f_name f) c).
      { induction fs as [|g fs IHf]; intros c e N; simpl; [reflexivity|].
        rewrite IHf by (intros X; apply N; right; exact X).
        rewrite lookup_fill.
        destruct (String.eqb (f_name g) (f_name f)) eqn:E; [|reflexivity].
        apply String.eqb_eq in E. exfalso. apply N. left. exact E. }
      rewrite K by exact J. exact L.
Qed.

Lemma configure_spec fields configured :
  snd (configure fields configured) = map complaint (unset fields configured) /\
  (forall k, lookup k (fst (configure fields configured))
             = if existsb (String.eqb k) (map f_name fields)
               then valueOf k configured else None).
Proof.
  unfold configure.
  destruct (configure_from fields configured [] [] (fun _ => or_introl eq_refl))
    as (A & B & C).
  cbv zeta in A, B, C. split; [exact A|].
  intros k. destruct (existsb (String.eqb k) (map f_name fields)) eqn:X.
  - apply existsb_exists in X. destruct X as (k' & I & E).
    apply String.eqb_eq in E. subst k'. apply C. exact I.
  - assert (N : ~ In k (map f_name fields)).
    { intros I. assert (Y : existsb (String.eqb k) (map f_name fields) = true).
      { apply existsb_exists. exists k. split; [exact I | apply String.eqb_refl]. }
      congruence. }
    clear A B C X.
    assert (K : forall fs c e,
               ~ In k (map f_name fs) ->
               lookup k
                 (fst (fold_left (fun st field =>
                    let config := fill field configured (fst st) in
                    (config,
                     if required field
                     then match lookup (f_name field) config with
                          | None => (snd st ++ [complaint field])%list
                          | Some _ => snd st
                          end
                     else snd st)) fs (c, e)))
               = lookup k c).
    { induction fs as [|g fs IHf]; intros c e M; simpl; [reflexivity|].
      rewrite IHf by (intros X; apply M; right; exact X).
      rewrite lookup_fill.
      destruct (String.eqb (f_name g) k) eqn:E; [|reflexivity].
      apply String.eqb_eq in E. exfalso. apply M. left. exact E. }
    rewrite K by exact N. reflexivity.
Qed.

(** Once the notifier and a definition of its type are found, [issueAlert]
    sends the alert whether or not the required fields have values: it calls
    [continueProcess] with an error once for every required field of the
    definition that the notifier gives no value, in the order of the
    definition, then sends the alert, and calls [continueProcess] once more
    with the last error of the response. The configuration it sends holds the
    fields of the definition, each with the last value that the notifier gives
    it. *)
Theorem alert_sent_despite_missing_fields
    (notifiers : list Provider) (stored : string -> option Notifier)
    (respond : Config -> string -> option (list string))
    (name message : string) (notifier : Notifier) (p : Provider)
    (configured : list Configured) :
  name <> "" ->
  stored name = Some notifier ->
  definitionOf notifiers notifier = Some p ->
  n_fields notifier = Some configured ->
  exists config,
    issueAlert notifiers (Some (true, stored)) respond (Some name) message
    = Some (map complaint (unset (p_fields p) configured)
            ++ [SendAlert config message; Continue (lastError (respond config message))])%list
    /\ forall k, lookup k config
                 = if existsb (String.eqb k) (map f_name (p_fields p))
                   then valueOf k configured else None.
Proof.
  intros N S0 D F. unfold issueAlert.
  destruct (String.eqb name "") eqn:E; [apply String.eqb_eq in E; contradiction|].
  rewrite S0, D, F.
  destruct (configure_spec (p_fields p) configured) as [A B].
  destruct (configure (p_fields p) configured) as [config complaints] eqn:C.
  simpl in A, B. exists config. subst complaints.
  split; [|exact B].
  destruct (p_fields p); cbv beta iota; rewrite C; reflexivity.
Qed.

Lemma alert_sent_despite_missing_fields_witness :
  issueAlert [Cases.slack] Cases.sharedNotifiers (fun _ _ => None) (Some "ops") "hunt finished"
  = Some [Continue (Some "Cannot find notifier field value: slackWebhookUrl, no alert can be issued");
          SendAlert [("channel", "ops")] "hunt finished";
          Continue None].
Proof.
  destruct (alert_sent_despite_missing_fields [Cases.slack]
              (fun name => if String.eqb name "ops" then Some Cases.incomplete else None)
              (fun _ _ => None) "ops" "hunt finished" Cases.incomplete Cases.slack
              [ {| c_name := "channel"; c_value := Some "ops" |};
                {| c_name := "slackWebhookUrl"; c_value := None |} ])
    as (config & H & _).
  - discriminate.
  - reflexivity.
  - reflexivity.
  - reflexivity.
  - reflexivity.
Defined.

End AlertFacts.
